(** * Monthly trader: scoring, cross-sectional filter, selection, simulation

    A shallow embedding of [backtest.py] and [screener.py].

    Conventions of the embedding.
    - A pandas float cell is a [cell = option Q]: [None] is NaN, [Some q] a
      finite value, computed exactly.  Comparisons with NaN are false.
    - A DataFrame is the list of its rows, in row order; a column is the
      list of its cells.  A Python dict is an association list with unique
      keys, in insertion order.
    - A raised Python exception is [Raise e]; normal completion is [Ok v].
    - A timestamp is a calendar [date]; the [%y-%m] label of a date is the
      pair (two-digit year, month), ordered as its string is. *)

From Stdlib Require Import String Ascii.
From Stdlib Require Import List Arith Bool ZArith QArith Qround Lia Lqa.
From Stdlib Require Import Permutation Sorted.
Import ListNotations.

Set Implicit Arguments.
Open Scope nat_scope.
Open Scope list_scope.

(* ================================================================== *)
(** * Part I.  The model                                                *)
(* ================================================================== *)

(** ** Exceptions *)

Inductive exn : Type :=
| AttributeError
| TypeError
| KeyError
| IndexError
| IntCastingNaNError.

Inductive result (A : Type) : Type :=
| Ok (a : A)
| Raise (e : exn).

Arguments Ok {A} a.
Arguments Raise {A} e.

Definition bind {A B : Type} (m : result A) (k : A -> result B) : result B :=
  match m with
  | Ok a => k a
  | Raise e => Raise e
  end.

Notation "x <- m ;; k" := (bind m (fun x => k))
  (at level 61, m at next level, right associativity).

(** [for x in xs: body] over a state threaded through the loop. *)
Fixpoint for_each {A S : Type} (xs : list A) (body : A -> S -> result S)
  (s : S) : result S :=
  match xs with
  | [] => Ok s
  | x :: rest => s' <- body x s ;; for_each rest body s'
  end.

(** ** Cells *)

Definition cell : Type := option Q.

Definition Qltb (x y : Q) : bool := negb (Qle_bool y x).

(** [a > b] and [a < b] on float cells: false as soon as one side is NaN. *)
Definition cell_gt (a b : cell) : bool :=
  match a, b with
  | Some x, Some y => Qltb y x
  | _, _ => false
  end.

Definition cell_lt (a b : cell) : bool := cell_gt b a.

Definition cell_add (a b : cell) : cell :=
  match a, b with
  | Some x, Some y => Some (x + y)%Q
  | _, _ => None
  end.

Definition cell_div (a : cell) (d : Q) : cell :=
  match a with
  | Some x => Some (x / d)%Q
  | None => None
  end.

Definition Qsum (xs : list Q) : Q := fold_right Qplus 0%Q xs.

(** [Series.dropna()] on a column. *)
Fixpoint dropna (col : list cell) : list Q :=
  match col with
  | [] => []
  | Some x :: rest => x :: dropna rest
  | None :: rest => dropna rest
  end.

(** ** Generic list helpers *)

Fixpoint imap {A B : Type} (f : nat -> A -> B) (i : nat) (l : list A) : list B :=
  match l with
  | [] => []
  | x :: rest => f i x :: imap f (S i) rest
  end.

Section Sorting.
Variable A : Type.
Variable leb : A -> A -> bool.

Fixpoint insert (x : A) (l : list A) : list A :=
  match l with
  | [] => [x]
  | y :: rest => if leb x y then x :: y :: rest else y :: insert x rest
  end.

(** Ascending sort; equal keys keep their input order. *)
Definition isort (l : list A) : list A := fold_right insert [] l.

(** [l.tail(n)]: the last [n] rows. *)
Definition tail (n : nat) (l : list A) : list A := skipn (length l - n) l.
End Sorting.

(** ** Dates and month labels *)

Record date : Type := mkDate { year : nat; mon : nat; day : nat }.

Definition date_leb (a b : date) : bool :=
  (year a <? year b)
  || ((year a =? year b)
      && ((mon a <? mon b) || ((mon a =? mon b) && (day a <=? day b)))).

Definition date_ltb (a b : date) : bool := negb (date_leb b a).

(** A month label: [strftime("%y-%m")] as (two-digit year, month), or
    [strftime("%Y-%m")] as (year, month).  Both strings are zero padded, so
    the string order is the lexicographic order of the pair. *)
Definition label : Type := (nat * nat)%type.

Definition label_eqb (a b : label) : bool :=
  (fst a =? fst b) && (snd a =? snd b).

Definition label_leb (a b : label) : bool :=
  (fst a <? fst b) || ((fst a =? fst b) && (snd a <=? snd b)).

Definition strftime_ym (d : date) : label := (year d mod 100, mon d).

Definition strftime_Ym (d : date) : label := (year d, mon d).

Definition is_leap (y : nat) : bool :=
  ((y mod 4 =? 0) && negb (y mod 100 =? 0)) || (y mod 400 =? 0).

Definition days_in_month (y m : nat) : nat :=
  match m with
  | 2 => if is_leap y then 29 else 28
  | 4 | 6 | 9 | 11 => 30
  | _ => 31
  end.

Definition next_day (d : date) : date :=
  if day d <? days_in_month (year d) (mon d)
  then mkDate (year d) (mon d) (S (day d))
  else if mon d <? 12
       then mkDate (year d) (S (mon d)) 1
       else mkDate (S (year d)) 1 1.

(** [d + timedelta(days=n)]. *)
Definition add_days (n : nat) (d : date) : date := Nat.iter n next_day d.

Arguments add_days : simpl never.

(** ** [groupby] *)

Section GroupBy.
Variable R : Type.
Variable key : R -> label.

Fixpoint distinct_labels (ls : list label) : list label :=
  match ls with
  | [] => []
  | l :: rest =>
      if existsb (label_eqb l) rest then distinct_labels rest
      else l :: distinct_labels rest
  end.

(** [df.groupby(key)]: one group per distinct key, groups in ascending
    key order, the rows of a group in their order in [df]. *)
Definition groupby (df : list R) : list (label * list R) :=
  map (fun k => (k, filter (fun r => label_eqb (key r) k) df))
      (isort label_leb (distinct_labels (map key df))).
End GroupBy.

(** ** Monthly rows *)

(** A daily row as [resample_stocks_to_month] receives it: [get_stocks] has
    dropped every row with a missing field, so [Open] and [Close] are
    defined; [pct], [changes] and [beta] are derived and may be NaN. *)
Record DayRow : Type := mkDayRow {
  d_Date : date;
  d_Open : Q;
  d_Close : Q;
  d_pct : cell;
  d_changes : cell;
  d_beta : cell
}.

Record MonthRow : Type := mkMonthRow {
  m_Date : date;
  m_month : label;
  m_Open : Q;
  m_Close : Q;
  m_beta : cell;
  m_changes : Q
}.

(** A monthly row after [momentum]. *)
Record ScoredRow : Type := mkScoredRow {
  s_Date : date;
  s_month : label;
  s_Open : Q;
  s_Close : Q;
  s_beta : cell;
  s_changes : Q;
  s_roc : cell;
  changes_3 : cell;
  changes_6 : cell;
  changes_9 : cell;
  changes_12 : cell
}.

(** The column [changes_{h}]. *)
Definition changes_ (h : nat) (r : ScoredRow) : cell :=
  match h with
  | 3 => changes_3 r
  | 6 => changes_6 r
  | 9 => changes_9 r
  | 12 => changes_12 r
  | _ => None
  end.

(** ** [momentum] *)

(** [Series.rolling(n).sum()] on a column without NaN: defined from the
    [n]-th row on, where it is the sum of the last [n] values. *)
Definition rolling_sum (n : nat) (xs : list Q) : list cell :=
  map (fun i =>
         if n <=? i + 1
         then Some (Qsum (firstn n (skipn (i + 1 - n) xs)))
         else None)
      (seq 0 (length xs)).

(** [Series.shift(-1)]: every value moves one row up, the last row is NaN. *)
Definition shift_m1 (col : list cell) : list cell :=
  match col with
  | [] => []
  | _ :: rest => rest ++ [None]
  end.

(** [np.where((roc > 0) & (chg > 0), chg + roc / 1000, chg)] at one row. *)
Definition np_where_score (roc chg : cell) : cell :=
  if cell_gt roc (Some 0%Q) && cell_gt chg (Some 0%Q)
  then cell_add chg (cell_div roc 1000%Q)
  else chg.

Section Momentum.
(** [tools.roc] is imported from a module that is not part of the
    sources at hand: it is a parameter of the scorer.  [roc closes n] is
    the column it returns for the [Close] column and the interval [n]. *)
Variable roc : list Q -> nat -> list cell.

(** [backtest.py] shifts the roc column by one row, [screener.py] does
    not. *)
Variable shift_roc : bool.

Definition roc_col (interval : nat) (df : list MonthRow) : list cell :=
  let c := roc (map m_Close df) interval in
  if shift_roc then shift_m1 c else c.

Definition rolling_col (interval : nat) (df : list MonthRow) : list cell :=
  shift_m1 (rolling_sum interval (map m_changes df)).

(** The column [changes_{interval}] after the [np.where]. *)
Definition score_col (interval : nat) (df : list MonthRow) : list cell :=
  map (fun i => np_where_score (nth i (roc_col interval df) None)
                               (nth i (rolling_col interval df) None))
      (seq 0 (length df)).

(** The loop over [3, 6, 9, 12]; the column [roc] is overwritten at each
    turn and keeps the value of the last one. *)
Definition momentum (df : list MonthRow) : list ScoredRow :=
  imap (fun i r =>
          {| s_Date := m_Date r;
             s_month := m_month r;
             s_Open := m_Open r;
             s_Close := m_Close r;
             s_beta := m_beta r;
             s_changes := m_changes r;
             s_roc := nth i (roc_col 12 df) None;
             changes_3 := nth i (score_col 3 df) None;
             changes_6 := nth i (score_col 6 df) None;
             changes_9 := nth i (score_col 9 df) None;
             changes_12 := nth i (score_col 12 df) None |})
       0 df.
End Momentum.

(** Modelled from the spec: [tools.roc] is not part of the sources at hand;
    the specification gives [roc_h[m] = close[m] / close[m-h] - 1],
    undefined for the first [h] months. *)
Definition roc_spec (closes : list Q) (n : nat) : list cell :=
  map (fun i =>
         if n <=? i
         then Some (nth i closes 0 / nth (i - n) closes 0 - 1)%Q
         else None)
      (seq 0 (length closes)).

(** ** Dicts keyed by ticker *)

Definition symbol : Type := string.

Definition dict (V : Type) : Type := list (symbol * V).

Section Dict.
Variable V : Type.

Definition keys (d : dict V) : list symbol := map fst d.

(** [d[k]]. *)
Fixpoint dict_get (k : symbol) (d : dict V) : option V :=
  match d with
  | [] => None
  | (k', v) :: rest => if String.eqb k k' then Some v else dict_get k rest
  end.

(** [d[k] = v]: an existing key keeps its place, a new key goes last. *)
Fixpoint dict_set (k : symbol) (v : V) (d : dict V) : dict V :=
  match d with
  | [] => [(k, v)]
  | (k', v') :: rest =>
      if String.eqb k k' then (k, v) :: rest
      else (k', v') :: dict_set k v rest
  end.

(** [try: d.pop(k) except KeyError: pass]. *)
Fixpoint dict_discard (k : symbol) (d : dict V) : dict V :=
  match d with
  | [] => []
  | (k', v') :: rest =>
      if String.eqb k k' then rest else (k', v') :: dict_discard k rest
  end.
End Dict.

Definition lower_ascii (c : ascii) : ascii :=
  let n := nat_of_ascii c in
  if (65 <=? n) && (n <=? 90) then ascii_of_nat (n + 32) else c.

(** [str.lower()] on an ASCII ticker. *)
Fixpoint lower (s : string) : string :=
  match s with
  | EmptyString => EmptyString
  | String c rest => String (lower_ascii c) (lower rest)
  end.

(** ** [get_stocks] *)

(** One row of the frame that [yf.download] returns for one ticker. *)
Record RawBar : Type := mkRawBar {
  r_Date : date;
  r_Open : cell;
  r_High : cell;
  r_Low : cell;
  r_Close : cell;
  r_Volume : cell
}.

(** A row that survived [dropna]. *)
Record Bar : Type := mkBar {
  b_Date : date;
  b_Open : Q;
  b_High : Q;
  b_Low : Q;
  b_Close : Q;
  b_Volume : Q
}.

Definition cell_eqb (a b : cell) : bool :=
  match a, b with
  | Some x, Some y => Qeq_bool x y
  | _, _ => false
  end.

(** [df[~(df.High == df.Low)].dropna()]. *)
Fixpoint clean_bars (df : list RawBar) : list Bar :=
  match df with
  | [] => []
  | r :: rest =>
      if negb (cell_eqb (r_High r) (r_Low r)) then
        match r_Open r, r_High r, r_Low r, r_Close r, r_Volume r with
        | Some o, Some h, Some l, Some c, Some v =>
            mkBar (r_Date r) o h l c v :: clean_bars rest
        | _, _, _, _, _ => clean_bars rest
        end
      else clean_bars rest
  end.

(** The loop of [get_stocks] over the tickers of the downloaded frame. *)
Fixpoint collect_stocks (stock_data : list (string * list RawBar))
  (dfs : dict (list Bar)) : dict (list Bar) :=
  match stock_data with
  | [] => dfs
  | (sym, raw) :: rest =>
      let df := clean_bars raw in
      collect_stocks rest
        (match df with
         | [] => dfs
         | _ :: _ => dict_set (lower sym) df dfs
         end)
  end.

(** ** [add_indicators] and [max_beta] *)

(** A quotient of two floats.  A zero divisor gives an infinity or NaN in
    floating point; the embedding has no infinities and gives NaN. *)
Definition quot (x y : Q) : cell :=
  if Qeq_bool y 0 then None else Some (x / y)%Q.

(** [Series.round(digits)] (half to even), on the exact value.  The code
    rounds a binary float: where the exact value sits on a half (a change
    of exactly half a percent, as a close of 199 after 200), the float can
    lie on either side of it and round the other way.  What is proved of
    directions keeps away from these halves. *)
Definition round_half_even (digits : nat) (x : Q) : Q :=
  let scale := inject_Z (10 ^ Z.of_nat digits) in
  let y := (x * scale)%Q in
  let f := Qfloor y in
  let d := (y - inject_Z f)%Q in
  let n :=
    if Qltb d (1 # 2) then f
    else if Qltb (1 # 2) d then (f + 1)%Z
    else if Z.even f then f else (f + 1)%Z in
  (inject_Z n / scale)%Q.

(** [np.sign]. *)
Definition sign (x : Q) : Q :=
  if Qltb 0 x then 1%Q else if Qltb x 0 then (-1)%Q else 0%Q.

(** [Close.pct_change()], given the previous close. *)
Fixpoint pct_change (prev : option Q) (closes : list Q) : list cell :=
  match closes with
  | [] => []
  | c :: rest =>
      match prev with
      | None => None
      | Some p => option_map (fun q => (q - 1)%Q) (quot c p)
      end :: pct_change (Some c) rest
  end.

(** A daily row between [add_indicators] and [max_beta]. *)
Record IndRow : Type := mkIndRow {
  i_bar : Bar;
  i_pct : cell;
  i_changes : cell
}.

(** [add_indicators]; [rounded] is true in [backtest.py], which takes the
    sign of [pct.round(2)], and false in [screener.py].  After a close of
    zero the code has an infinite change, with the direction 1 or -1, where
    [quot] gives NaN: what is proved of [pct] and [changes] assumes a
    positive previous close. *)
Definition add_indicators (rounded : bool) (data : list Bar) : list IndRow :=
  map (fun bp : Bar * cell =>
         let (b, p) := bp in
         mkIndRow b p
           (option_map (fun x => sign (if rounded then round_half_even 2 x else x))
                       p))
      (combine data (pct_change None (map b_Close data))).

(** The mean of the five largest values of [pct] in a month: the rows of
    rank at most 5 in descending order; NaN has no rank. *)
Definition top_five_avg (pcts : list Q) : cell :=
  let top := firstn 5 (isort (fun a b => Qle_bool b a) pcts) in
  match top with
  | [] => None
  | _ :: _ => Some (Qsum top / inject_Z (Z.of_nat (length top)))%Q
  end.

Definition max_beta (df : list IndRow) : list DayRow :=
  map (fun r =>
         let m := strftime_ym (b_Date (i_bar r)) in
         let month_pct :=
           dropna (map i_pct
                     (filter (fun r' => label_eqb (strftime_ym (b_Date (i_bar r'))) m)
                             df)) in
         {| d_Date := b_Date (i_bar r);
            d_Open := b_Open (i_bar r);
            d_Close := b_Close (i_bar r);
            d_pct := i_pct r;
            d_changes := i_changes r;
            d_beta := top_five_avg month_pct |})
      df.

(** ** [resample_stocks_to_month] *)

(** The aggregation ["last"] of a float column: the last value that is not
    NaN. *)
Definition last_valid (col : list cell) : cell :=
  match rev (dropna col) with
  | [] => None
  | x :: _ => Some x
  end.

(** The aggregation of one group: [Date] and [Close] of the last row,
    [Open] of the first row, in row order. *)
Definition agg_month (k : label) (g : list DayRow) : list MonthRow :=
  match g with
  | [] => []
  | r0 :: _ =>
      let rl := last g r0 in
      [ {| m_Date := d_Date rl;
           m_month := k;
           m_Open := d_Open r0;
           m_Close := d_Close rl;
           m_beta := last_valid (map d_beta g);
           m_changes := Qsum (dropna (map d_changes g)) |} ]
  end.

Definition month_date_leb (a b : MonthRow) : bool := date_leb (m_Date a) (m_Date b).

(** [groupby("month").agg(...)], then [set_index("Date").sort_index()]. *)
Definition resample_stocks_to_month (df : list DayRow) : list MonthRow :=
  isort month_date_leb
    (flat_map (fun kg : label * list DayRow => agg_month (fst kg) (snd kg))
              (groupby (fun r => strftime_ym (d_Date r)) df)).

(** ** [get_monthly_index] *)

(** One day of the index frame.  Its column [sma] is computed by
    [tools.sma], which is not part of the sources at hand: the column is
    taken as it is. *)
Record IndexDay : Type := mkIndexDay {
  x_Date : date;
  x_Close : cell;
  x_sma : cell
}.

Record IndexRow : Type := mkIndexRow {
  ix_Date : date;
  ix_month : label;
  ix_Close : cell;
  ix_sma : cell
}.

Definition agg_index (k : label) (g : list IndexDay) : list IndexRow :=
  match g with
  | [] => []
  | r0 :: _ =>
      [ {| ix_Date := x_Date (last g r0);
           ix_month := k;
           ix_Close := last_valid (map x_Close g);
           ix_sma := last_valid (map x_sma g) |} ]
  end.

Definition index_date_leb (a b : IndexRow) : bool := date_leb (ix_Date a) (ix_Date b).

Definition get_monthly_index (sp_500 : list IndexDay) : list IndexRow :=
  isort index_date_leb
    (flat_map (fun kg : label * list IndexDay => agg_index (fst kg) (snd kg))
              (groupby (fun r => strftime_ym (x_Date r)) sp_500)).

(** ** The cross-section tables of [prepare_stocks] *)

(** The data source [yf.download]: the frame of every ticker it answers
    for, in the order of the frame's columns. *)
Definition data_source : Type := list string -> list (string * list RawBar).

(** One row of a table [changes[period]] or [beta]: the columns of the
    monthly index, then one column per ticker.  Tickers are lower case
    keys of the dict [stocks] and are taken to differ from the names of the
    index columns. *)
Record TableRow : Type := mkTableRow {
  t_Date : date;
  t_month : label;
  t_Close : cell;
  t_sma : cell;
  t_cols : list (symbol * cell)
}.

(** The cell that the left merge on [month] puts in the row [m] of the
    column of one ticker: the value of [col] in the ticker's row of that
    month, NaN when the ticker has no such row.  The ticker's frame comes
    out of a [groupby], so it has one row per month at most. *)
Definition merged_cell (col : ScoredRow -> cell) (m : label)
  (df : list ScoredRow) : cell :=
  match find (fun r => label_eqb (s_month r) m) df with
  | Some r => col r
  | None => None
  end.

Definition cross_section (col : ScoredRow -> cell) (stocks : dict (list ScoredRow))
  (m : label) : list (symbol * cell) :=
  map (fun kv : symbol * list ScoredRow => (fst kv, merged_cell col m (snd kv)))
      stocks.

(** The value at the fractional position [(n - 1) * q] of the sorted
    values [xs], by linear interpolation between its two neighbours. *)
Definition interpolate (xs : list Q) (x0 : Q) (q : Q) : Q :=
  let n := length xs in
  let pos := (inject_Z (Z.of_nat (n - 1)) * q)%Q in
  let lo := Z.to_nat (Qfloor pos) in
  let hi := Nat.min (lo + 1) (n - 1) in
  let g := (pos - inject_Z (Qfloor pos))%Q in
  (nth lo xs x0 + (nth hi xs x0 - nth lo xs x0) * g)%Q.

(** [Series.quantile(q)], linear interpolation over the values that are
    not NaN; NaN when there is none. *)
Definition quantile (q : Q) (col : list cell) : cell :=
  let xs := isort Qle_bool (dropna col) in
  match xs with
  | [] => None
  | x0 :: _ => Some (interpolate xs x0 q)
  end.

(** [row.index[row < row.quantile(q)].tolist()]. *)
Definition below_quantile (q : Q) (row : list (symbol * cell)) : list symbol :=
  map fst (filter (fun c => cell_lt (snd c) (quantile q (map snd row))) row).

(** [row.index[row > row.quantile(q)].tolist()]. *)
Definition above_quantile (q : Q) (row : list (symbol * cell)) : list symbol :=
  map fst (filter (fun c => cell_gt (snd c) (quantile q (map snd row))) row).

Section CrossSectionalFilter.
Variable q_low : Q.
Variable q_beta : Q.
Variable stocks : dict (list ScoredRow).

(** [neg_symbols[month]] once the loops over the periods 6 and 9 and over
    the beta table are done.  The months of the tables are the keys of a
    [groupby], so each month is visited once per loop. *)
Definition neg_symbols (m : label) : list symbol :=
  below_quantile q_low (cross_section changes_6 stocks m)
  ++ below_quantile q_low (cross_section changes_9 stocks m)
  ++ above_quantile q_beta (cross_section s_beta stocks m).

(** [changes[12].loc[month, symbol] = np.nan] for every excluded ticker. *)
Definition apply_exclusion (m : label) (row : list (symbol * cell))
  : list (symbol * cell) :=
  map (fun c : symbol * cell =>
         if existsb (String.eqb (fst c)) (neg_symbols m)
         then (fst c, None) else c)
      row.

(** The table [changes[12]] that [prepare_stocks] returns. *)
Definition filtered_table (index : list IndexRow) : list TableRow :=
  map (fun ir =>
         {| t_Date := ix_Date ir;
            t_month := ix_month ir;
            t_Close := ix_Close ir;
            t_sma := ix_sma ir;
            t_cols := apply_exclusion (ix_month ir)
                        (cross_section changes_12 stocks (ix_month ir)) |})
      index.
End CrossSectionalFilter.

(** ** [get_top_stocks] *)

Definition MAX_STOCKS : nat := 10.
Definition QUANTILE_LOW_MOMENTUM : Q := 15 # 100.

(** The one-column frame [row.dropna().to_frame()]: a label of the row is
    in its index when its cell is not NaN. *)
Record RowFrame : Type := mkRowFrame {
  f_month : option label;
  f_Close : option Q;
  f_sma : option Q;
  f_symbols : list (symbol * Q)
}.

Fixpoint dropna_cols (cols : list (symbol * cell)) : list (symbol * Q) :=
  match cols with
  | [] => []
  | (s, Some v) :: rest => (s, v) :: dropna_cols rest
  | (_, None) :: rest => dropna_cols rest
  end.

Definition dropna_row (r : TableRow) : RowFrame :=
  {| f_month := Some (t_month r);
     f_Close := t_Close r;
     f_sma := t_sma r;
     f_symbols := dropna_cols (t_cols r) |}.

Definition score_leb (a b : symbol * Q) : bool := Qle_bool (snd a) (snd b).

(** [df[df.beta > 0].sort_values("beta").tail(MAX_STOCKS)]. *)
Definition top_rows (cols : list (symbol * Q)) : list (symbol * Q) :=
  tail MAX_STOCKS (isort score_leb (filter (fun c => Qltb 0 (snd c)) cols)).

(** [df.drop(["month", "Close", "sma"])] raises [KeyError] when one of the
    three labels is not in the index. *)
Definition get_top_stocks (df : RowFrame) : result (list symbol) :=
  match f_month df, f_Close df, f_sma df with
  | Some _, Some _, Some _ => Ok (map fst (top_rows (f_symbols df)))
  | _, _, _ => Raise KeyError
  end.

(** ** The historical index membership *)

Record Snapshot : Type := mkSnapshot {
  snap_date : date;
  tickers : list string
}.

(** The attribute [df] of the class [SP_500_stocks]: [None] when the file
    was not there. *)
Definition SP_500_stocks : Type := option (list Snapshot).

(** [__init__], given the rows of the file when it exists.  The dates of
    the file are ISO strings, compared as strings, which is the order of
    the dates. *)
Definition sp_init (file : option (list Snapshot)) : SP_500_stocks :=
  option_map
    (fun rows =>
       map (fun s => mkSnapshot (snap_date s) (isort String.leb (tickers s)))
           (filter (fun s => date_leb (mkDate 2000 1 1) (snap_date s)) rows))
    file.

(** [get_symbols(year, month)], with [day = 1]: Python's [None] when no file
    was loaded, else the tickers of the last row dated on or before the
    first of the month; [values[0]] of an empty selection raises. *)
Definition get_symbols (self : SP_500_stocks) (y m : nat)
  : result (option (list string)) :=
  match self with
  | None => Ok None
  | Some df =>
      match rev (filter (fun s => date_leb (snap_date s) (mkDate y m 1)) df) with
      | [] => Raise IndexError
      | s :: _ => Ok (Some (tickers s))
      end
  end.

Fixpoint dedup (l : list string) : list string :=
  match l with
  | [] => []
  | x :: rest => if existsb (String.eqb x) rest then dedup rest else x :: dedup rest
  end.

(** [all_symbols]: [self.df.tickers] on [None] raises [AttributeError]. *)
Definition all_symbols (self : SP_500_stocks) : result (list string) :=
  match self with
  | None => Raise AttributeError
  | Some df => Ok (isort String.leb (dedup (concat (map tickers df))))
  end.

(** ** Helpers of the two mains *)

Fixpoint map_result {A B : Type} (f : A -> result B) (l : list A) : result (list B) :=
  match l with
  | [] => Ok []
  | x :: rest => y <- f x ;; ys <- map_result f rest ;; Ok (y :: ys)
  end.

(** [df.iloc[-k]] for [k >= 1]. *)
Definition iloc_neg {A : Type} (k : nat) (df : list A) : result A :=
  match nth_error (rev df) (k - 1) with
  | Some r => Ok r
  | None => Raise IndexError
  end.

(** [Series.astype(int)] at one float: truncation towards zero. *)
Definition Qtrunc (x : Q) : Z := Z.quot (Qnum x) (Zpos (Qden x)).

(** A python [set] of tickers, as a list without repetition. *)
Definition set_of (l : list symbol) : list symbol := dedup l.

(** [Series.unique()]: the values in the order of their first occurrence. *)
Fixpoint unique (seen l : list symbol) : list symbol :=
  match l with
  | [] => []
  | x :: rest =>
      if existsb (String.eqb x) seen then unique seen rest
      else x :: unique (x :: seen) rest
  end.

Definition set_diff (a b : list symbol) : list symbol :=
  filter (fun s => negb (existsb (String.eqb s) b)) a.

Definition set_inter (a b : list symbol) : list symbol :=
  filter (fun s => existsb (String.eqb s) b) a.

Definition is_none {A : Type} (o : option A) : bool :=
  match o with
  | None => true
  | Some _ => false
  end.

(** ** [backtest.py] *)

Module Backtest.

Definition QUANTILE_HIGH_BETA : Q := 85 # 100.

(** One entry of the list [portfolio] of the selection loop. *)
Record Pick : Type := mkPick {
  pk_month : label;
  pk_symbol : symbol
}.

(** One row of the frame [portfolio] after the loop over [iterrows]:
    the five columns of the [try] block are NaN in a row whose lookup
    failed. *)
Record Position : Type := mkPosition {
  p_month : label;
  p_symbol : symbol;
  p_start : option date;
  p_end : option date;
  p_buy : cell;
  p_sell : cell;
  p_pct : cell
}.

(** One row of [df_month]. *)
Record MonthBars : Type := mkMonthBars {
  mb_month : label;
  mb_End : date;
  mb_Start : date;
  mb_Open : Q;
  mb_Close : Q
}.

(** One row of [portfolio] with its columns [invest] and [profit]. *)
Record Trade : Type := mkTrade {
  tr_month : label;
  tr_symbol : symbol;
  tr_buy : Q;
  tr_sell : Q;
  tr_shares : Z;
  tr_invest : Q;
  tr_profit : Q
}.

(** One row of [monthly]. *)
Record Monthly : Type := mkMonthly {
  mo_month : label;
  mo_Positions : nat;
  mo_Invest : Q;
  mo_Profit : Q;
  mo_earning : cell
}.

Definition agg_bars (k : label) (g : list Bar) : list MonthBars :=
  match g with
  | [] => []
  | r0 :: _ =>
      let rl := last g r0 in
      [ {| mb_month := k;
           mb_End := b_Date rl;
           mb_Start := b_Date r0;
           mb_Open := b_Open r0;
           mb_Close := b_Close rl |} ]
  end.

(** [df.groupby("month").agg(...)] with the label [%Y-%m]. *)
Definition bars_by_month (df : list Bar) : list MonthBars :=
  flat_map (fun kg : label * list Bar => agg_bars (fst kg) (snd kg))
           (groupby (fun b => strftime_Ym (b_Date b)) df).

(** [(10_000 / buy).astype(int)]: a NaN or an infinite quotient cannot be
    cast. *)
Definition shares (buy : cell) : result Z :=
  match buy with
  | None => Raise IntCastingNaNError
  | Some b =>
      if Qeq_bool b 0 then Raise IntCastingNaNError
      else Ok (Qtrunc (10000 / b))
  end.

Definition nan_position (p : Pick) : Position :=
  mkPosition (pk_month p) (pk_symbol p) None None None None None.

(** The body of the loop over [portfolio.iterrows()]: [stocks[symbol]] is
    outside the [try]; inside it, the first lookup
    [df_month.loc[position.month]] either fails, and nothing is
    assigned, or every assignment is done. *)
Definition fill_position (stocks : dict (list Bar)) (p : Pick) : result Position :=
  match dict_get (pk_symbol p) stocks with
  | None => Raise KeyError
  | Some df =>
      match find (fun mb => label_eqb (mb_month mb) (pk_month p)) (bars_by_month df) with
      | Some mb =>
          Ok (mkPosition (pk_month p) (pk_symbol p)
                (Some (mb_Start mb)) (Some (mb_End mb))
                (Some (mb_Open mb)) (Some (mb_Close mb))
                (option_map (fun q => round_half_even 1 ((q - 1) * 100)%Q)
                            (quot (mb_Close mb) (mb_Open mb))))
      | None => Ok (nan_position p)
      end
  end.

(** The columns [invest] and [profit] at one row: the cast of the share
    count, times [buy] and times [sell].  The loop above fills [buy] and
    [sell] together. *)
Definition size_position (p : Position) : result Trade :=
  n <- shares (p_buy p) ;;
  match p_buy p, p_sell p with
  | Some b, Some s =>
      Ok (mkTrade (p_month p) (p_symbol p) b s n
            (inject_Z n * b)%Q (inject_Z n * s)%Q)
  | _, _ => Raise IntCastingNaNError
  end.

(** The two column assignments after the loop.  [portfolio["buy"]] raises
    [KeyError] when no row was ever filled, again in the handler that
    prints it.  The cast raises on a NaN in [buy]: the assignment of
    [invest] is inside a [try], the same cast in the assignment of
    [profit] is not. *)
Definition size_positions (ps : list Position) : result (list Trade) :=
  if forallb (fun p => is_none (p_buy p)) ps then Raise KeyError
  else map_result size_position ps.

Definition agg_trades (k : label) (g : list Trade) : Monthly :=
  let invest := Qsum (map tr_invest g) in
  let profit := Qsum (map tr_profit g) in
  {| mo_month := k;
     mo_Positions := length g;
     mo_Invest := invest;
     mo_Profit := profit;
     mo_earning :=
       option_map (fun q => round_half_even 1 (q * 100)%Q)
                  (quot (profit - invest) invest) |}.

Definition monthly (trades : list Trade) : list Monthly :=
  map (fun kg : label * list Trade => agg_trades (fst kg) (snd kg))
      (groupby tr_month trades).

Definition null_row (r : ScoredRow) : ScoredRow :=
  {| s_Date := s_Date r;
     s_month := s_month r;
     s_Open := s_Open r;
     s_Close := s_Close r;
     s_beta := None;
     s_changes := s_changes r;
     s_roc := s_roc r;
     changes_3 := None;
     changes_6 := None;
     changes_9 := None;
     changes_12 := None |}.

(** [df.loc[df.month == m, c] = np.nan] for [beta] and the four scores. *)
Definition null_month (m : label) (df : list ScoredRow) : list ScoredRow :=
  map (fun r => if label_eqb (s_month r) m then null_row r else r) df.

(** [sp_500_stocks[d:]] on the date index. *)
Definition slice_from (d : date) (tbl : list TableRow) : list TableRow :=
  filter (fun r => date_leb d (t_Date r)) tbl.

(** [sp_500_stocks.month.max()], the greatest label as a string. *)
Definition month_max (tbl : list TableRow) : label :=
  fold_right (fun r acc => if label_leb acc (t_month r) then t_month r else acc)
             (0, 0) tbl.

(** The selection of one month in the loop of the main. *)
Definition select_month (mx : label) (r : TableRow) : result (list symbol) :=
  if cell_gt (t_Close r) (t_sma r) && negb (label_eqb (t_month r) mx)
  then get_top_stocks (dropna_row r)
  else Ok [].

Definition build_portfolio (tbl : list TableRow) : result (list Pick) :=
  for_each tbl
    (fun r acc =>
       top <- select_month (month_max tbl) r ;;
       Ok (acc ++ map (mkPick (strftime_Ym (add_days 10 (t_Date r)))) top))
    [].

Section Run.
Variable roc : list Q -> nat -> list cell.
Variable yf_download : data_source.
Variable sp_500_stocks : SP_500_stocks.

Definition get_stocks (symbols : list string) : dict (list Bar) :=
  dict_discard "googl"%string (collect_stocks (yf_download symbols) []).

(** The first loop of [prepare_stocks], for one ticker. *)
Definition features (df : list Bar) : list ScoredRow :=
  momentum roc true (resample_stocks_to_month (max_beta (add_indicators true df))).

(** The body of the loop over [index.index]: the tickers outside the
    month's membership lose their values of that month. *)
Definition restrict_month (index_date : date) (stocks : dict (list ScoredRow))
  : result (dict (list ScoredRow)) :=
  monthly_stocks <- get_symbols sp_500_stocks (year index_date) (mon index_date) ;;
  match monthly_stocks with
  | None => Raise TypeError
  | Some l =>
      let members := map lower l in
      Ok (map (fun kv : symbol * list ScoredRow =>
                 if existsb (String.eqb (fst kv)) members then kv
                 else (fst kv, null_month (strftime_ym index_date) (snd kv)))
              stocks)
  end.

Definition universe_restrictor (index : list IndexRow)
  (stocks : dict (list ScoredRow)) : result (dict (list ScoredRow)) :=
  for_each (map ix_Date index) restrict_month stocks.

Definition scored_stocks (symbols : list string) : dict (list ScoredRow) :=
  map (fun kv : symbol * list Bar => (fst kv, features (snd kv)))
      (get_stocks symbols).

Definition prepare_stocks (index : list IndexRow) : result (list TableRow) :=
  symbols <- all_symbols sp_500_stocks ;;
  stocks <- universe_restrictor index (scored_stocks symbols) ;;
  Ok (filtered_table QUANTILE_LOW_MOMENTUM QUANTILE_HIGH_BETA stocks index).

(** The simulation of the main, from the frame [portfolio] on:
    [portfolio.symbol] on a frame without rows raises. *)
Definition simulate (portfolio : list Pick) : result (list Trade * list Monthly) :=
  match portfolio with
  | [] => Raise AttributeError
  | _ :: _ =>
      let stocks := get_stocks (unique [] (map pk_symbol portfolio)) in
      positions <- map_result (fill_position stocks) portfolio ;;
      trades <- size_positions positions ;;
      Ok (trades, monthly trades)
  end.

Definition main (sp_500 : list IndexDay) : result (list Trade * list Monthly) :=
  tbl <- prepare_stocks (get_monthly_index sp_500) ;;
  portfolio <- build_portfolio (slice_from (mkDate 2016 12 1) tbl) ;;
  simulate portfolio.
End Run.

End Backtest.

(** ** [screener.py] *)

Module Screener.

Definition QUANTILE_HIGH_BETA : Q := 9 # 10.

Record Changes : Type := mkChanges {
  unchanged_stocks : list symbol;
  removed_stocks : list symbol;
  added_stocks : list symbol
}.

Section Run.
Variable roc : list Q -> nat -> list cell.
Variable yf_download : data_source.
(** The answer of [sp_500_list], read from a web page. *)
Variable sp_500_list : list string.

Definition get_stocks (symbols : list string) : dict (list Bar) :=
  collect_stocks (yf_download symbols) [].

Definition features (df : list Bar) : list ScoredRow :=
  momentum roc false (resample_stocks_to_month (max_beta (add_indicators false df))).

Definition scored_stocks : dict (list ScoredRow) :=
  map (fun kv : symbol * list Bar => (fst kv, features (snd kv)))
      (get_stocks sp_500_list).

Definition prepare_stocks (index : list IndexRow) : list TableRow :=
  filtered_table QUANTILE_LOW_MOMENTUM QUANTILE_HIGH_BETA scored_stocks index.

(** The main: [None] when the index is not above its average and no
    file is written. *)
Definition main (sp_500_daily : list IndexDay) : result (option Changes) :=
  let sp_500 := get_monthly_index sp_500_daily in
  let sp_500_stocks := prepare_stocks sp_500 in
  last_row <- iloc_neg 1 sp_500 ;;
  if cell_gt (ix_Close last_row) (ix_sma last_row) then
    r2 <- iloc_neg 2 sp_500_stocks ;;
    current_month <- get_top_stocks (dropna_row r2) ;;
    r1 <- iloc_neg 1 sp_500_stocks ;;
    next_month <- get_top_stocks (dropna_row r1) ;;
    Ok (Some {| unchanged_stocks := set_inter (set_of current_month) next_month;
                removed_stocks := set_diff (set_of current_month) (set_of next_month);
                added_stocks := set_diff (set_of next_month) (set_of current_month) |})
  else Ok None.
End Run.

End Screener.

(** ** The aligned columns of the scorer, in the words of the specification *)

(** The trailing [h]-month direction count attached to row [i]: the sum of
    the monthly net directions of the [h] rows ending at row [i + 1]; no
    value at the last row, nor while fewer than [h] rows are there. *)
Definition dircount (h : nat) (df : list MonthRow) (i : nat) : cell :=
  if (i + 1 <? length df) && (h <=? i + 2)
  then Some (Qsum (firstn h (skipn (i + 2 - h) (map m_changes df))))
  else None.

(** Both values are defined and strictly positive. *)
Definition both_positive (x c : cell) : Prop :=
  exists xv cv, x = Some xv /\ c = Some cv /\ (0 < xv)%Q /\ (0 < cv)%Q.

(** The roc of horizon [h] as row [i] sees it, for the column
    [roc(Close, h)] of the monthly series.  The backtest attaches it one
    month earlier, as it does the direction count: row [i] has the value of
    row [i + 1], and the last row has none.  The screener leaves it where it
    is: row [i] has its own value. *)
Definition aligned_roc (roc : list Q -> nat -> list cell) (backtest : bool)
  (h : nat) (df : list MonthRow) (i : nat) : cell :=
  nth (if backtest then i + 1 else i) (roc (map m_Close df) h) None.

(** The monthly series of a ticker, as the scorer of each file receives
    it. *)
Definition monthly_series (backtest : bool) (bars : list Bar) : list MonthRow :=
  resample_stocks_to_month (max_beta (add_indicators backtest bars)).

(** ** Fixtures *)

Definition mrow (y m : nat) (close chg : Q) : MonthRow :=
  mkMonthRow (mkDate y m 28) (y mod 100, m) close close None chg.

(** Five months of one ticker: rising closes, net direction +2 a month. *)
Definition five_months : list MonthRow :=
  [ mrow 2023 1 100 2; mrow 2023 2 110 2; mrow 2023 3 120 2;
    mrow 2023 4 130 2; mrow 2023 5 140 2 ]%Q.

(** ** The selector, in the words of the specification *)

(** The tickers of a row with a defined, strictly positive score. *)
Definition eligible (r : TableRow) : list (symbol * Q) :=
  filter (fun c => Qltb 0 (snd c)) (dropna_cols (t_cols r)).

(** The regime gate: the index close is strictly above its average. *)
Definition above_average (r : TableRow) : Prop :=
  exists c s, t_Close r = Some c /\ t_sma r = Some s /\ (s < c)%Q.

Definition trow (y m : nat) (close sma : cell) (cols : list (symbol * cell)) : TableRow :=
  mkTableRow (mkDate y m 28) (y mod 100, m) close sma cols.

(** A month with twelve tickers, one of them without a score and one with
    a negative score. *)
Definition twelve_tickers : TableRow :=
  trow 2020 3 (Some 3000%Q) (Some 2900%Q)
    [ ("aaa", Some 1); ("bbb", Some 12); ("ccc", None); ("ddd", Some 3);
      ("eee", Some (-2)); ("fff", Some 5); ("ggg", Some 6); ("hhh", Some 7);
      ("iii", Some 8); ("jjj", Some 9); ("kkk", Some 10); ("lll", Some 11);
      ("mmm", Some 2); ("nnn", Some 4) ]%Q%string.

(** ** Fixtures: a small market *)

(** The [k]-th month counted from January 2023. *)
Definition nth_month (k : nat) : nat * nat := (2023 + k / 12, k mod 12 + 1).

Definition raw_bar (k : nat) (px : Q) : RawBar :=
  mkRawBar (mkDate (fst (nth_month k)) (snd (nth_month k)) 28)
           (Some px) (Some (px + 1)%Q) (Some (px - 1)%Q) (Some px) (Some 1000%Q).

(** One bar a month for [n] months from month [from], the close rising by
    10 a month. *)
Definition rising (from n : nat) : list RawBar :=
  map (fun k => raw_bar k (inject_Z (Z.of_nat (100 + 10 * k)))) (seq from n).

(** The index, one day a month, above its average. *)
Definition index_days (n : nat) : list IndexDay :=
  map (fun k => mkIndexDay (mkDate (fst (nth_month k)) (snd (nth_month k)) 28)
                           (Some 4000%Q) (Some 3900%Q))
      (seq 0 n).

(** A data source that answers for GOOGL and AAA, whatever is asked. *)
Definition googl_source : data_source :=
  fun _ => [ ("GOOGL"%string, rising 0 3); ("AAA"%string, rising 0 3) ].

Definition googl_members : SP_500_stocks :=
  sp_init (Some [ mkSnapshot (mkDate 2020 1 1) [ "GOOGL"; "AAA" ]%string ]).

(** ** The universe restrictor, in the words of the specification *)

(** The ticker is not in the membership as of the month of [index_date]. *)
Definition not_member (sp : SP_500_stocks) (index_date : date) (sym : symbol) : Prop :=
  exists l, get_symbols sp (year index_date) (mon index_date) = Ok (Some l)
            /\ ~ In sym (map lower l).

(** The month [m] is a month of the index in which the ticker is not a
    member. *)
Definition restricted (sp : SP_500_stocks) (index : list IndexRow)
  (sym : symbol) (m : label) : Prop :=
  exists ir, In ir index /\ strftime_ym (ix_Date ir) = m
             /\ not_member sp (ix_Date ir) sym.

(** [r'] is [r] with its beta and its four scores undefined. *)
Definition nulled (r r' : ScoredRow) : Prop :=
  s_beta r' = None
  /\ (forall h, changes_ h r' = None)
  /\ s_Date r' = s_Date r /\ s_month r' = s_month r
  /\ s_Open r' = s_Open r /\ s_Close r' = s_Close r
  /\ s_changes r' = s_changes r /\ s_roc r' = s_roc r.

Definition memberb (sp : SP_500_stocks) (index_date : date) (sym : symbol) : bool :=
  match get_symbols sp (year index_date) (mon index_date) with
  | Ok (Some l) => existsb (String.eqb sym) (map lower l)
  | _ => false
  end.

Definition restrictedb (sp : SP_500_stocks) (dates : list date)
  (sym : symbol) (m : label) : bool :=
  existsb (fun dt => label_eqb (strftime_ym dt) m && negb (memberb sp dt sym)) dates.

(** A data source that answers for AAA and BBB, five months each. *)
Definition two_tickers : data_source :=
  fun _ => [ ("AAA"%string, rising 0 5); ("BBB"%string, rising 0 5) ].

(** BBB leaves the index for March 2023 and is back in April. *)
Definition bbb_leaves : SP_500_stocks :=
  sp_init (Some [ mkSnapshot (mkDate 2022 12 1) [ "AAA"; "BBB" ]%string;
                  mkSnapshot (mkDate 2023 3 1) [ "AAA" ]%string;
                  mkSnapshot (mkDate 2023 4 1) [ "BBB"; "AAA" ]%string ]).

(** ** The resampler, in the words of the specification *)

Definition day_label (x : DayRow) : label := strftime_ym (d_Date x).

(** [x] is the chronologically first (last) trading day of its month. *)
Definition earliest_in_month (df : list DayRow) (x : DayRow) : Prop :=
  In x df
  /\ forall y, In y df -> day_label y = day_label x ->
               date_leb (d_Date x) (d_Date y) = true.

Definition latest_in_month (df : list DayRow) (x : DayRow) : Prop :=
  In x df
  /\ forall y, In y df -> day_label y = day_label x ->
               date_leb (d_Date y) (d_Date x) = true.

(** The rows are in chronological order, one row per date. *)
Definition chronological (df : list DayRow) : Prop :=
  StronglySorted (fun a b => date_ltb (d_Date a) (d_Date b) = true) df.

(** Every month of the input has a monthly row, and a monthly row opens at
    the open of the first trading day of its month and closes at the close
    of the last one. *)
Definition opens_first_closes_last (df : list DayRow) : Prop :=
  (forall x, In x df ->
     exists r, In r (resample_stocks_to_month df) /\ m_month r = day_label x)
  /\ forall r x,
       In r (resample_stocks_to_month df) -> day_label x = m_month r ->
       (earliest_in_month df x -> m_Open r = d_Open x)
       /\ (latest_in_month df x -> m_Close r = d_Close x).

Definition day_row (y m dd : nat) (o c : Q) : DayRow :=
  mkDayRow (mkDate y m dd) o c None None None.

(** Three days of January 2024 and one of February, in date order, and the
    same rows with the first two days of January exchanged. *)
Definition sorted_days : list DayRow :=
  [ day_row 2024 1 2 10 11; day_row 2024 1 15 20 21;
    day_row 2024 1 31 30 31; day_row 2024 2 1 40 41 ]%Q.

Definition unsorted_days : list DayRow :=
  [ day_row 2024 1 15 20 21; day_row 2024 1 2 10 11;
    day_row 2024 1 31 30 31; day_row 2024 2 1 40 41 ]%Q.

(** ** The low-momentum rule, in the words of the specification *)

(** The reading "at or below the threshold" of the exclusion rule, for one
    row of scores and the set [excl] of excluded tickers. *)
Definition excluded_at_or_below (q : Q) (row : list (symbol * cell))
  (excl : list symbol) : Prop :=
  forall s v thr,
    In (s, Some v) row -> quantile q (map snd row) = Some thr ->
    (In s excl <-> (v <= thr)%Q).

(** A data source that answers for AAA and BBB, eight months each, with
    the same prices. *)
Definition twins : data_source :=
  fun _ => [ ("AAA"%string, rising 0 8); ("BBB"%string, rising 0 8) ].

(** Five scores, all different. *)
Definition five_scores : list (symbol * cell) :=
  [ ("aaa", Some 4); ("bbb", Some 0); ("ccc", None); ("ddd", Some 1);
    ("eee", Some 3); ("fff", Some 2) ]%Q%string.

(** ** Fixtures: a month without bars *)

(** AAA trades every month; BBB has no bar in February 2024 (month 13). *)
Definition halted_source : data_source :=
  fun _ => [ ("AAA"%string, rising 0 16);
             ("BBB"%string, rising 0 13 ++ rising 14 2) ].

Definition both_members : SP_500_stocks :=
  sp_init (Some [ mkSnapshot (mkDate 2020 1 1) [ "AAA"; "BBB" ]%string ]).

(** ** Fixtures of the screener *)

(** AAA has bars for fourteen months; the index has them too ([index_days
    14]) or stops one month earlier ([index_days 13]). *)
Definition aaa_source : data_source :=
  fun _ => [ ("AAA"%string, rising 0 14) ].

(** AAA is listed from March 2023 (month 2) and has twelve months of bars,
    the last in February 2024 (month 13). *)
Definition late_source : data_source :=
  fun _ => [ ("AAA"%string, rising 2 12) ].

(** ** The calendars of the index and of the tickers *)

(** No ticker has a monthly row after the latest month of the index: the
    row of a ticker that carries the label of the index's last row, if
    there is one, is the ticker's last row. *)
Definition aligned (index : list IndexRow) (stocks : dict (list ScoredRow)) : Prop :=
  forall ir sym df j r,
    iloc_neg 1 index = Ok ir -> In (sym, df) stocks ->
    nth_error df j = Some r -> s_month r = ix_month ir ->
    S j = length df.

(** [aligned], as a test. *)
Definition alignedb (index : list IndexRow) (stocks : dict (list ScoredRow)) : bool :=
  match iloc_neg 1 index with
  | Raise _ => true
  | Ok ir =>
      forallb (fun kv : symbol * list ScoredRow =>
                 forallb (fun m => negb (label_eqb m (ix_month ir)))
                         (firstn (length (snd kv) - 1) (map s_month (snd kv))))
              stocks
  end.

(** ** Fixtures of the price loader *)

(** A bar whose high equals its low, and a bar with a missing close. *)
Definition stale_bar (k : nat) : RawBar :=
  mkRawBar (mkDate (fst (nth_month k)) (snd (nth_month k)) 28)
           (Some 5%Q) (Some 5%Q) (Some 5%Q) (Some 5%Q) (Some 0%Q).

Definition gap_bar (k : nat) : RawBar :=
  mkRawBar (mkDate (fst (nth_month k)) (snd (nth_month k)) 28)
           (Some 5%Q) (Some 6%Q) (Some 4%Q) None (Some 10%Q).

(** The source answers for a ticker with good bars, one with stale bars
    only, and the same ticker in two spellings. *)
Definition mixed_source : data_source :=
  fun _ => [ ("AAA"%string, stale_bar 0 :: rising 1 2);
             ("ZZZ"%string, [ stale_bar 0; gap_bar 1 ]);
             ("Brk-B"%string, rising 0 1);
             ("BRK-B"%string, rising 0 2) ].


(** ** The daily features, in the words of the code *)

(** The percent changes of the rows of the month [m] that are not NaN. *)
Definition month_pcts (df : list IndRow) (m : label) : list Q :=
  dropna (map i_pct
            (filter (fun r => label_eqb (strftime_ym (b_Date (i_bar r))) m) df)).

(** ** The calendar, in the words of the code *)

(** A date of the calendar. *)
Definition valid_date (dt : date) : Prop :=
  1 <= mon dt /\ mon dt <= 12
  /\ 1 <= day dt /\ day dt <= days_in_month (year dt) (mon dt).

(** The month after the month of [dt], as a [%Y-%m] label. *)
Definition next_month (dt : date) : label :=
  if mon dt <? 12 then (year dt, S (mon dt)) else (S (year dt), 1).

(** An index, one day a month, that stays below its average. *)
Definition bear_days (n : nat) : list IndexDay :=
  map (fun k => mkIndexDay (mkDate (fst (nth_month k)) (snd (nth_month k)) 28)
                           (Some 3000%Q) (Some 3100%Q))
      (seq 0 n).

(** ** The membership file, in the words of the code *)



(** ** Fixtures of the daily features *)

(** Three days of one ticker: the close falls by 0.4 percent, then rises
    by 0.9 percent. *)
Definition quiet_days : list Bar :=
  [ mkBar (mkDate 2023 1 2) 200 201 199 200 1000;
    mkBar (mkDate 2023 1 3) 200 201 199 (1992 # 10) 1000;
    mkBar (mkDate 2023 1 4) 199 202 198 (201) 1000 ]%Q.

(** ** Fixtures of the selection loop *)

(** Three months around the turn of a year, the latest in the middle. *)
Definition turn_of_year : list TableRow :=
  [ trow 2023 11 (Some 4000%Q) (Some 3900%Q) [];
    trow 2024 1 (Some 4000%Q) (Some 3900%Q) [];
    trow 2023 12 (Some 4000%Q) (Some 3900%Q) [] ].

(* ================================================================== *)
(** * Part II.  Properties                                              *)
(* ================================================================== *)

(** ** Lists *)

Lemma nth_error_imap (A B : Type) (f : nat -> A -> B) (l : list A) (k i : nat) :
  nth_error (imap f k l) i = option_map (f (k + i)) (nth_error l i).
Proof.
  revert k i. induction l as [|x l IH]; intros k i.
  - destruct i; reflexivity.
  - destruct i; simpl.
    + now rewrite Nat.add_0_r.
    + rewrite IH. now rewrite Nat.add_succ_r.
Qed.

Lemma nth_map_seq (B : Type) (f : nat -> B) (n i : nat) (dflt : B) :
  i < n -> nth i (map f (seq 0 n)) dflt = f i.
Proof.
  intro H.
  rewrite (nth_indep _ dflt (f 0)) by (now rewrite length_map, length_seq).
  rewrite map_nth. now rewrite seq_nth.
Qed.

Lemma length_shift_m1 (col : list cell) : length (shift_m1 col) = length col.
Proof.
  destruct col as [|c col]; simpl; [reflexivity|].
  rewrite length_app. simpl. lia.
Qed.

Lemma nth_shift_m1 (col : list cell) (i : nat) :
  nth i (shift_m1 col) None = if S i <? length col then nth (S i) col None else None.
Proof.
  destruct col as [|c col]; simpl.
  - now destruct i.
  - destruct (Nat.ltb_spec (S i) (S (length col))) as [H|H].
    + rewrite app_nth1 by lia. reflexivity.
    + destruct (Nat.eq_dec i (length col)) as [->|Hne].
      * rewrite app_nth2 by lia. now rewrite Nat.sub_diag.
      * apply nth_overflow. rewrite length_app. simpl. lia.
Qed.

Lemma length_rolling_sum (n : nat) (xs : list Q) :
  length (rolling_sum n xs) = length xs.
Proof. unfold rolling_sum. now rewrite length_map, length_seq. Qed.

(** ** The scorer *)

Lemma rolling_col_nth (h : nat) (df : list MonthRow) (i : nat) :
  nth i (rolling_col h df) None = dircount h df i.
Proof.
  unfold rolling_col, dircount.
  rewrite nth_shift_m1, length_rolling_sum, length_map.
  replace (S i) with (i + 1) by lia.
  destruct (Nat.ltb_spec (i + 1) (length df)) as [Hlt|Hge]; simpl; [|reflexivity].
  unfold rolling_sum. rewrite nth_map_seq by (now rewrite length_map).
  replace (i + 1 + 1) with (i + 2) by lia.
  replace (i + 1 + 1 - h) with (i + 2 - h) by lia.
  reflexivity.
Qed.

Lemma momentum_nth (roc : list Q -> nat -> list cell) (shift_roc : bool)
  (df : list MonthRow) (i : nat) (r : ScoredRow) (h : nat) :
  In h [3; 6; 9; 12] ->
  nth_error (momentum roc shift_roc df) i = Some r ->
  i < length df /\
  changes_ h r = np_where_score (nth i (roc_col roc shift_roc h df) None)
                                (nth i (rolling_col h df) None).
Proof.
  intros Hh Hr. unfold momentum in Hr. rewrite nth_error_imap in Hr.
  destruct (nth_error df i) as [m|] eqn:Hm; [|discriminate].
  assert (Hi : i < length df) by (apply nth_error_Some; congruence).
  split; [exact Hi|].
  simpl in Hr. injection Hr as <-.
  unfold score_col.
  simpl in Hh.
  destruct Hh as [<-|[<-|[<-|[<-|[]]]]]; simpl; now rewrite nth_map_seq.
Qed.

Lemma np_where_positive (x c : cell) (xv cv : Q) :
  x = Some xv -> c = Some cv -> (0 < xv)%Q -> (0 < cv)%Q ->
  np_where_score x c = Some (cv + xv / 1000)%Q.
Proof.
  intros -> -> Hx Hc. unfold np_where_score, cell_gt, Qltb.
  assert (Qle_bool xv 0 = false) as ->.
  { apply not_true_iff_false. rewrite Qle_bool_iff. now apply Qlt_not_le. }
  assert (Qle_bool cv 0 = false) as ->.
  { apply not_true_iff_false. rewrite Qle_bool_iff. now apply Qlt_not_le. }
  reflexivity.
Qed.

Lemma np_where_otherwise (x c : cell) :
  ~ both_positive x c -> np_where_score x c = c.
Proof.
  intro H. unfold np_where_score.
  destruct (cell_gt x (Some 0%Q) && cell_gt c (Some 0%Q)) eqn:E; [|reflexivity].
  exfalso. apply H.
  apply andb_true_iff in E. destruct E as [Ex Ec].
  destruct x as [xv|]; [|discriminate]. destruct c as [cv|]; [|discriminate].
  exists xv, cv. unfold cell_gt, Qltb in Ex, Ec.
  apply negb_true_iff in Ex, Ec.
  repeat split.
  - apply Qnot_le_lt. intro Hle. apply Qle_bool_iff in Hle. congruence.
  - apply Qnot_le_lt. intro Hle. apply Qle_bool_iff in Hle. congruence.
Qed.

Lemma roc_col_nth (roc : list Q -> nat -> list cell) (shift_roc : bool)
  (h : nat) (df : list MonthRow) (i : nat) :
  nth i (roc_col roc shift_roc h df) None = aligned_roc roc shift_roc h df i.
Proof.
  unfold roc_col, aligned_roc. destruct shift_roc; [|reflexivity].
  rewrite nth_shift_m1. replace (i + 1) with (S i) by lia.
  destruct (Nat.ltb_spec (S i) (length (roc (map m_Close df) h))) as [H|H];
    [reflexivity|].
  symmetry. now apply nth_overflow.
Qed.

(** C1. For each horizon [h] of 3, 6, 9, 12 and each row [i] of a ticker's
    monthly series, in either mode ([true] is the backtest, [false] the
    screener): with the roc [roc(Close, h)] aligned as the mode has it (the
    value of the next row in the backtest, the row's own in the screener)
    and the trailing [h]-month direction count [dircount] (the sum of the
    [h] months ending at the next row, in both modes), the score [changes_h]
    is the count plus a thousandth of the roc when both are defined and
    strictly positive; otherwise it is the count alone, and so it is the
    count when either value is undefined.  The scorer of [backtest.py] is
    the first mode on the ticker's monthly series, that of [screener.py]
    the second. *)
Theorem momentum_composite_score
  (roc : list Q -> nat -> list cell) (backtest : bool)
  (df : list MonthRow) (h i : nat) (r : ScoredRow) :
  In h [3; 6; 9; 12] ->
  nth_error (momentum roc backtest df) i = Some r ->
  let x := aligned_roc roc backtest h df i in
  let c := dircount h df i in
  (forall xv cv, x = Some xv -> c = Some cv -> (0 < xv)%Q -> (0 < cv)%Q ->
     changes_ h r = Some (cv + xv / 1000)%Q)
  /\ (~ both_positive x c -> changes_ h r = c)
  /\ (x = None \/ c = None -> changes_ h r = c)
  /\ (forall bars,
        Backtest.features roc bars = momentum roc true (monthly_series true bars))
  /\ (forall bars,
        Screener.features roc bars = momentum roc false (monthly_series false bars)).
Proof.
  intros Hh Hr x c.
  destruct (momentum_nth _ _ _ _ Hh Hr) as [_ Heq].
  rewrite roc_col_nth, rolling_col_nth in Heq. fold x c in Heq.
  split; [|split; [|split; [|split]]].
  - intros xv cv Hx Hc Hxp Hcp. rewrite Heq. now apply np_where_positive.
  - intro Hn. rewrite Heq. now apply np_where_otherwise.
  - intro Hu. rewrite Heq. apply np_where_otherwise.
    intros (xv & cv & Hx & Hc & _). destruct Hu; congruence.
  - reflexivity.
  - reflexivity.
Qed.

Lemma momentum_composite_score_witness :
  In 3 [3; 6; 9; 12]
  /\ (exists r,
        nth_error (momentum roc_spec true five_months) 2 = Some r
        /\ changes_ 3 r = Some (Qsum [2; 2; 2] + (130 / 100 - 1) / 1000)%Q)
  /\ (exists r,
        nth_error (momentum roc_spec false five_months) 2 = Some r
        /\ changes_ 3 r = Some (Qsum [2; 2; 2])%Q)
  /\ (exists r,
        nth_error (momentum roc_spec false five_months) 3 = Some r
        /\ changes_ 3 r = Some (Qsum [2; 2; 2] + (130 / 100 - 1) / 1000)%Q).
Proof.
  assert (Hh : In 3 [3; 6; 9; 12]) by (simpl; auto).
  split; [exact Hh|]. split; [|split].
  - destruct (nth_error (momentum roc_spec true five_months) 2) as [r|] eqn:Hr.
    + exists r. split; [reflexivity|].
      destruct (@momentum_composite_score roc_spec true five_months 3 2 r Hh Hr)
        as (Hpos & _).
      apply Hpos; reflexivity.
    + vm_compute in Hr. discriminate.
  - destruct (nth_error (momentum roc_spec false five_months) 2) as [r|] eqn:Hr.
    + exists r. split; [reflexivity|].
      destruct (@momentum_composite_score roc_spec false five_months 3 2 r Hh Hr)
        as (_ & _ & Hnan & _).
      apply Hnan. left. reflexivity.
    + vm_compute in Hr. discriminate.
  - destruct (nth_error (momentum roc_spec false five_months) 3) as [r|] eqn:Hr.
    + exists r. split; [reflexivity|].
      destruct (@momentum_composite_score roc_spec false five_months 3 3 r Hh Hr)
        as (Hpos & _).
      apply Hpos; reflexivity.
    + vm_compute in Hr. discriminate.
Defined.

(** ** Dicts *)

Lemma in_keys_dict_set (V : Type) (k k' : symbol) (v : V) (dct : dict V) :
  In k' (keys (dict_set k v dct)) <-> k' = k \/ In k' (keys dct).
Proof.
  induction dct as [|[k0 v0] dct IH]; simpl.
  - intuition.
  - destruct (String.eqb_spec k k0) as [->|Hne]; simpl.
    + intuition.
    + unfold keys in IH. rewrite IH. intuition.
Qed.

Lemma NoDup_keys_dict_set (V : Type) (k : symbol) (v : V) (dct : dict V) :
  NoDup (keys dct) -> NoDup (keys (dict_set k v dct)).
Proof.
  induction dct as [|[k0 v0] dct IH]; simpl; intro H.
  - constructor; [intros []|constructor].
  - inversion H as [|? ? Hnin Hnd]; subst.
    destruct (String.eqb_spec k k0) as [->|Hne]; simpl.
    + now constructor.
    + constructor; [|now apply IH].
      intro Hin. apply in_keys_dict_set in Hin. destruct Hin as [->|Hin]; auto.
Qed.

Lemma NoDup_keys_collect_stocks (stock_data : list (string * list RawBar))
  (dfs : dict (list Bar)) :
  NoDup (keys dfs) -> NoDup (keys (collect_stocks stock_data dfs)).
Proof.
  revert dfs. induction stock_data as [|[sym raw] rest IH]; intros dfs H; simpl.
  - exact H.
  - apply IH. destruct (clean_bars raw); [exact H|].
    now apply NoDup_keys_dict_set.
Qed.

Lemma not_in_keys_dict_discard (V : Type) (k : symbol) (dct : dict V) :
  NoDup (keys dct) -> ~ In k (keys (dict_discard k dct)).
Proof.
  induction dct as [|[k0 v0] dct IH]; simpl; intro H.
  - intros [].
  - inversion H as [|? ? Hnin Hnd]; subst.
    destruct (String.eqb_spec k k0) as [->|Hne]; simpl.
    + exact Hnin.
    + intros [Heq|Hin]; [congruence|]. now apply IH.
Qed.

Lemma in_keys_dict_discard (V : Type) (k k' : symbol) (dct : dict V) :
  In k' (keys (dict_discard k dct)) -> In k' (keys dct).
Proof.
  induction dct as [|[k0 v0] dct IH]; simpl; [tauto|].
  destruct (String.eqb k k0); simpl; intuition.
Qed.

Lemma NoDup_keys_dict_discard (V : Type) (k : symbol) (dct : dict V) :
  NoDup (keys dct) -> NoDup (keys (dict_discard k dct)).
Proof.
  induction dct as [|[k0 v0] dct IH]; simpl; intro H; [constructor|].
  inversion H as [|? ? Hnin Hnd]; subst.
  destruct (String.eqb k k0); simpl; [exact Hnd|].
  constructor; [|now apply IH].
  intro Hin. apply Hnin. eapply in_keys_dict_discard. exact Hin.
Qed.

(** ** Sorting *)

Section SortingFacts.
Variable A : Type.
Variable leb : A -> A -> bool.

Lemma insert_perm (x : A) (l : list A) : Permutation (insert leb x l) (x :: l).
Proof.
  induction l as [|y l IH]; simpl; [reflexivity|].
  destruct (leb x y); [reflexivity|].
  rewrite IH. apply perm_swap.
Qed.

Lemma isort_perm (l : list A) : Permutation (isort leb l) l.
Proof.
  induction l as [|x l IH]; simpl; [reflexivity|].
  rewrite insert_perm. now constructor.
Qed.

Lemma isort_In (l : list A) (x : A) : In x (isort leb l) <-> In x l.
Proof.
  split; apply Permutation_in; [|symmetry]; apply isort_perm.
Qed.

Lemma length_isort (l : list A) : length (isort leb l) = length l.
Proof. apply Permutation_length, isort_perm. Qed.

Hypothesis leb_total : forall a b, leb a b = true \/ leb b a = true.
Hypothesis leb_trans : forall a b c, leb a b = true -> leb b c = true -> leb a c = true.

Lemma insert_sorted (x : A) (l : list A) :
  StronglySorted (fun a b => leb a b = true) l ->
  StronglySorted (fun a b => leb a b = true) (insert leb x l).
Proof.
  induction 1 as [|y l Hs IH Hall]; simpl.
  - constructor; constructor.
  - destruct (leb x y) eqn:E.
    + constructor; [now constructor|].
      constructor; [exact E|].
      eapply Forall_impl; [|exact Hall]. intros z Hz. eapply leb_trans; eauto.
    + constructor; [exact IH|].
      apply Forall_forall. intros z Hz.
      apply (Permutation_in _ (insert_perm x l)) in Hz.
      destruct Hz as [<-|Hz].
      * destruct (leb_total x y) as [H'|H']; congruence.
      * rewrite Forall_forall in Hall. now apply Hall.
Qed.

Lemma isort_sorted (l : list A) :
  StronglySorted (fun a b => leb a b = true) (isort leb l).
Proof.
  induction l as [|x l IH]; simpl; [constructor|now apply insert_sorted].
Qed.
End SortingFacts.

Lemma In_skipn (A : Type) (n : nat) (l : list A) (x : A) :
  In x (skipn n l) -> In x l.
Proof.
  intro H. rewrite <- (firstn_skipn n l). apply in_or_app. now right.
Qed.

Lemma StronglySorted_split (A : Type) (R : A -> A -> Prop) (l : list A) (n : nat) :
  StronglySorted R l ->
  forall x y, In x (firstn n l) -> In y (skipn n l) -> R x y.
Proof.
  intro H. revert n. induction H as [|a l Hs IH Hall]; intros n x y Hx Hy.
  - rewrite firstn_nil in Hx. destruct Hx.
  - destruct n; simpl in *; [destruct Hx|].
    destruct Hx as [<-|Hx].
    + rewrite Forall_forall in Hall. apply Hall.
      apply (In_skipn _ _ _ Hy).
    + eapply IH; eauto.
Qed.

(** ** Comparisons *)

Lemma Qltb_spec (x y : Q) : Qltb x y = true <-> (x < y)%Q.
Proof.
  unfold Qltb. rewrite negb_true_iff. split.
  - intro H. apply Qnot_le_lt. intro Hle. apply Qle_bool_iff in Hle. congruence.
  - intro H. apply not_true_iff_false. rewrite Qle_bool_iff. now apply Qlt_not_le.
Qed.

Lemma cell_gt_spec (a b : cell) :
  cell_gt a b = true <-> exists x y, a = Some x /\ b = Some y /\ (y < x)%Q.
Proof.
  unfold cell_gt. split.
  - destruct a as [x|]; [|discriminate]. destruct b as [y|]; [|discriminate].
    intro H. exists x, y. repeat split. now apply Qltb_spec.
  - intros (x & y & -> & -> & H). now apply Qltb_spec.
Qed.

Lemma label_eqb_spec (a b : label) : label_eqb a b = true <-> a = b.
Proof.
  destruct a as [a1 a2], b as [b1 b2]. unfold label_eqb. simpl.
  rewrite andb_true_iff, !Nat.eqb_eq. split.
  - intros [-> ->]. reflexivity.
  - intro H. injection H as -> ->. auto.
Qed.

Lemma score_leb_total (a b : symbol * Q) :
  score_leb a b = true \/ score_leb b a = true.
Proof.
  unfold score_leb. rewrite !Qle_bool_iff.
  destruct (Qlt_le_dec (snd b) (snd a)) as [H|H]; [right|left]; auto.
  now apply Qlt_le_weak.
Qed.

Lemma score_leb_trans (a b c : symbol * Q) :
  score_leb a b = true -> score_leb b c = true -> score_leb a c = true.
Proof. unfold score_leb. rewrite !Qle_bool_iff. apply Qle_trans. Qed.

(** ** The selector *)

Lemma in_dropna_cols (cols : list (symbol * cell)) (s : symbol) (v : Q) :
  In (s, v) (dropna_cols cols) <-> In (s, Some v) cols.
Proof.
  induction cols as [|[s0 [v0|]] cols IH]; simpl.
  - tauto.
  - rewrite IH. split; (intros [H|H]; [left; inversion H; reflexivity|now right]).
  - rewrite IH. split; [now right|]. intros [H|H]; [discriminate|exact H].
Qed.

Lemma eligible_spec (r : TableRow) (s : symbol) (v : Q) :
  In (s, v) (eligible r) <-> In (s, Some v) (t_cols r) /\ (0 < v)%Q.
Proof.
  unfold eligible. rewrite filter_In, in_dropna_cols. simpl.
  now rewrite Qltb_spec.
Qed.

Lemma top_rows_split (cols : list (symbol * Q)) :
  let srt := isort score_leb (filter (fun c => Qltb 0 (snd c)) cols) in
  let rest := firstn (length srt - MAX_STOCKS) srt in
  Permutation (rest ++ top_rows cols) (filter (fun c => Qltb 0 (snd c)) cols)
  /\ length (top_rows cols)
     = Nat.min MAX_STOCKS (length (filter (fun c => Qltb 0 (snd c)) cols))
  /\ forall x y, In x rest -> In y (top_rows cols) -> (snd x <= snd y)%Q.
Proof.
  intros srt rest. unfold top_rows, tail. fold srt.
  split; [|split].
  - unfold rest. rewrite firstn_skipn. apply isort_perm.
  - rewrite length_skipn. unfold srt. rewrite length_isort. lia.
  - intros x y Hx Hy. apply Qle_bool_iff.
    apply (StronglySorted_split (R := fun a b => score_leb a b = true)
             (l := srt) (length srt - MAX_STOCKS)); auto.
    apply isort_sorted; [apply score_leb_total|apply score_leb_trans].
Qed.

(** C3. The selection of a month never fails and holds at most 10 tickers,
    each with a defined, strictly positive score in the row.  It is empty
    when the index close is not strictly above its average.  When the gate
    is open (and the month is not the running one), it is the end of the
    eligible tickers in ascending score order: 10 of them, or all when
    fewer are eligible, and no ticker left out has a higher score than a
    selected one. *)
Theorem selector_top_ten (mx : label) (r : TableRow) :
  exists sel rest,
    Backtest.select_month mx r = Ok (map fst sel)
    /\ length sel <= 10
    /\ (forall s v, In (s, v) sel -> In (s, Some v) (t_cols r) /\ (0 < v)%Q)
    /\ (~ above_average r -> sel = [])
    /\ (above_average r -> t_month r <> mx ->
          Permutation (rest ++ sel) (eligible r)
          /\ length sel = Nat.min 10 (length (eligible r))
          /\ forall x y, In x rest -> In y sel -> (snd x <= snd y)%Q).
Proof.
  unfold Backtest.select_month.
  destruct (cell_gt (t_Close r) (t_sma r)) eqn:Hgate; simpl.
  - assert (Habove : above_average r) by (now apply cell_gt_spec).
    destruct (label_eqb (t_month r) mx) eqn:Hmx; simpl.
    + exists [], [].
      split; [reflexivity|]. split; [simpl; lia|]. split; [intros ? ? []|].
      split; [reflexivity|].
      intros _ Hne. apply label_eqb_spec in Hmx. contradiction.
    + destruct Habove as (c & s & Hc & Hs & Hlt).
      unfold get_top_stocks, dropna_row. simpl. rewrite Hc, Hs.
      pose proof (top_rows_split (dropna_cols (t_cols r))) as Hsplit.
      cbv zeta in Hsplit. destruct Hsplit as (Hperm & Hlen & Hord).
      eexists. eexists. split; [reflexivity|].
      split; [rewrite Hlen; unfold MAX_STOCKS; lia|].
      split.
      * intros s0 v Hin. apply eligible_spec. unfold eligible.
        eapply Permutation_in; [exact Hperm|]. apply in_or_app. now right.
      * split; [intro Hn; exfalso; apply Hn; now exists c, s|].
        intros _ _. split; [exact Hperm|]. split; [exact Hlen|exact Hord].
  - exists [], [].
    split; [reflexivity|]. split; [simpl; lia|]. split; [intros ? ? []|].
    split; [reflexivity|].
    intros Habove. apply cell_gt_spec in Habove. congruence.
Qed.

Lemma selector_top_ten_witness :
  above_average twelve_tickers
  /\ t_month twelve_tickers <> (24, 6)
  /\ Backtest.select_month (24, 6) twelve_tickers
     = Ok [ "ddd"; "nnn"; "fff"; "ggg"; "hhh"; "iii"; "jjj"; "kkk"; "lll"; "bbb" ]%string
  /\ length (eligible twelve_tickers) = 12.
Proof.
  assert (Ha : above_average twelve_tickers).
  { exists 3000%Q, 2900%Q. repeat split. }
  assert (Hm : t_month twelve_tickers <> (24, 6)) by discriminate.
  destruct (selector_top_ten (24, 6) twelve_tickers)
    as (sel & rest & Hsel & _ & _ & _ & Hgate).
  destruct (Hgate Ha Hm) as (_ & Hlen & _).
  repeat split; try assumption; reflexivity.
Defined.

(** ** Loops *)

Lemma for_each_invariant (A S : Type) (P : S -> Prop) (xs : list A)
  (body : A -> S -> result S) (s s' : S) :
  P s ->
  (forall x s1 s2, In x xs -> P s1 -> body x s1 = Ok s2 -> P s2) ->
  for_each xs body s = Ok s' -> P s'.
Proof.
  revert s. induction xs as [|x xs IH]; simpl; intros s Hs Hstep Hrun.
  - injection Hrun as <-. exact Hs.
  - destruct (body x s) as [s1|e] eqn:Hb; simpl in Hrun; [|discriminate].
    apply (IH s1); auto.
    + eapply Hstep; eauto.
    + intros y s2 s3 Hy. apply Hstep. now right.
Qed.

Lemma map_result_Forall2 (A B : Type) (f : A -> result B) (l : list A) (ys : list B) :
  map_result f l = Ok ys -> Forall2 (fun x y => f x = Ok y) l ys.
Proof.
  revert ys. induction l as [|x l IH]; simpl; intros ys H.
  - injection H as <-. constructor.
  - destruct (f x) as [y|e] eqn:Hf; simpl in H; [|discriminate].
    destruct (map_result f l) as [ys'|e] eqn:Hl; simpl in H; [|discriminate].
    injection H as <-. constructor; auto.
Qed.

Lemma Forall2_In_r (A B : Type) (R : A -> B -> Prop) (l : list A) (l' : list B) (y : B) :
  Forall2 R l l' -> In y l' -> exists x, In x l /\ R x y.
Proof.
  induction 1 as [|x0 y0 l l' HR HF IH]; simpl; [tauto|].
  intros [<-|Hin].
  - exists x0. auto.
  - destruct (IH Hin) as (x & Hx & Hxy). exists x. auto.
Qed.

Lemma Forall2_In_l (A B : Type) (R : A -> B -> Prop) (l : list A) (l' : list B) (x : A) :
  Forall2 R l l' -> In x l -> exists y, In y l' /\ R x y.
Proof.
  induction 1 as [|x0 y0 l l' HR HF IH]; simpl; [tauto|].
  intros [<-|Hin].
  - exists y0. auto.
  - destruct (IH Hin) as (y & Hy & Hxy). exists y. auto.
Qed.

(** ** The keys of the dict [stocks] through [prepare_stocks] *)

Lemma keys_map_values (V W : Type) (f : symbol * V -> W) (dct : dict V) :
  keys (map (fun kv => (fst kv, f kv)) dct) = keys dct.
Proof.
  unfold keys. rewrite map_map. reflexivity.
Qed.

Lemma dict_get_Some_in_keys (V : Type) (k : symbol) (v : V) (dct : dict V) :
  dict_get k dct = Some v -> In k (keys dct).
Proof.
  induction dct as [|[k0 v0] dct IH]; simpl; [discriminate|].
  destruct (String.eqb_spec k k0) as [->|Hne]; auto.
Qed.

Lemma restrict_month_keys (sp : SP_500_stocks) (index_date : date)
  (stocks stocks' : dict (list ScoredRow)) :
  Backtest.restrict_month sp index_date stocks = Ok stocks' ->
  keys stocks' = keys stocks.
Proof.
  unfold Backtest.restrict_month.
  destruct (get_symbols sp (year index_date) (mon index_date)) as [[l|]|e];
    simpl; try discriminate.
  intro H. injection H as <-. unfold keys. rewrite map_map.
  apply map_ext. intros [k v]. simpl. now destruct (existsb _ _).
Qed.

Lemma universe_restrictor_keys (sp : SP_500_stocks) (index : list IndexRow)
  (stocks stocks' : dict (list ScoredRow)) :
  Backtest.universe_restrictor sp index stocks = Ok stocks' ->
  keys stocks' = keys stocks.
Proof.
  unfold Backtest.universe_restrictor. intro H.
  apply (for_each_invariant (fun s => keys s = keys stocks) _ _ _ eq_refl) in H; auto.
  intros x s1 s2 _ Hs1 Hb. rewrite <- Hs1. eapply restrict_month_keys; eauto.
Qed.

Lemma filtered_table_cols (q_low q_beta : Q) (stocks : dict (list ScoredRow))
  (index : list IndexRow) (r : TableRow) :
  In r (filtered_table q_low q_beta stocks index) ->
  map fst (t_cols r) = keys stocks.
Proof.
  unfold filtered_table. rewrite in_map_iff. intros (ir & <- & _). simpl.
  unfold apply_exclusion, cross_section, keys. rewrite !map_map.
  apply map_ext. intros [k v]. simpl. now destruct (existsb _ _).
Qed.

Lemma keys_get_stocks_NoDup (yf_download : data_source) (symbols : list string) :
  NoDup (keys (Backtest.get_stocks yf_download symbols)).
Proof.
  unfold Backtest.get_stocks.
  apply NoDup_keys_dict_discard, NoDup_keys_collect_stocks. constructor.
Qed.

Lemma get_top_stocks_in_cols (r : TableRow) (l : list symbol) (s : symbol) :
  get_top_stocks (dropna_row r) = Ok l -> In s l ->
  exists v, In (s, Some v) (t_cols r) /\ (0 < v)%Q.
Proof.
  unfold get_top_stocks, dropna_row. simpl.
  destruct (t_Close r); [|discriminate]. destruct (t_sma r); [|discriminate].
  intro H. injection H as <-. rewrite in_map_iff.
  intros ([s0 v] & <- & Hin). exists v. simpl.
  apply eligible_spec. unfold eligible.
  unfold top_rows, tail in Hin. apply In_skipn in Hin.
  now apply isort_In in Hin.
Qed.

Lemma select_month_in_cols (mx : label) (r : TableRow) (l : list symbol) (s : symbol) :
  Backtest.select_month mx r = Ok l -> In s l ->
  exists v, In (s, Some v) (t_cols r) /\ (0 < v)%Q.
Proof.
  unfold Backtest.select_month.
  destruct (cell_gt _ _ && negb _).
  - apply get_top_stocks_in_cols.
  - intro H. injection H as <-. intros [].
Qed.

Lemma build_portfolio_picks (tbl : list TableRow) (portfolio : list Backtest.Pick)
  (p : Backtest.Pick) :
  Backtest.build_portfolio tbl = Ok portfolio -> In p portfolio ->
  exists r v, In r tbl
    /\ Backtest.pk_month p = strftime_Ym (add_days 10 (t_Date r))
    /\ In (Backtest.pk_symbol p, Some v) (t_cols r) /\ (0 < v)%Q.
Proof.
  unfold Backtest.build_portfolio. intros Hrun.
  revert p.
  refine (@for_each_invariant _ _
           (fun acc => forall p, In p acc ->
              exists r v, In r tbl
                /\ Backtest.pk_month p = strftime_Ym (add_days 10 (t_Date r))
                /\ In (Backtest.pk_symbol p, Some v) (t_cols r) /\ (0 < v)%Q)
           _ _ _ _ _ _ Hrun).
  - intros p [].
  - intros r acc acc' Hr Hacc Hbody p Hp.
    destruct (Backtest.select_month (Backtest.month_max tbl) r) as [top|e] eqn:Hsel;
      simpl in Hbody; [|discriminate].
    injection Hbody as <-. apply in_app_or in Hp. destruct Hp as [Hp|Hp]; auto.
    apply in_map_iff in Hp. destruct Hp as (s & <- & Hs).
    destruct (@select_month_in_cols _ _ _ _ Hsel Hs) as (v & Hv & Hpos).
    exists r, v. cbn [Backtest.pk_month Backtest.pk_symbol].
    split; [exact Hr|]. split; [reflexivity|].
    split; [exact Hv|exact Hpos].
Qed.

(** ** The simulator, step by step *)

Lemma fill_position_ok (stocks : dict (list Bar)) (pk : Backtest.Pick)
  (p : Backtest.Position) :
  Backtest.fill_position stocks pk = Ok p ->
  Backtest.p_symbol p = Backtest.pk_symbol pk
  /\ Backtest.p_month p = Backtest.pk_month pk
  /\ exists df, dict_get (Backtest.pk_symbol pk) stocks = Some df
       /\ match find (fun mb => label_eqb (Backtest.mb_month mb) (Backtest.pk_month pk))
                     (Backtest.bars_by_month df) with
          | Some mb => Backtest.p_buy p = Some (Backtest.mb_Open mb)
                       /\ Backtest.p_sell p = Some (Backtest.mb_Close mb)
          | None => Backtest.p_buy p = None
          end.
Proof.
  unfold Backtest.fill_position.
  destruct (dict_get (Backtest.pk_symbol pk) stocks) as [df|]; [|discriminate].
  destruct (find _ (Backtest.bars_by_month df)) as [mb|] eqn:Hf;
    intro H; injection H as <-; simpl; repeat split; exists df;
    (split; [reflexivity|]); rewrite Hf; simpl; auto.
Qed.

Lemma size_position_ok (p : Backtest.Position) (t : Backtest.Trade) :
  Backtest.size_position p = Ok t ->
  Backtest.tr_symbol t = Backtest.p_symbol p
  /\ Backtest.tr_month t = Backtest.p_month p
  /\ Backtest.p_buy p = Some (Backtest.tr_buy t)
  /\ Backtest.p_sell p = Some (Backtest.tr_sell t)
  /\ ~ (Backtest.tr_buy t == 0)%Q
  /\ Backtest.tr_shares t = Qtrunc (10000 / Backtest.tr_buy t)
  /\ Backtest.tr_invest t = (inject_Z (Backtest.tr_shares t) * Backtest.tr_buy t)%Q
  /\ Backtest.tr_profit t = (inject_Z (Backtest.tr_shares t) * Backtest.tr_sell t)%Q.
Proof.
  unfold Backtest.size_position, Backtest.shares.
  destruct (Backtest.p_buy p) as [b|]; simpl; [|discriminate].
  destruct (Qeq_bool b 0) eqn:Hb; simpl; [discriminate|].
  destruct (Backtest.p_sell p) as [s|]; [|discriminate].
  intro H. injection H as <-. simpl. repeat split.
  intro Hz. apply Qeq_bool_iff in Hz. congruence.
Qed.

Lemma size_positions_ok (ps : list Backtest.Position) (ts : list Backtest.Trade) :
  Backtest.size_positions ps = Ok ts ->
  Forall2 (fun p t => Backtest.size_position p = Ok t) ps ts.
Proof.
  unfold Backtest.size_positions.
  destruct (forallb _ ps); [discriminate|]. apply map_result_Forall2.
Qed.

(** C10. The price loader of the backtest never returns the key [googl],
    whatever the data source answered; so no table of [prepare_stocks] has
    a column [googl], no month's selection holds it, and no simulated trade
    is in it. *)
Theorem googl_never_appears (roc : list Q -> nat -> list cell)
  (yf_download : data_source) (sp : SP_500_stocks) :
  (forall symbols, ~ In "googl"%string (keys (Backtest.get_stocks yf_download symbols)))
  /\ (forall index tbl r,
        Backtest.prepare_stocks roc yf_download sp index = Ok tbl ->
        In r tbl -> ~ In "googl"%string (map fst (t_cols r)))
  /\ (forall index tbl from portfolio p,
        Backtest.prepare_stocks roc yf_download sp index = Ok tbl ->
        Backtest.build_portfolio (Backtest.slice_from from tbl) = Ok portfolio ->
        In p portfolio -> Backtest.pk_symbol p <> "googl"%string)
  /\ (forall portfolio trades months t,
        Backtest.simulate yf_download portfolio = Ok (trades, months) ->
        In t trades -> Backtest.tr_symbol t <> "googl"%string).
Proof.
  assert (Hkeys : forall symbols,
             ~ In "googl"%string (keys (Backtest.get_stocks yf_download symbols))).
  { intro symbols. unfold Backtest.get_stocks.
    apply not_in_keys_dict_discard, NoDup_keys_collect_stocks. constructor. }
  assert (Hcols : forall index tbl r,
             Backtest.prepare_stocks roc yf_download sp index = Ok tbl ->
             In r tbl -> ~ In "googl"%string (map fst (t_cols r))).
  { intros index tbl r Hprep Hr. unfold Backtest.prepare_stocks in Hprep.
    destruct (all_symbols sp) as [symbols|e]; simpl in Hprep; [|discriminate].
    destruct (Backtest.universe_restrictor sp index
                (Backtest.scored_stocks roc yf_download symbols))
      as [stocks|e] eqn:Hres; simpl in Hprep; [|discriminate].
    injection Hprep as <-.
    rewrite (@filtered_table_cols _ _ _ _ _ Hr).
    rewrite (@universe_restrictor_keys _ _ _ _ Hres).
    unfold Backtest.scored_stocks.
    rewrite (@keys_map_values _ _ (fun kv => Backtest.features roc (snd kv))).
    apply Hkeys. }
  split; [exact Hkeys|]. split; [exact Hcols|]. split.
  - intros index tbl from portfolio p Hprep Hbuild Hp Heq.
    destruct (@build_portfolio_picks _ _ _ Hbuild Hp) as (r & v & Hr & _ & Hin & _).
    unfold Backtest.slice_from in Hr. apply filter_In in Hr. destruct Hr as [Hr _].
    apply (Hcols index tbl r Hprep Hr).
    rewrite <- Heq. apply in_map_iff. now exists (Backtest.pk_symbol p, Some v).
  - intros portfolio trades months t Hsim Ht Heq.
    unfold Backtest.simulate in Hsim.
    destruct portfolio as [|pk0 rest]; [discriminate|].
    set (stocks := Backtest.get_stocks yf_download
                     (unique [] (map Backtest.pk_symbol (pk0 :: rest)))) in *.
    destruct (map_result (Backtest.fill_position stocks) (pk0 :: rest))
      as [positions|e] eqn:Hfill; simpl in Hsim; [|discriminate].
    destruct (Backtest.size_positions positions) as [ts|e] eqn:Hsize;
      simpl in Hsim; [|discriminate].
    injection Hsim as <- _.
    destruct (@Forall2_In_r _ _ _ _ _ _ (@size_positions_ok _ _ Hsize) Ht) as (p & Hp & Hpt).
    destruct (@Forall2_In_r _ _ _ _ _ _ (@map_result_Forall2 _ _ _ _ _ Hfill) Hp) as (pk & Hpk & Hpkp).
    apply size_position_ok in Hpt. destruct Hpt as (Hsym & _).
    apply fill_position_ok in Hpkp. destruct Hpkp as (Hsym' & _ & df & Hget & _).
    apply dict_get_Some_in_keys in Hget.
    apply (Hkeys (unique [] (map Backtest.pk_symbol (pk0 :: rest)))).
    change (In "googl"%string (keys stocks)).
    rewrite <- Heq, Hsym, Hsym'. exact Hget.
Qed.

Lemma googl_never_appears_witness :
  In "googl"%string (map (fun kv => lower (fst kv)) (googl_source []))
  /\ clean_bars (rising 0 3) <> []
  /\ keys (Backtest.get_stocks googl_source []) = [ "aaa"%string ]
  /\ exists tbl,
       Backtest.prepare_stocks roc_spec googl_source googl_members
         (get_monthly_index (index_days 3)) = Ok tbl
       /\ forall r, In r tbl -> ~ In "googl"%string (map fst (t_cols r)).
Proof.
  split; [simpl; auto|]. split; [discriminate|]. split; [reflexivity|].
  destruct (Backtest.prepare_stocks roc_spec googl_source googl_members
              (get_monthly_index (index_days 3))) as [tbl|e] eqn:Hprep.
  - exists tbl. split; [reflexivity|]. intros r Hr.
    exact (proj1 (proj2 (googl_never_appears roc_spec googl_source googl_members))
             _ tbl r Hprep Hr).
  - vm_compute in Hprep. discriminate.
Defined.

(** ** Without a membership file *)

(** C5. With no membership file, the attribute [df] stays [None]:
    [prepare_stocks] raises [AttributeError] at [all_symbols], so does the
    main, and the loop of the universe restrictor itself raises [TypeError]
    at its first month.  Nothing is skipped. *)
Theorem prepare_stocks_without_membership_file
  (roc : list Q -> nat -> list cell) (yf_download : data_source) :
  sp_init None = None
  /\ (forall y m, get_symbols (sp_init None) y m = Ok None)
  /\ (forall index,
        Backtest.prepare_stocks roc yf_download (sp_init None) index
        = Raise AttributeError)
  /\ (forall sp_500,
        Backtest.main roc yf_download (sp_init None) sp_500 = Raise AttributeError)
  /\ (forall ir index stocks,
        Backtest.universe_restrictor (sp_init None) (ir :: index) stocks
        = Raise TypeError).
Proof.
  repeat split.
Qed.

(** ** The universe restrictor *)

Lemma existsb_eqb_In (s : symbol) (l : list symbol) :
  existsb (String.eqb s) l = true <-> In s l.
Proof.
  rewrite existsb_exists. split.
  - intros (x & Hx & He). apply String.eqb_eq in He. now subst.
  - intro H. exists s. split; [exact H|apply String.eqb_refl].
Qed.

Lemma null_row_nulled (r : ScoredRow) : nulled r (Backtest.null_row r).
Proof.
  unfold nulled. simpl. repeat split.
  intro h. do 13 (destruct h as [|h]; try reflexivity).
Qed.

Lemma null_row_idem (r : ScoredRow) :
  Backtest.null_row (Backtest.null_row r) = Backtest.null_row r.
Proof. reflexivity. Qed.

Lemma restrict_month_ok (sp : SP_500_stocks) (dt : date)
  (stocks mid : dict (list ScoredRow)) :
  Backtest.restrict_month sp dt stocks = Ok mid ->
  (exists l, get_symbols sp (year dt) (mon dt) = Ok (Some l))
  /\ mid = map (fun kv : symbol * list ScoredRow =>
                  (fst kv,
                   map (fun r => if label_eqb (strftime_ym dt) (s_month r)
                                      && negb (memberb sp dt (fst kv))
                                 then Backtest.null_row r else r)
                       (snd kv)))
               stocks.
Proof.
  unfold Backtest.restrict_month, memberb.
  destruct (get_symbols sp (year dt) (mon dt)) as [[l|]|e]; simpl; try discriminate.
  intro H. injection H as <-. split; [now exists l|].
  apply map_ext. intros [k df]. simpl.
  destruct (existsb (String.eqb k) (map lower l)); simpl.
  - f_equal. rewrite <- (map_id df) at 1. apply map_ext. intro r.
    now rewrite andb_false_r.
  - f_equal. unfold Backtest.null_month. apply map_ext. intro r.
    rewrite andb_true_r.
    destruct (label_eqb (s_month r) (strftime_ym dt)) eqn:E.
    + apply label_eqb_spec in E. rewrite E.
      now rewrite (proj2 (label_eqb_spec _ _) eq_refl).
    + destruct (label_eqb (strftime_ym dt) (s_month r)) eqn:E'; [|reflexivity].
      apply label_eqb_spec in E'. rewrite E' in E.
      rewrite (proj2 (label_eqb_spec _ _) eq_refl) in E. discriminate.
Qed.

Lemma for_each_restrict_closed (sp : SP_500_stocks) (dates : list date)
  (stocks stocks' : dict (list ScoredRow)) :
  for_each dates (Backtest.restrict_month sp) stocks = Ok stocks' ->
  (forall dt, In dt dates -> exists l, get_symbols sp (year dt) (mon dt) = Ok (Some l))
  /\ stocks' = map (fun kv : symbol * list ScoredRow =>
                      (fst kv,
                       map (fun r => if restrictedb sp dates (fst kv) (s_month r)
                                     then Backtest.null_row r else r)
                           (snd kv)))
                   stocks.
Proof.
  revert stocks. induction dates as [|dt dates IH]; simpl; intros stocks H.
  - injection H as <-. split; [intros ? []|].
    rewrite <- (map_id stocks) at 1. apply map_ext. intros [k df]. simpl.
    f_equal. now rewrite map_id.
  - destruct (Backtest.restrict_month sp dt stocks) as [mid|e] eqn:Hstep;
      simpl in H; [|discriminate].
    apply restrict_month_ok in Hstep. destruct Hstep as (Hl & ->).
    apply IH in H. destruct H as (Hall & ->).
    split.
    + intros dt' [<-|Hin]; auto.
    + rewrite map_map. apply map_ext. intros [k df]. simpl.
      f_equal. rewrite map_map. apply map_ext. intro r.
      destruct (label_eqb (strftime_ym dt) (s_month r) && negb (memberb sp dt k));
        simpl.
      * now destruct (restrictedb sp dates k (s_month r)).
      * reflexivity.
Qed.

Lemma restrictedb_spec (sp : SP_500_stocks) (index : list IndexRow)
  (sym : symbol) (m : label) :
  (forall dt, In dt (map ix_Date index) ->
     exists l, get_symbols sp (year dt) (mon dt) = Ok (Some l)) ->
  restrictedb sp (map ix_Date index) sym m = true <-> restricted sp index sym m.
Proof.
  intro Hall. unfold restrictedb, restricted, not_member.
  rewrite existsb_exists. split.
  - intros (dt & Hin & Hb). apply andb_true_iff in Hb. destruct Hb as [Hm Hn].
    apply label_eqb_spec in Hm. apply negb_true_iff in Hn.
    pose proof Hin as Hin'. apply in_map_iff in Hin'.
    destruct Hin' as (ir & <- & Hir).
    exists ir. split; [exact Hir|]. split; [exact Hm|].
    destruct (Hall _ Hin) as (l & Hl). exists l. split; [exact Hl|].
    unfold memberb in Hn. rewrite Hl in Hn.
    intro Hmem. apply existsb_eqb_In in Hmem. congruence.
  - intros (ir & Hir & Hm & l & Hl & Hn).
    exists (ix_Date ir). split; [now apply in_map|].
    apply andb_true_iff. split; [now apply label_eqb_spec|].
    apply negb_true_iff. unfold memberb. rewrite Hl.
    apply not_true_iff_false. intro Hmem. apply existsb_eqb_In in Hmem. contradiction.
Qed.

Lemma Forall2_map_r (A B : Type) (R : A -> B -> Prop) (f : A -> B) (l : list A) :
  (forall x, In x l -> R x (f x)) -> Forall2 R l (map f l).
Proof.
  induction l as [|x l IH]; simpl; intro H; constructor; auto.
Qed.

(** C7. When the restrictor completes, the dict keeps its tickers and each
    ticker keeps its rows, in order.  A row of a ticker whose month is a month
    of the index in which the ticker is not a member has its beta and its
    four scores undefined, its other columns as before; every other row, so
    every row of another month and every row of a member, is unchanged. *)
Theorem universe_restrictor_frame (sp : SP_500_stocks) (index : list IndexRow)
  (stocks stocks' : dict (list ScoredRow)) :
  Backtest.universe_restrictor sp index stocks = Ok stocks' ->
  Forall2
    (fun kv kv' =>
       fst kv' = fst kv
       /\ Forall2
            (fun r r' =>
               (restricted sp index (fst kv) (s_month r) -> nulled r r')
               /\ (~ restricted sp index (fst kv) (s_month r) -> r' = r))
            (snd kv) (snd kv'))
    stocks stocks'.
Proof.
  unfold Backtest.universe_restrictor. intro H.
  apply for_each_restrict_closed in H. destruct H as (Hall & ->).
  apply Forall2_map_r. intros [k df] _. simpl. split; [reflexivity|].
  apply Forall2_map_r. intros r _.
  pose proof (restrictedb_spec sp index k (s_month r) Hall) as Hspec.
  destruct (restrictedb sp (map ix_Date index) k (s_month r)).
  - split; [intros _; apply null_row_nulled|].
    intro Hn. exfalso. apply Hn. now apply Hspec.
  - split; [|reflexivity].
    intro Hr. apply Hspec in Hr. discriminate.
Qed.

Lemma universe_restrictor_frame_witness :
  exists stocks',
    Backtest.universe_restrictor bbb_leaves (get_monthly_index (index_days 5))
      (Backtest.scored_stocks roc_spec two_tickers []) = Ok stocks'
    /\ Forall2
         (fun kv kv' =>
            fst kv' = fst kv
            /\ Forall2
                 (fun r r' =>
                    (restricted bbb_leaves (get_monthly_index (index_days 5))
                       (fst kv) (s_month r) -> nulled r r')
                    /\ (~ restricted bbb_leaves (get_monthly_index (index_days 5))
                          (fst kv) (s_month r) -> r' = r))
                 (snd kv) (snd kv'))
         (Backtest.scored_stocks roc_spec two_tickers []) stocks'.
Proof.
  destruct (Backtest.universe_restrictor bbb_leaves (get_monthly_index (index_days 5))
              (Backtest.scored_stocks roc_spec two_tickers [])) as [stocks'|e] eqn:Hrun.
  - exists stocks'. split; [reflexivity|].
    exact (@universe_restrictor_frame _ _ _ _ Hrun).
  - vm_compute in Hrun. discriminate.
Defined.

(** The run above does change something: BBB loses March 2023 and nothing
    else. *)
Example restrictor_bbb_march :
  option_map
    (fun stocks' =>
       map (fun kv : symbol * list ScoredRow =>
              (fst kv, map (fun r => is_none (changes_3 r)) (snd kv)))
           stocks')
    (match Backtest.universe_restrictor bbb_leaves (get_monthly_index (index_days 5))
             (Backtest.scored_stocks roc_spec two_tickers []) with
     | Ok s => Some s
     | Raise _ => None
     end)
  = Some [ ("aaa"%string, [true; false; false; false; true]);
           ("bbb"%string, [true; false; true; false; true]) ].
Proof. vm_compute. reflexivity. Qed.

(** The restrictor completes as soon as a file was loaded and every month
    of the index has a snapshot on or before its first day. *)
Lemma universe_restrictor_returns (sp : SP_500_stocks) (index : list IndexRow)
  (stocks : dict (list ScoredRow)) :
  (forall ir, In ir index ->
     exists l, get_symbols sp (year (ix_Date ir)) (mon (ix_Date ir)) = Ok (Some l)) ->
  exists stocks', Backtest.universe_restrictor sp index stocks = Ok stocks'.
Proof.
  unfold Backtest.universe_restrictor.
  revert stocks. induction index as [|ir index IH]; simpl; intros stocks H.
  - now exists stocks.
  - destruct (H ir (or_introl eq_refl)) as (l & Hl).
    unfold Backtest.restrict_month at 1. rewrite Hl. simpl.
    apply IH. intros ir' Hin. apply H. now right.
Qed.

(** ** The resampler *)

Lemma in_distinct_labels (ls : list label) (k : label) :
  In k (distinct_labels ls) <-> In k ls.
Proof.
  induction ls as [|l ls IH]; simpl; [tauto|].
  destruct (existsb (label_eqb l) ls) eqn:E.
  - rewrite IH. split; [auto|]. intros [<-|H]; [|exact H].
    apply existsb_exists in E. destruct E as (x & Hx & He).
    apply label_eqb_spec in He. now subst.
  - simpl. now rewrite IH.
Qed.

Lemma in_groupby (R : Type) (key : R -> label) (df : list R) (k : label) (g : list R) :
  In (k, g) (groupby key df) <->
  In k (map key df) /\ g = filter (fun r => label_eqb (key r) k) df.
Proof.
  unfold groupby. rewrite in_map_iff. split.
  - intros (k' & Heq & Hin). injection Heq as <- <-.
    apply (proj1 (isort_In _ _ _)) in Hin.
    apply (proj1 (in_distinct_labels _ _)) in Hin.
    split; [exact Hin|reflexivity].
  - intros (Hin & ->). exists k. split; [reflexivity|].
    apply (proj2 (isort_In _ _ _)). now apply (proj2 (in_distinct_labels _ _)).
Qed.

Lemma in_resample (df : list DayRow) (r : MonthRow) :
  In r (resample_stocks_to_month df) ->
  exists r0 g,
    filter (fun x => label_eqb (day_label x) (m_month r)) df = r0 :: g
    /\ m_Open r = d_Open r0
    /\ m_Close r = d_Close (last (r0 :: g) r0)
    /\ m_Date r = d_Date (last (r0 :: g) r0).
Proof.
  unfold resample_stocks_to_month. intro H.
  apply (proj1 (isort_In _ _ _)) in H.
  apply in_flat_map in H. destruct H as ([k g] & Hg & Hr).
  apply in_groupby in Hg. destruct Hg as (_ & ->). simpl in Hr.
  unfold agg_month in Hr.
  destruct (filter _ df) as [|r0 g] eqn:Hf; [destruct Hr|].
  destruct Hr as [<-|[]]. simpl m_month. unfold day_label.
  exists r0, g. rewrite Hf. repeat split.
Qed.

Lemma resample_complete (df : list DayRow) (x : DayRow) :
  In x df ->
  exists r, In r (resample_stocks_to_month df) /\ m_month r = day_label x.
Proof.
  intro Hx. unfold resample_stocks_to_month.
  set (k := day_label x).
  assert (Hg : In (k, filter (fun y => label_eqb (strftime_ym (d_Date y)) k) df)
                  (groupby (fun y => strftime_ym (d_Date y)) df)).
  { apply in_groupby. split; [|reflexivity].
    apply in_map_iff. now exists x. }
  destruct (filter (fun y => label_eqb (strftime_ym (d_Date y)) k) df)
    as [|r0 g] eqn:Hf.
  - exfalso. assert (Hin : In x []).
    { rewrite <- Hf. apply filter_In. split; [exact Hx|].
      now apply label_eqb_spec. }
    destruct Hin.
  - eexists. split.
    + apply (proj2 (isort_In _ _ _)).
      apply in_flat_map. eexists. split; [exact Hg|].
      simpl. left. reflexivity.
    + reflexivity.
Qed.

Lemma StronglySorted_filter (A : Type) (R : A -> A -> Prop) (f : A -> bool) (l : list A) :
  StronglySorted R l -> StronglySorted R (filter f l).
Proof.
  induction 1 as [|a l Hs IH Hall]; simpl; [constructor|].
  destruct (f a); [|exact IH].
  constructor; [exact IH|].
  rewrite Forall_forall in *. intros y Hy. apply Hall.
  apply filter_In in Hy. tauto.
Qed.

Lemma StronglySorted_last (A : Type) (R : A -> A -> Prop) (l : list A) (dflt y : A) :
  StronglySorted R l -> In y l -> y = last l dflt \/ R y (last l dflt).
Proof.
  induction 1 as [|a l Hs IH Hall]; [intros []|].
  intros [<-|Hy].
  - destruct l as [|b l]; [now left|right].
    rewrite Forall_forall in Hall. apply Hall.
    change (last (a :: b :: l) dflt) with (last (b :: l) dflt).
    clear. revert b. induction l as [|c l IHl]; intro b; [now left|].
    right. apply IHl.
  - destruct l as [|b l]; [destruct Hy|].
    change (last (a :: b :: l) dflt) with (last (b :: l) dflt). now apply IH.
Qed.

Lemma last_in (A : Type) (l : list A) (a dflt : A) : In (last (a :: l) dflt) (a :: l).
Proof.
  revert a. induction l as [|b l IH]; intro a; [now left|].
  right. apply IH.
Qed.

(** C8, as amended.  A monthly row opens at the open of the first row of
    its month and closes at the close of the last row of its month, in the
    order of the rows of the input.  For a daily series in chronological
    order, every month of the input has its monthly row, whose open is the
    open of the chronologically first trading day of the month and whose
    close is the close of the chronologically last one. *)
Theorem resample_first_last (df : list DayRow) :
  (forall r, In r (resample_stocks_to_month df) ->
     exists r0 g,
       filter (fun x => label_eqb (day_label x) (m_month r)) df = r0 :: g
       /\ m_Open r = d_Open r0
       /\ m_Close r = d_Close (last (r0 :: g) r0))
  /\ (chronological df -> opens_first_closes_last df).
Proof.
  split.
  { intros r Hr. destruct (@in_resample _ _ Hr) as (r0 & g & Hf & Ho & Hc & _).
    exists r0, g. auto. }
  intro Hchr. split; [intros x Hx; now apply resample_complete|].
  intros r x Hr Hlab.
  destruct (@in_resample _ _ Hr) as (r0 & g & Hf & Ho & Hc & _).
  assert (Hs : StronglySorted (fun a b => date_ltb (d_Date a) (d_Date b) = true)
                 (r0 :: g)).
  { rewrite <- Hf. now apply StronglySorted_filter. }
  assert (Hin : forall y, In y (r0 :: g) <-> In y df /\ day_label y = m_month r).
  { intro y. rewrite <- Hf, filter_In. now rewrite label_eqb_spec. }
  split.
  - intros [Hx Hmin]. rewrite Ho. f_equal.
    assert (Hxg : In x (r0 :: g)) by (apply Hin; auto).
    destruct Hxg as [Heq|Hxg]; [exact Heq|exfalso].
    inversion Hs as [|? ? _ Hall]; subst. rewrite Forall_forall in Hall.
    specialize (Hall x Hxg). unfold date_ltb in Hall.
    apply negb_true_iff in Hall.
    assert (H0 : In r0 (r0 :: g)) by now left.
    apply Hin in H0. destruct H0 as [H0 Hl0].
    rewrite Hmin in Hall; [discriminate|exact H0|congruence].
  - intros [Hx Hmax]. rewrite Hc. f_equal.
    assert (Hxg : In x (r0 :: g)) by (apply Hin; auto).
    destruct (@StronglySorted_last _ _ _ r0 _ Hs Hxg) as [Heq|Hlt]; [now symmetry|exfalso].
    unfold date_ltb in Hlt. apply negb_true_iff in Hlt.
    pose proof (last_in g r0 r0) as Hl. apply Hin in Hl. destruct Hl as [Hl Hll].
    rewrite Hmax in Hlt; [discriminate|exact Hl|congruence].
Qed.

Lemma resample_first_last_witness :
  chronological sorted_days
  /\ opens_first_closes_last sorted_days
  /\ map (fun r => (m_month r, m_Open r, m_Close r))
         (resample_stocks_to_month sorted_days)
     = [ ((24, 1), 10%Q, 31%Q); ((24, 2), 40%Q, 41%Q) ].
Proof.
  assert (Hc : chronological sorted_days).
  { unfold chronological, sorted_days. repeat constructor. }
  split; [exact Hc|]. split; [exact (proj2 (resample_first_last sorted_days) Hc)|reflexivity].
Defined.

(** C8, as stated, fails: with the first two days of January exchanged, the
    monthly row opens at the open of the row that comes first, the 15th,
    not at the open of the 2nd; the result depends on the row order. *)
Lemma resample_row_order_counterexample :
  Permutation sorted_days unsorted_days
  /\ ~ opens_first_closes_last unsorted_days
  /\ resample_stocks_to_month unsorted_days <> resample_stocks_to_month sorted_days.
Proof.
  split; [apply perm_swap|]. split.
  - intros [_ H].
    destruct (H (mkMonthRow (mkDate 2024 1 31) (24, 1) 20%Q 31%Q None 0%Q)
                (day_row 2024 1 2 10%Q 11%Q)) as [Hopen _].
    + vm_compute. left. reflexivity.
    + reflexivity.
    + assert (He : earliest_in_month unsorted_days (day_row 2024 1 2 10%Q 11%Q)).
      { split; [right; left; reflexivity|].
        intros y Hy _. simpl in Hy.
        destruct Hy as [<-|[<-|[<-|[<-|[]]]]]; reflexivity. }
      specialize (Hopen He). discriminate Hopen.
  - intro H. apply (f_equal (map m_Open)) in H. vm_compute in H. discriminate H.
Qed.

(** ** The quantile *)

Lemma Qle_bool_total (a b : Q) : Qle_bool a b = true \/ Qle_bool b a = true.
Proof.
  rewrite !Qle_bool_iff.
  destruct (Qlt_le_dec b a) as [H|H]; [right; now apply Qlt_le_weak|now left].
Qed.

Lemma Qle_bool_trans (a b c : Q) :
  Qle_bool a b = true -> Qle_bool b c = true -> Qle_bool a c = true.
Proof. rewrite !Qle_bool_iff. apply Qle_trans. Qed.

Lemma sorted_nth_le (xs : list Q) (dflt : Q) (i j : nat) :
  StronglySorted (fun a b => Qle_bool a b = true) xs ->
  i <= j -> j < length xs -> (nth i xs dflt <= nth j xs dflt)%Q.
Proof.
  intro Hs. revert i j. induction Hs as [|a l Hs IH Hall]; intros i j Hij Hj.
  - simpl in Hj. lia.
  - destruct i as [|i], j as [|j]; simpl in *; try lia.
    + apply Qle_refl.
    + rewrite Forall_forall in Hall. apply Qle_bool_iff, Hall, nth_In. lia.
    + apply IH; lia.
Qed.

(** The position of the quantile in the sorted values: its integer part is
    a valid index and its fractional part is in [0, 1). *)
Lemma quantile_position (n : nat) (q : Q) :
  (0 <= q)%Q -> (q <= 1)%Q ->
  let pos := (inject_Z (Z.of_nat (n - 1)) * q)%Q in
  let lo := Z.to_nat (Qfloor pos) in
  lo <= n - 1
  /\ inject_Z (Z.of_nat lo) = inject_Z (Qfloor pos)
  /\ (0 <= pos - inject_Z (Qfloor pos))%Q
  /\ (pos - inject_Z (Qfloor pos) < 1)%Q.
Proof.
  intros H0 H1 pos lo.
  assert (Hn : (0 <= inject_Z (Z.of_nat (n - 1)))%Q).
  { change 0%Q with (inject_Z 0). rewrite <- Zle_Qle. lia. }
  assert (Hpos0 : (0 <= pos)%Q) by (unfold pos; nra).
  assert (Hpos1 : (pos <= inject_Z (Z.of_nat (n - 1)))%Q) by (unfold pos; nra).
  assert (Hf0 : (0 <= Qfloor pos)%Z).
  { change 0%Z with (Qfloor (inject_Z 0)). rewrite Qfloor_Z at 1.
    change 0%Z with (Qfloor 0). now apply Qfloor_resp_le. }
  assert (Hf1 : (Qfloor pos <= Z.of_nat (n - 1))%Z).
  { rewrite <- (Qfloor_Z (Z.of_nat (n - 1))). now apply Qfloor_resp_le. }
  split; [unfold lo; lia|].
  split; [unfold lo; now rewrite Z2Nat.id|].
  pose proof (Qfloor_le pos) as Hle. pose proof (Qlt_floor pos) as Hlt.
  rewrite inject_Z_plus in Hlt. change (inject_Z 1) with 1%Q in Hlt.
  split; lra.
Qed.

Lemma quantile_defined (q : Q) (col : list cell) (v : Q) :
  In (Some v) col -> exists thr, quantile q col = Some thr.
Proof.
  intro H. unfold quantile.
  destruct (isort Qle_bool (dropna col)) as [|x0 xs] eqn:E; [|eauto].
  exfalso.
  assert (Hv : In v (dropna col)).
  { clear E. induction col as [|[c|] col IH]; simpl in *; [tauto| |].
    - destruct H as [H|H]; [left; congruence|right; auto].
    - destruct H as [H|H]; [discriminate|auto]. }
  apply (proj2 (isort_In Qle_bool _ _)) in Hv. rewrite E in Hv. destruct Hv.
Qed.

Lemma interpolate_mono (l : list Q) (x0 q1 q2 : Q) :
  StronglySorted (fun a b => Qle_bool a b = true) l -> length l >= 1 ->
  (0 <= q1)%Q -> (q1 <= q2)%Q -> (q2 <= 1)%Q ->
  (interpolate l x0 q1 <= interpolate l x0 q2)%Q.
Proof.
  intros Hs Hlen H0 H12 H1. unfold interpolate.
  set (n := length l) in *.
  assert (Hq1 : (q1 <= 1)%Q) by lra. assert (Hq2 : (0 <= q2)%Q) by lra.
  destruct (@quantile_position n q1 H0 Hq1) as (Hlo1 & Hi1 & Hg1 & Hg1').
  destruct (@quantile_position n q2 Hq2 H1) as (Hlo2 & Hi2 & Hg2 & Hg2').
  set (pos1 := (inject_Z (Z.of_nat (n - 1)) * q1)%Q) in *.
  set (pos2 := (inject_Z (Z.of_nat (n - 1)) * q2)%Q) in *.
  set (lo1 := Z.to_nat (Qfloor pos1)) in *.
  set (lo2 := Z.to_nat (Qfloor pos2)) in *.
  assert (Hn : (0 <= inject_Z (Z.of_nat (n - 1)))%Q).
  { change 0%Q with (inject_Z 0). rewrite <- Zle_Qle. lia. }
  assert (Hpos : (pos1 <= pos2)%Q) by (unfold pos1, pos2; nra).
  assert (Hlo : lo1 <= lo2).
  { unfold lo1, lo2. apply Z2Nat.inj_le.
    - rewrite Zle_Qle, <- Hi1, <- Zle_Qle. lia.
    - rewrite Zle_Qle, <- Hi2, <- Zle_Qle. lia.
    - now apply Qfloor_resp_le. }
  set (hi1 := Nat.min (lo1 + 1) (n - 1)). set (hi2 := Nat.min (lo2 + 1) (n - 1)).
  assert (Ha1 : (nth lo1 l x0 <= nth hi1 l x0)%Q)
    by (apply sorted_nth_le; [exact Hs|unfold hi1; lia|unfold hi1; fold n; lia]).
  assert (Ha2 : (nth lo2 l x0 <= nth hi2 l x0)%Q)
    by (apply sorted_nth_le; [exact Hs|unfold hi2; lia|unfold hi2; fold n; lia]).
  set (g1 := (pos1 - inject_Z (Qfloor pos1))%Q) in *.
  set (g2 := (pos2 - inject_Z (Qfloor pos2))%Q) in *.
  destruct (Nat.eq_dec lo1 lo2) as [Heq|Hne].
  - assert (Hg : (g1 <= g2)%Q).
    { unfold g1, g2. rewrite <- Hi1, <- Hi2, Heq. lra. }
    assert (Hh : hi1 = hi2) by (unfold hi1, hi2; now rewrite Heq).
    rewrite Hh, Heq in *.
    set (a := nth lo2 l x0) in *. set (b := nth hi2 l x0) in *.
    nra.
  - assert (Hmid : (nth hi1 l x0 <= nth lo2 l x0)%Q)
      by (apply sorted_nth_le; [exact Hs|unfold hi1; lia|fold n; lia]).
    set (a1 := nth lo1 l x0) in *. set (b1 := nth hi1 l x0) in *.
    set (a2 := nth lo2 l x0) in *. set (b2 := nth hi2 l x0) in *.
    nra.
Qed.

Lemma quantile_mono (q1 q2 : Q) (col : list cell) (t1 t2 : Q) :
  (0 <= q1)%Q -> (q1 <= q2)%Q -> (q2 <= 1)%Q ->
  quantile q1 col = Some t1 -> quantile q2 col = Some t2 -> (t1 <= t2)%Q.
Proof.
  intros H0 H12 H1. unfold quantile.
  pose proof (@isort_sorted _ Qle_bool Qle_bool_total Qle_bool_trans (dropna col)) as Hs.
  destruct (isort Qle_bool (dropna col)) as [|x0 xs] eqn:E; [discriminate|].
  intros Ht1 Ht2. inversion Ht1. inversion Ht2.
  apply interpolate_mono; auto. simpl. lia.
Qed.

(** ** The low-momentum rule *)

Lemma NoDup_fst_unique (A B : Type) (l : list (A * B)) (a : A) (b b' : B) :
  NoDup (map fst l) -> In (a, b) l -> In (a, b') l -> b = b'.
Proof.
  induction l as [|[a0 b0] l IH]; simpl; [tauto|].
  intros Hnd [H|H] [H'|H']; inversion Hnd as [|? ? Hnin Hnd']; subst.
  - congruence.
  - injection H as -> ->. exfalso. apply Hnin. apply in_map_iff. now exists (a, b').
  - injection H' as -> ->. exfalso. apply Hnin. apply in_map_iff. now exists (a, b).
  - eauto.
Qed.

Lemma in_below_quantile (q : Q) (row : list (symbol * cell)) (s : symbol) :
  In s (below_quantile q row) <->
  exists v thr, In (s, Some v) row /\ quantile q (map snd row) = Some thr
                /\ (v < thr)%Q.
Proof.
  unfold below_quantile. rewrite in_map_iff. split.
  - intros ([s0 c] & <- & Hin). apply filter_In in Hin. destruct Hin as [Hin Hlt].
    cbn [fst snd] in *. unfold cell_lt in Hlt. apply cell_gt_spec in Hlt.
    destruct Hlt as (thr & v & Hq & -> & Hlt). exists v, thr. auto.
  - intros (v & thr & Hin & Hq & Hlt). exists (s, Some v). split; [reflexivity|].
    apply filter_In. split; [exact Hin|]. cbn [fst snd]. unfold cell_lt.
    apply cell_gt_spec. exists thr, v. auto.
Qed.

Lemma in_above_quantile (q : Q) (row : list (symbol * cell)) (s : symbol) :
  In s (above_quantile q row) <->
  exists v thr, In (s, Some v) row /\ quantile q (map snd row) = Some thr
                /\ (thr < v)%Q.
Proof.
  unfold above_quantile. rewrite in_map_iff. split.
  - intros ([s0 c] & <- & Hin). apply filter_In in Hin. destruct Hin as [Hin Hlt].
    cbn [fst snd] in *. apply cell_gt_spec in Hlt.
    destruct Hlt as (v & thr & -> & Hq & Hlt). exists v, thr. auto.
  - intros (v & thr & Hin & Hq & Hlt). exists (s, Some v). split; [reflexivity|].
    apply filter_In. split; [exact Hin|]. cbn [fst snd].
    apply cell_gt_spec. exists v, thr. auto.
Qed.

Lemma NoDup_cross_section (col : ScoredRow -> cell) (stocks : dict (list ScoredRow))
  (m : label) :
  NoDup (keys stocks) -> NoDup (map fst (cross_section col stocks m)).
Proof.
  unfold cross_section, keys. rewrite map_map. simpl. auto.
Qed.

(** C2, as amended.  For the horizons 6 and 9 and a ticker with a defined
    score in the month's cross-section, the threshold (the quantile of level
    0.15 over the defined scores) exists, and the horizon's rule lists the
    ticker if and only if its score is strictly below the threshold; a
    ticker whose score equals the threshold is not listed by the rule.  The
    month's exclusion set is the union of the lists of the two horizons and
    of the high-beta rule. *)
Theorem low_momentum_strictly_below (q_beta : Q) (stocks : dict (list ScoredRow))
  (m : label) (h : nat) (s : symbol) (v : Q) :
  NoDup (keys stocks) ->
  In h [6; 9] ->
  In (s, Some v) (cross_section (changes_ h) stocks m) ->
  let row := cross_section (changes_ h) stocks m in
  exists thr,
    quantile QUANTILE_LOW_MOMENTUM (map snd row) = Some thr
    /\ (In s (below_quantile QUANTILE_LOW_MOMENTUM row) <-> (v < thr)%Q)
    /\ ((v == thr)%Q -> ~ In s (below_quantile QUANTILE_LOW_MOMENTUM row))
    /\ ((v < thr)%Q -> In s (neg_symbols QUANTILE_LOW_MOMENTUM q_beta stocks m))
    /\ (In s (neg_symbols QUANTILE_LOW_MOMENTUM q_beta stocks m) <->
          In s (below_quantile QUANTILE_LOW_MOMENTUM
                  (cross_section changes_6 stocks m))
          \/ In s (below_quantile QUANTILE_LOW_MOMENTUM
                     (cross_section changes_9 stocks m))
          \/ In s (above_quantile q_beta (cross_section s_beta stocks m))).
Proof.
  intros Hnd Hh Hin row.
  assert (Hdef : In (Some v) (map snd row)).
  { apply in_map_iff. now exists (s, Some v). }
  destruct (quantile_defined QUANTILE_LOW_MOMENTUM _ _ Hdef) as (thr & Hthr).
  assert (Hiff : In s (below_quantile QUANTILE_LOW_MOMENTUM row) <-> (v < thr)%Q).
  { rewrite in_below_quantile. split.
    - intros (v' & thr' & Hin' & Hq & Hlt).
      assert (Some v' = Some v)
        by (eapply NoDup_fst_unique; eauto; now apply NoDup_cross_section).
      congruence.
    - intro Hlt. exists v, thr. auto. }
  assert (Hunion : In s (neg_symbols QUANTILE_LOW_MOMENTUM q_beta stocks m) <->
          In s (below_quantile QUANTILE_LOW_MOMENTUM
                  (cross_section changes_6 stocks m))
          \/ In s (below_quantile QUANTILE_LOW_MOMENTUM
                     (cross_section changes_9 stocks m))
          \/ In s (above_quantile q_beta (cross_section s_beta stocks m))).
  { unfold neg_symbols. now rewrite !in_app_iff. }
  exists thr. split; [exact Hthr|]. split; [exact Hiff|]. split; [|split].
  - intros Heq Hs. apply Hiff in Hs. rewrite Heq in Hs. now apply Qlt_irrefl in Hs.
  - intro Hlt. apply Hunion. apply Hiff in Hlt.
    simpl in Hh. destruct Hh as [<-|[<-|[]]]; [left|right; left]; exact Hlt.
  - exact Hunion.
Qed.

Lemma low_momentum_strictly_below_witness :
  let stocks := Backtest.scored_stocks roc_spec twins [] in
  NoDup (keys stocks)
  /\ In ("aaa"%string, Some (600060 # 100000)) (cross_section (changes_ 6) stocks (23, 6))
  /\ exists thr,
       quantile QUANTILE_LOW_MOMENTUM
         (map snd (cross_section (changes_ 6) stocks (23, 6))) = Some thr
       /\ (In "aaa"%string
             (below_quantile QUANTILE_LOW_MOMENTUM
                (cross_section (changes_ 6) stocks (23, 6)))
           <-> (600060 # 100000 < thr)%Q).
Proof.
  intro stocks.
  assert (Hnd : NoDup (keys stocks)).
  { unfold stocks, Backtest.scored_stocks.
    rewrite (@keys_map_values _ _ (fun kv => Backtest.features roc_spec (snd kv))).
    apply keys_get_stocks_NoDup. }
  assert (Hh : In 6 [6; 9]) by (simpl; auto).
  assert (Hin : In ("aaa"%string, Some (600060 # 100000))
                   (cross_section (changes_ 6) stocks (23, 6))).
  { vm_compute. left. reflexivity. }
  split; [exact Hnd|]. split; [exact Hin|].
  destruct (@low_momentum_strictly_below Backtest.QUANTILE_HIGH_BETA stocks (23, 6) 6
              "aaa"%string (600060 # 100000) Hnd Hh Hin)
    as (thr & Hthr & Hiff & _).
  exists thr. split; [exact Hthr|exact Hiff].
Defined.

(** C2, as stated, fails: two tickers with the same prices have the same
    6-month score, which is then the threshold itself; their scores are at
    the threshold, and neither is in the month's exclusion set. *)
Lemma low_momentum_threshold_counterexample :
  let stocks := Backtest.scored_stocks roc_spec twins [] in
  ~ excluded_at_or_below QUANTILE_LOW_MOMENTUM
      (cross_section changes_6 stocks (23, 6))
      (neg_symbols QUANTILE_LOW_MOMENTUM Backtest.QUANTILE_HIGH_BETA stocks (23, 6)).
Proof.
  intros stocks H.
  specialize (H "aaa"%string (600060 # 100000)%Q (600060000000000000 # 100000000000000000)%Q).
  assert (Hin : In ("aaa"%string, Some (600060 # 100000))
                   (cross_section changes_6 stocks (23, 6))).
  { vm_compute. left. reflexivity. }
  assert (Hq : quantile QUANTILE_LOW_MOMENTUM
                 (map snd (cross_section changes_6 stocks (23, 6)))
               = Some (600060000000000000 # 100000000000000000)%Q).
  { vm_compute. reflexivity. }
  destruct (H Hin Hq) as [_ Hback].
  assert (Hle : (600060 # 100000 <= 600060000000000000 # 100000000000000000)%Q).
  { unfold Qle. simpl. lia. }
  specialize (Hback Hle). vm_compute in Hback. exact Hback.
Qed.

(** The same on five different scores at the level 0.25: the threshold is
    the score of [ddd], which stays; only [bbb] is strictly below. *)
Example below_quantile_five_scores :
  quantile (1 # 4) (map snd five_scores) = Some (4 # 4)
  /\ In ("ddd"%string, Some 1%Q) five_scores
  /\ below_quantile (1 # 4) five_scores = [ "bbb"%string ].
Proof. vm_compute. repeat split. now right; right; right; left. Qed.

(** ** The cutoff level *)

Lemma filter_weaken (A B : Type) (f g : A -> bool) (h : A -> B) (l : list A) :
  (forall x, In x l -> f x = true -> g x = true) ->
  incl (map h (filter f l)) (map h (filter g l))
  /\ length (map h (filter f l)) <= length (map h (filter g l)).
Proof.
  intro H. split.
  - intros y Hy. apply in_map_iff in Hy. destruct Hy as (x & <- & Hx).
    apply filter_In in Hx. destruct Hx as [Hx Hf].
    apply in_map, filter_In. auto.
  - rewrite !length_map. induction l as [|x l IH]; simpl; [lia|].
    assert (IH' : length (filter f l) <= length (filter g l))
      by (apply IH; intros y Hy; apply H; now right).
    destruct (f x) eqn:Hf.
    + rewrite (H x (or_introl eq_refl) Hf). simpl. lia.
    + destruct (g x); simpl; lia.
Qed.

Lemma below_quantile_mono (q1 q2 : Q) (row : list (symbol * cell)) :
  (0 <= q1)%Q -> (q1 <= q2)%Q -> (q2 <= 1)%Q ->
  incl (below_quantile q1 row) (below_quantile q2 row)
  /\ length (below_quantile q1 row) <= length (below_quantile q2 row).
Proof.
  intros H0 H12 H1. unfold below_quantile. apply filter_weaken.
  intros [s c] _ Hlt. cbn [snd] in *. unfold cell_lt in *.
  apply cell_gt_spec in Hlt. destruct Hlt as (t1 & v & Hq1 & -> & Hlt).
  assert (Hq2 : exists t2, quantile q2 (map snd row) = Some t2).
  { revert Hq1. unfold quantile.
    destruct (isort Qle_bool (dropna (map snd row))); [discriminate|eauto]. }
  destruct Hq2 as (t2 & Hq2).
  apply cell_gt_spec. exists t2, v. split; [exact Hq2|]. split; [reflexivity|].
  eapply Qlt_le_trans; [exact Hlt|].
  eapply quantile_mono; eauto.
Qed.

Lemma in_dedup (l : list string) (x : string) : In x (dedup l) <-> In x l.
Proof.
  induction l as [|y l IH]; simpl; [tauto|].
  destruct (existsb (String.eqb y) l) eqn:E.
  - rewrite IH. split; [auto|]. intros [<-|H]; [|exact H].
    now apply existsb_eqb_In.
  - simpl. now rewrite IH.
Qed.

Lemma NoDup_dedup (l : list string) : NoDup (dedup l).
Proof.
  induction l as [|y l IH]; simpl; [constructor|].
  destruct (existsb (String.eqb y) l) eqn:E; [exact IH|].
  constructor; [|exact IH].
  intro H. apply (proj1 (in_dedup _ _)) in H.
  apply (proj2 (existsb_eqb_In _ _)) in H. congruence.
Qed.

Lemma set_of_count_mono (a b : list symbol) :
  incl a b -> length (set_of a) <= length (set_of b).
Proof.
  intro H. apply NoDup_incl_length; [apply NoDup_dedup|].
  intros x Hx. apply (proj2 (in_dedup _ _)). apply H.
  now apply (proj1 (in_dedup _ _)).
Qed.

(** C9. For two cutoff levels [q1 <= q2] between 0 and 1 and any row of
    scores, every ticker listed by the low-momentum rule at level [q1] is
    listed at level [q2], and the list is no shorter; the same holds for
    the month's whole exclusion set, as a list and as a set of tickers. *)
Theorem low_momentum_monotone (q1 q2 q_beta : Q) (stocks : dict (list ScoredRow))
  (m : label) :
  (0 <= q1)%Q -> (q1 <= q2)%Q -> (q2 <= 1)%Q ->
  (forall row,
     incl (below_quantile q1 row) (below_quantile q2 row)
     /\ length (below_quantile q1 row) <= length (below_quantile q2 row))
  /\ incl (neg_symbols q1 q_beta stocks m) (neg_symbols q2 q_beta stocks m)
  /\ length (neg_symbols q1 q_beta stocks m)
     <= length (neg_symbols q2 q_beta stocks m)
  /\ length (set_of (neg_symbols q1 q_beta stocks m))
     <= length (set_of (neg_symbols q2 q_beta stocks m)).
Proof.
  intros H0 H12 H1.
  assert (Hrow : forall row,
             incl (below_quantile q1 row) (below_quantile q2 row)
             /\ length (below_quantile q1 row) <= length (below_quantile q2 row))
    by (intro row; now apply below_quantile_mono).
  split; [exact Hrow|].
  unfold neg_symbols.
  destruct (Hrow (cross_section changes_6 stocks m)) as [Hi6 Hl6].
  destruct (Hrow (cross_section changes_9 stocks m)) as [Hi9 Hl9].
  assert (Hincl : incl (below_quantile q1 (cross_section changes_6 stocks m)
                        ++ below_quantile q1 (cross_section changes_9 stocks m)
                        ++ above_quantile q_beta (cross_section s_beta stocks m))
                       (below_quantile q2 (cross_section changes_6 stocks m)
                        ++ below_quantile q2 (cross_section changes_9 stocks m)
                        ++ above_quantile q_beta (cross_section s_beta stocks m))).
  { apply incl_app; [apply incl_appl; exact Hi6|].
    apply incl_appr. apply incl_app; [apply incl_appl; exact Hi9|].
    apply incl_appr, incl_refl. }
  split; [exact Hincl|]. split.
  - rewrite !length_app. lia.
  - now apply set_of_count_mono.
Qed.

Lemma low_momentum_monotone_witness :
  (0 <= 15 # 100)%Q /\ (15 # 100 <= 30 # 100)%Q /\ (30 # 100 <= 1)%Q
  /\ below_quantile (15 # 100) five_scores = [ "bbb"%string ]
  /\ below_quantile (30 # 100) five_scores = [ "bbb"; "ddd" ]%string
  /\ incl (below_quantile (15 # 100) five_scores) (below_quantile (30 # 100) five_scores)
  /\ length (below_quantile (15 # 100) five_scores)
     <= length (below_quantile (30 # 100) five_scores).
Proof.
  assert (H0 : (0 <= 15 # 100)%Q) by (unfold Qle; simpl; lia).
  assert (H12 : (15 # 100 <= 30 # 100)%Q) by (unfold Qle; simpl; lia).
  assert (H1 : (30 # 100 <= 1)%Q) by (unfold Qle; simpl; lia).
  split; [exact H0|]. split; [exact H12|]. split; [exact H1|].
  split; [reflexivity|]. split; [reflexivity|].
  exact (proj1 (@low_momentum_monotone (15 # 100) (30 # 100)
                  Backtest.QUANTILE_HIGH_BETA [] (0, 0) H0 H12 H1) five_scores).
Defined.

(** ** The simulator *)

Lemma map_result_Raise (A B : Type) (f : A -> result B) (l : list A) (e : exn) :
  map_result f l = Raise e -> exists x, In x l /\ f x = Raise e.
Proof.
  induction l as [|x l IH]; simpl; [discriminate|].
  destruct (f x) as [y|e'] eqn:Hf; simpl.
  - destruct (map_result f l) as [ys|e'] eqn:Hl; simpl; [discriminate|].
    intro H. injection H as <-. destruct (IH eq_refl) as (x' & Hx' & Hfx').
    exists x'. auto.
  - intro H. injection H as <-. exists x. auto.
Qed.

Lemma map_result_Ok_or_Raise (A B : Type) (f : A -> result B) (l : list A) (x : A)
  (e : exn) :
  In x l -> f x = Raise e -> exists e', map_result f l = Raise e'.
Proof.
  induction l as [|y l IH]; simpl; [tauto|].
  intros [->|Hin] Hf.
  - rewrite Hf. simpl. eauto.
  - destruct (f y); simpl; [|eauto].
    destruct (IH Hin Hf) as (e' & ->). simpl. eauto.
Qed.

Lemma fill_position_Raise (stocks : dict (list Bar)) (pk : Backtest.Pick) (e : exn) :
  Backtest.fill_position stocks pk = Raise e -> e = KeyError.
Proof.
  unfold Backtest.fill_position.
  destruct (dict_get _ stocks); [|congruence].
  destruct (find _ _); discriminate.
Qed.

Lemma size_position_Raise (p : Backtest.Position) (e : exn) :
  Backtest.size_position p = Raise e -> e = IntCastingNaNError.
Proof.
  unfold Backtest.size_position, Backtest.shares.
  destruct (Backtest.p_buy p) as [b|]; simpl; [|congruence].
  destruct (Qeq_bool b 0); simpl; [congruence|].
  destruct (Backtest.p_sell p); [discriminate|congruence].
Qed.

(** C6 on the code.  When a selected pair has no bar data for its execution
    month (the ticker is not in the second download, or has no row for the
    month), the simulation does not complete: it raises [KeyError] or
    [IntCastingNaNError].  No position is dropped. *)
Theorem simulate_lookup_miss_raises (yf_download : data_source)
  (portfolio : list Backtest.Pick) (p : Backtest.Pick) :
  In p portfolio ->
  (forall df,
     dict_get (Backtest.pk_symbol p)
       (Backtest.get_stocks yf_download (unique [] (map Backtest.pk_symbol portfolio)))
     = Some df ->
     find (fun mb => label_eqb (Backtest.mb_month mb) (Backtest.pk_month p))
          (Backtest.bars_by_month df) = None) ->
  exists e, Backtest.simulate yf_download portfolio = Raise e
            /\ (e = KeyError \/ e = IntCastingNaNError).
Proof.
  intros Hp Hmiss. unfold Backtest.simulate.
  destruct portfolio as [|pk0 rest]; [destruct Hp|].
  set (stocks := Backtest.get_stocks yf_download
                   (unique [] (map Backtest.pk_symbol (pk0 :: rest)))) in *.
  destruct (map_result (Backtest.fill_position stocks) (pk0 :: rest))
    as [positions|e] eqn:Hfill; cbn [bind].
  - destruct (@Forall2_In_l _ _ _ _ _ _ (@map_result_Forall2 _ _ _ _ _ Hfill) Hp)
      as (pos & Hpos & Hpp).
    apply fill_position_ok in Hpp. destruct Hpp as (_ & _ & df & Hget & Hfind).
    rewrite (Hmiss df Hget) in Hfind.
    assert (Hsize : Backtest.size_position pos = Raise IntCastingNaNError).
    { unfold Backtest.size_position, Backtest.shares. now rewrite Hfind. }
    unfold Backtest.size_positions.
    destruct (forallb _ positions); cbn [bind]; [eauto|].
    destruct (map_result_Ok_or_Raise _ _ _ Hpos Hsize) as (e' & He').
    rewrite He'. cbn [bind]. exists e'. split; [reflexivity|].
    apply map_result_Raise in He'. destruct He' as (x & _ & Hx).
    right. eapply size_position_Raise; eauto.
  - exists e. split; [reflexivity|].
    apply map_result_Raise in Hfill. destruct Hfill as (x & _ & Hx).
    left. eapply fill_position_Raise; eauto.
Qed.

(** The picks of the run on [halted_source]: BBB is selected in January
    2024 and has no bar in February. *)
Example halted_portfolio :
  (tbl <- Backtest.prepare_stocks roc_spec halted_source both_members
            (get_monthly_index (index_days 16)) ;;
   Backtest.build_portfolio (Backtest.slice_from (mkDate 2016 12 1) tbl))
  = Ok [ Backtest.mkPick (2023, 12) "aaa"; Backtest.mkPick (2023, 12) "bbb";
         Backtest.mkPick (2024, 1) "aaa"; Backtest.mkPick (2024, 1) "bbb";
         Backtest.mkPick (2024, 2) "bbb"; Backtest.mkPick (2024, 3) "aaa" ]%string.
Proof. vm_compute. reflexivity. Qed.

Lemma simulate_lookup_miss_raises_witness :
  let portfolio :=
    [ Backtest.mkPick (2023, 12) "aaa"; Backtest.mkPick (2023, 12) "bbb";
      Backtest.mkPick (2024, 1) "aaa"; Backtest.mkPick (2024, 1) "bbb";
      Backtest.mkPick (2024, 2) "bbb"; Backtest.mkPick (2024, 3) "aaa" ]%string in
  In (Backtest.mkPick (2024, 2) "bbb"%string) portfolio
  /\ exists e, Backtest.simulate halted_source portfolio = Raise e
               /\ (e = KeyError \/ e = IntCastingNaNError).
Proof.
  intro portfolio.
  assert (Hin : In (Backtest.mkPick (2024, 2) "bbb"%string) portfolio).
  { unfold portfolio. simpl. tauto. }
  split; [exact Hin|].
  apply (@simulate_lookup_miss_raises halted_source portfolio
           (Backtest.mkPick (2024, 2) "bbb"%string) Hin).
  intros df Hget. vm_compute in Hget. injection Hget as <-.
  vm_compute. reflexivity.
Defined.

(** The whole run on that input. *)
Example halted_main :
  Backtest.main roc_spec halted_source both_members (index_days 16)
  = Raise IntCastingNaNError.
Proof. vm_compute. reflexivity. Qed.

(** When the simulation completes, no pick was dropped: there is one trade
    per pick, in order, bought at the open of the first bar of the
    execution month with [trunc(10000 / open)] shares. *)
Lemma simulate_sizing (yf_download : data_source) (portfolio : list Backtest.Pick)
  (trades : list Backtest.Trade) (months : list Backtest.Monthly) :
  Backtest.simulate yf_download portfolio = Ok (trades, months) ->
  Forall2
    (fun pk t =>
       Backtest.tr_symbol t = Backtest.pk_symbol pk
       /\ Backtest.tr_month t = Backtest.pk_month pk
       /\ exists df mb,
            dict_get (Backtest.pk_symbol pk)
              (Backtest.get_stocks yf_download
                 (unique [] (map Backtest.pk_symbol portfolio))) = Some df
            /\ find (fun mb => label_eqb (Backtest.mb_month mb) (Backtest.pk_month pk))
                    (Backtest.bars_by_month df) = Some mb
            /\ Backtest.tr_buy t = Backtest.mb_Open mb
            /\ Backtest.tr_sell t = Backtest.mb_Close mb
            /\ Backtest.tr_shares t = Qtrunc (10000 / Backtest.mb_Open mb)
            /\ Backtest.tr_invest t
               = (inject_Z (Backtest.tr_shares t) * Backtest.mb_Open mb)%Q)
    portfolio trades.
Proof.
  unfold Backtest.simulate. destruct portfolio as [|pk0 rest]; [discriminate|].
  set (stocks := Backtest.get_stocks yf_download
                   (unique [] (map Backtest.pk_symbol (pk0 :: rest)))) in *.
  destruct (map_result (Backtest.fill_position stocks) (pk0 :: rest))
    as [positions|e] eqn:Hfill; cbn [bind]; [|discriminate].
  destruct (Backtest.size_positions positions) as [ts|e] eqn:Hsize;
    cbn [bind]; [|discriminate].
  intro H. injection H as <- _.
  apply map_result_Forall2 in Hfill. apply size_positions_ok in Hsize.
  revert Hfill Hsize. generalize (pk0 :: rest) as pks. intros pks Hfill.
  revert ts. induction Hfill as [|pk pos pks positions Hpk Hrest IH]; intros ts Hsize.
  - inversion Hsize. constructor.
  - inversion Hsize as [|? t ? ts' Ht Hts]; subst. constructor; [|now apply IH].
    apply fill_position_ok in Hpk. destruct Hpk as (Hs & Hm & df & Hget & Hfind).
    apply size_position_ok in Ht.
    destruct Ht as (Hs' & Hm' & Hbuy & Hsell & _ & Hsh & Hinv & _).
    split; [congruence|]. split; [congruence|].
    destruct (find _ (Backtest.bars_by_month df)) as [mb|] eqn:Hf; [|congruence].
    destruct Hfind as [Hb Hsl].
    assert (Backtest.tr_buy t = Backtest.mb_Open mb) by congruence.
    assert (Backtest.tr_sell t = Backtest.mb_Close mb) by congruence.
    exists df, mb. split; [exact Hget|]. split; [exact Hf|].
    split; [assumption|]. split; [assumption|].
    split; [now rewrite Hsh, H|now rewrite Hinv, H].
Qed.

(** ** The last month of the scorer and the screener *)

Lemma length_imap (A B : Type) (f : nat -> A -> B) (k : nat) (l : list A) :
  length (imap f k l) = length l.
Proof.
  revert k. induction l as [|x l IH]; intro k; simpl; [reflexivity|].
  now rewrite IH.
Qed.

Lemma length_momentum (roc : list Q -> nat -> list cell) (shift_roc : bool)
  (df : list MonthRow) :
  length (momentum roc shift_roc df) = length df.
Proof. unfold momentum. apply length_imap. Qed.

Lemma np_where_score_nan (x : cell) : np_where_score x None = None.
Proof. unfold np_where_score. simpl. now rewrite andb_false_r. Qed.

Lemma momentum_last_undefined (roc : list Q -> nat -> list cell) (shift_roc : bool)
  (df : list MonthRow) (h j : nat) (r : ScoredRow) :
  In h [3; 6; 9; 12] ->
  nth_error (momentum roc shift_roc df) j = Some r ->
  S j = length (momentum roc shift_roc df) ->
  changes_ h r = None.
Proof.
  intros Hh Hr Hlast. rewrite length_momentum in Hlast.
  destruct (@momentum_nth roc shift_roc df j r h Hh Hr) as [_ ->].
  rewrite rolling_col_nth. unfold dircount.
  replace (j + 1 <? length df) with false
    by (symmetry; apply Nat.ltb_ge; lia).
  apply np_where_score_nan.
Qed.

Lemma find_nth_error (A : Type) (f : A -> bool) (l : list A) (x : A) :
  find f l = Some x -> exists j, nth_error l j = Some x /\ f x = true.
Proof.
  intro H. apply find_some in H. destruct H as [Hin Hf].
  apply In_nth_error in Hin. destruct Hin as (j & Hj). eauto.
Qed.

Lemma iloc_neg_map (A B : Type) (f : A -> B) (k : nat) (l : list A) (y : B) :
  iloc_neg k (map f l) = Ok y -> exists x, iloc_neg k l = Ok x /\ y = f x.
Proof.
  unfold iloc_neg. rewrite <- map_rev, nth_error_map.
  destruct (nth_error (rev l) (k - 1)) as [x|]; simpl; [|discriminate].
  intro H. injection H as <-. eauto.
Qed.

Lemma dropna_cols_all_nan (cols : list (symbol * cell)) :
  (forall s c, In (s, c) cols -> c = None) -> dropna_cols cols = [].
Proof.
  induction cols as [|[s [v|]] cols IH]; simpl; intro H; [reflexivity| |].
  - specialize (H s (Some v) (or_introl eq_refl)). discriminate.
  - apply IH. intros s' c Hin. apply (H s' c). now right.
Qed.

Lemma set_inter_nil (a : list symbol) : set_inter a [] = [].
Proof. unfold set_inter. induction a as [|x a IH]; simpl; auto. Qed.

Lemma set_diff_nil (a : list symbol) : set_diff a [] = a.
Proof.
  unfold set_diff. induction a as [|x a IH]; [reflexivity|].
  change (x :: filter (fun s => negb (existsb (String.eqb s) [])) a = x :: a).
  f_equal. exact IH.
Qed.

Section ScreenerLastMonth.
Variable roc : list Q -> nat -> list cell.
Variable yf_download : data_source.
Variable sp_500_list : list string.

Let stocks := Screener.scored_stocks roc yf_download sp_500_list.

Lemma scored_stocks_last_undefined (sym : symbol) (df : list ScoredRow)
  (h j : nat) (r : ScoredRow) :
  In (sym, df) stocks -> In h [3; 6; 9; 12] ->
  nth_error df j = Some r -> S j = length df -> changes_ h r = None.
Proof.
  unfold stocks, Screener.scored_stocks. intros Hin Hh Hr Hlast.
  apply in_map_iff in Hin. destruct Hin as ([k bars] & Heq & _).
  injection Heq as _ <-. cbn [snd] in *. unfold Screener.features in *.
  eapply momentum_last_undefined; eauto.
Qed.

Lemma last_row_all_nan (index : list IndexRow) (r1 : TableRow) :
  aligned index stocks ->
  iloc_neg 1 (Screener.prepare_stocks roc yf_download sp_500_list index) = Ok r1 ->
  dropna_cols (t_cols r1) = [].
Proof.
  intros Hal Hr1. unfold Screener.prepare_stocks, filtered_table in Hr1.
  apply iloc_neg_map in Hr1. destruct Hr1 as (ir & Hir & ->). cbn [t_cols].
  apply dropna_cols_all_nan. intros s c Hin.
  unfold apply_exclusion in Hin. apply in_map_iff in Hin.
  destruct Hin as ([s0 c0] & Heq & Hin0).
  assert (Hc0 : c0 = None).
  { unfold cross_section in Hin0. apply in_map_iff in Hin0.
    destruct Hin0 as ([k df] & Heq0 & Hkdf). injection Heq0 as _ <-.
    cbn [snd]. unfold merged_cell.
    destruct (find _ df) as [r|] eqn:Hf; [|reflexivity].
    apply find_nth_error in Hf. destruct Hf as (j & Hj & Hm).
    apply label_eqb_spec in Hm.
    apply (@scored_stocks_last_undefined k df 12 j r Hkdf); simpl; auto.
    exact (Hal ir k df j r Hir Hkdf Hj Hm). }
  subst c0. cbn [fst] in Heq.
  destruct (existsb _ _); injection Heq as _ <-; reflexivity.
Qed.

(** C4, as amended.  In the screener, every score of the last row of a
    ticker's monthly series is undefined.  When no ticker has a monthly
    row after the latest month of the index, the last row of the table has
    no defined score, the selection for the next month is empty; and a
    run that reports changes reports nothing added, nothing unchanged,
    and the current selection as removed. *)
Theorem screener_next_month_empty (sp_500_daily : list IndexDay) :
  let index := get_monthly_index sp_500_daily in
  let tbl := Screener.prepare_stocks roc yf_download sp_500_list index in
  (forall sym df h j r,
     In (sym, df) stocks -> In h [3; 6; 9; 12] ->
     nth_error df j = Some r -> S j = length df -> changes_ h r = None)
  /\ (aligned index stocks ->
      (forall r1, iloc_neg 1 tbl = Ok r1 ->
         dropna_cols (t_cols r1) = []
         /\ forall l, get_top_stocks (dropna_row r1) = Ok l -> l = [])
      /\ forall ch,
           Screener.main roc yf_download sp_500_list sp_500_daily = Ok (Some ch) ->
           Screener.added_stocks ch = []
           /\ Screener.unchanged_stocks ch = []
           /\ exists r2 current,
                iloc_neg 2 tbl = Ok r2
                /\ get_top_stocks (dropna_row r2) = Ok current
                /\ Screener.removed_stocks ch = set_of current).
Proof.
  intros index tbl.
  split; [intros sym df h j r; apply scored_stocks_last_undefined|].
  intro Hal.
  assert (Hnext : forall r1, iloc_neg 1 tbl = Ok r1 ->
             dropna_cols (t_cols r1) = []
             /\ forall l, get_top_stocks (dropna_row r1) = Ok l -> l = []).
  { intros r1 Hr1. pose proof (last_row_all_nan Hal Hr1) as Hnan.
    split; [exact Hnan|].
    intro l. unfold get_top_stocks, dropna_row. cbn [f_month f_Close f_sma f_symbols].
    rewrite Hnan. destruct (t_Close r1); [|discriminate].
    destruct (t_sma r1); [|discriminate].
    intro H. injection H as <-. reflexivity. }
  split; [exact Hnext|].
  intros ch Hmain. unfold Screener.main in Hmain. fold index tbl in Hmain.
  destruct (iloc_neg 1 index) as [last_row|e]; cbn [bind] in Hmain; [|discriminate].
  destruct (cell_gt (ix_Close last_row) (ix_sma last_row)); [|discriminate].
  destruct (iloc_neg 2 tbl) as [r2|e] eqn:Hr2; cbn [bind] in Hmain; [|discriminate].
  destruct (get_top_stocks (dropna_row r2)) as [current|e] eqn:Hcur;
    cbn [bind] in Hmain; [|discriminate].
  destruct (iloc_neg 1 tbl) as [r1|e] eqn:Hr1; cbn [bind] in Hmain; [|discriminate].
  destruct (get_top_stocks (dropna_row r1)) as [next|e] eqn:Hnx;
    cbn [bind] in Hmain; [|discriminate].
  destruct (Hnext r1 eq_refl) as [_ Hempty].
  rewrite (Hempty next Hnx) in Hmain.
  injection Hmain as <-. cbn [Screener.added_stocks Screener.unchanged_stocks
                               Screener.removed_stocks].
  split; [reflexivity|]. split; [apply set_inter_nil|].
  exists r2, current. split; [reflexivity|]. split; [exact Hcur|].
  apply set_diff_nil.
Qed.
End ScreenerLastMonth.

Lemma alignedb_sound (index : list IndexRow) (stocks : dict (list ScoredRow)) :
  alignedb index stocks = true -> aligned index stocks.
Proof.
  unfold alignedb, aligned. intros Hb ir sym df j r Hir Hin Hj Hm.
  rewrite Hir in Hb. rewrite forallb_forall in Hb.
  specialize (Hb (sym, df) Hin). cbn [snd] in Hb. rewrite forallb_forall in Hb.
  assert (Hlt : j < length df) by (apply nth_error_Some; congruence).
  destruct (Nat.eq_dec (S j) (length df)) as [Heq|Hne]; [exact Heq|exfalso].
  assert (Hfirst : nth_error (firstn (length df - 1) (map s_month df)) j
                   = Some (s_month r)).
  { rewrite nth_error_firstn.
    replace (j <? length df - 1) with true by (symmetry; apply Nat.ltb_lt; lia).
    now rewrite nth_error_map, Hj. }
  apply nth_error_In in Hfirst. apply Hb in Hfirst.
  rewrite Hm in Hfirst. apply negb_true_iff in Hfirst.
  rewrite (proj2 (label_eqb_spec _ _) eq_refl) in Hfirst. discriminate.
Qed.

Lemma aligned_aaa :
  aligned (get_monthly_index (index_days 14))
          (Screener.scored_stocks roc_spec aaa_source []).
Proof. apply alignedb_sound. vm_compute. reflexivity. Qed.

Lemma screener_next_month_empty_witness :
  aligned (get_monthly_index (index_days 14))
          (Screener.scored_stocks roc_spec aaa_source [])
  /\ exists ch,
       Screener.main roc_spec aaa_source [] (index_days 14) = Ok (Some ch)
       /\ Screener.added_stocks ch = []
       /\ Screener.unchanged_stocks ch = []
       /\ Screener.removed_stocks ch = [ "aaa"%string ].
Proof.
  split; [exact aligned_aaa|].
  destruct (Screener.main roc_spec aaa_source [] (index_days 14)) as [[ch|]|e] eqn:Hmain.
  - exists ch. split; [reflexivity|].
    destruct (proj2 (@screener_next_month_empty roc_spec aaa_source [] (index_days 14))
                aligned_aaa) as [_ Hch].
    destruct (Hch ch Hmain) as (Ha & Hu & _).
    split; [exact Ha|]. split; [exact Hu|].
    vm_compute in Hmain. injection Hmain as <-. reflexivity.
  - vm_compute in Hmain. discriminate.
  - vm_compute in Hmain. discriminate.
Defined.

(** C4, as stated, fails: the ticker has a bar in February 2024 and the
    index frame ends in January 2024.  The ticker's January row is not its
    last one, its score there is defined, and the selection for the next
    month holds it: it is reported as added, and nothing is removed. *)
Lemma screener_next_month_counterexample :
  (exists r1,
     iloc_neg 1 (Screener.prepare_stocks roc_spec late_source []
                   (get_monthly_index (index_days 13))) = Ok r1
     /\ get_top_stocks (dropna_row r1) = Ok [ "aaa"%string ])
  /\ Screener.main roc_spec late_source [] (index_days 13)
     = Ok (Some {| Screener.unchanged_stocks := [];
                   Screener.removed_stocks := [];
                   Screener.added_stocks := [ "aaa"%string ] |}).
Proof.
  split.
  - eexists. split; [vm_compute; reflexivity|]. vm_compute. reflexivity.
  - vm_compute. reflexivity.
Qed.


(* ================================================================== *)
(** * Part III.  Further properties of the code                         *)
(* ================================================================== *)

(** ** The price loader [get_stocks] *)

Lemma lower_ascii_idem (c : ascii) : lower_ascii (lower_ascii c) = lower_ascii c.
Proof.
  destruct c as [[] [] [] [] [] [] [] []]; reflexivity.
Qed.

Lemma lower_idem (s : string) : lower (lower s) = lower s.
Proof.
  induction s as [|c s IH]; simpl; [reflexivity|].
  now rewrite lower_ascii_idem, IH.
Qed.

Lemma in_clean_bars (raw : list RawBar) (b : Bar) :
  In b (clean_bars raw) <->
  exists r, In r raw
    /\ r_Date r = b_Date b /\ r_Open r = Some (b_Open b)
    /\ r_High r = Some (b_High b) /\ r_Low r = Some (b_Low b)
    /\ r_Close r = Some (b_Close b) /\ r_Volume r = Some (b_Volume b)
    /\ ~ (b_High b == b_Low b)%Q.
Proof.
  induction raw as [|r raw IH]; simpl.
  - split; [tauto|]. intros (r & [] & _).
  - assert (Hskip : In b (clean_bars raw) ->
              exists r0, (r = r0 \/ In r0 raw)
                /\ r_Date r0 = b_Date b /\ r_Open r0 = Some (b_Open b)
                /\ r_High r0 = Some (b_High b) /\ r_Low r0 = Some (b_Low b)
                /\ r_Close r0 = Some (b_Close b) /\ r_Volume r0 = Some (b_Volume b)
                /\ ~ (b_High b == b_Low b)%Q).
    { intro H. apply IH in H. destruct H as (r0 & Hin & H). exists r0. tauto. }
    destruct (cell_eqb (r_High r) (r_Low r)) eqn:Heq; simpl.
    + split; [exact Hskip|].
      intros (r0 & [<-|Hin] & Hd & Ho & Hh & Hl & Hc & Hv & Hne).
      * exfalso. rewrite Hh, Hl in Heq. simpl in Heq.
        apply Qeq_bool_iff in Heq. contradiction.
      * apply IH. exists r0. tauto.
    + destruct (r_Open r) as [o|] eqn:Eo; destruct (r_High r) as [h|] eqn:Eh;
        destruct (r_Low r) as [l|] eqn:El; destruct (r_Close r) as [c|] eqn:Ec;
        destruct (r_Volume r) as [v|] eqn:Ev;
        try (split; [exact Hskip|];
             intros (r0 & [<-|Hin] & Hd & Ho & Hh & Hl & Hc & Hv & Hne);
             [congruence|apply IH; exists r0; tauto]).
      simpl. split.
      * intros [<-|Hin]; [|now apply Hskip].
        exists r. simpl. repeat split; auto.
        simpl in Heq. intro Hq. apply Qeq_bool_iff in Hq. congruence.
      * intros (r0 & [<-|Hin] & Hd & Ho & Hh & Hl & Hc & Hv & Hne).
        -- left. destruct b. simpl in *. congruence.
        -- right. apply IH. exists r0. tauto.
Qed.

Lemma in_dict_set (V : Type) (k k' : symbol) (v v' : V) (dct : dict V) :
  In (k', v') (dict_set k v dct) -> (k', v') = (k, v) \/ In (k', v') dct.
Proof.
  induction dct as [|[k0 v0] dct IH]; simpl.
  - intros [H|[]]. left. now symmetry.
  - destruct (String.eqb k k0); simpl.
    + intros [H|H]; [left; now symmetry|right; now right].
    + intros [H|H]; [right; now left|].
      destruct (IH H) as [H'|H']; [now left|right; now right].
Qed.

Lemma in_dict_discard (V : Type) (k : symbol) (kv : symbol * V) (dct : dict V) :
  In kv (dict_discard k dct) -> In kv dct.
Proof.
  induction dct as [|[k0 v0] dct IH]; simpl; [tauto|].
  destruct (String.eqb k k0); simpl; intuition.
Qed.

(** What makes a frame of the loader: a lower-case key, at least one row,
    every row taken from the answer of the source with all its fields
    defined and a high different from its low. *)
Lemma collect_stocks_frames (stock_data : list (string * list RawBar))
  (dfs : dict (list Bar)) (k : symbol) (df : list Bar) :
  In (k, df) (collect_stocks stock_data dfs) ->
  In (k, df) dfs
  \/ exists sym raw, In (sym, raw) stock_data /\ k = lower sym
                     /\ df = clean_bars raw /\ df <> [].
Proof.
  revert dfs. induction stock_data as [|[sym raw] rest IH]; simpl; intros dfs H.
  - now left.
  - apply IH in H. destruct H as [H|(sym' & raw' & Hin & Hk & Hdf & Hne)].
    + destruct (clean_bars raw) as [|b bs] eqn:Hc; [now left|].
      apply in_dict_set in H. destruct H as [H|H]; [|now left].
      injection H as -> ->. right. exists sym, raw. rewrite Hc.
      repeat split; auto. discriminate.
    + right. exists sym', raw'. auto.
Qed.


Lemma in_keys_collect_stocks (stock_data : list (string * list RawBar))
  (dfs : dict (list Bar)) (k : symbol) :
  In k (keys (collect_stocks stock_data dfs)) <->
  In k (keys dfs)
  \/ exists sym raw, In (sym, raw) stock_data /\ lower sym = k /\ clean_bars raw <> [].
Proof.
  revert dfs. induction stock_data as [|[sym raw] rest IH]; simpl; intro dfs.
  - split; [now left|]. intros [H|(sym & raw & [] & _)]. exact H.
  - rewrite IH. destruct (clean_bars raw) as [|b bs] eqn:Hc.
    + split.
      * intros [H|(s & r & Hin & Hk & Hne)]; [now left|].
        right. exists s, r. auto.
      * intros [H|(s & r & [Heq|Hin] & Hk & Hne)]; [now left| |].
        -- injection Heq as <- <-. congruence.
        -- right. exists s, r. auto.
    + split.
      * intros [H|(s & r & Hin & Hk & Hne)].
        -- apply in_keys_dict_set in H. destruct H as [->|H]; [|now left].
           right. exists sym, raw. rewrite Hc. repeat split; auto. discriminate.
        -- right. exists s, r. auto.
      * intros [H|(s & r & [Heq|Hin] & Hk & Hne)].
        -- left. apply in_keys_dict_set. now right.
        -- injection Heq as <- <-. left. apply in_keys_dict_set. now left.
        -- right. exists s, r. auto.
Qed.

Lemma in_keys_dict_discard_iff (V : Type) (k k' : symbol) (dct : dict V) :
  NoDup (keys dct) ->
  (In k' (keys (dict_discard k dct)) <-> k' <> k /\ In k' (keys dct)).
Proof.
  intro Hnd. split.
  - intro H. split.
    + intros ->. now apply (@not_in_keys_dict_discard _ k dct Hnd).
    + eapply in_keys_dict_discard; eauto.
  - intros [Hne Hin]. induction dct as [|[k0 v0] dct IH]; simpl in *; [tauto|].
    inversion Hnd as [|? ? Hnin Hnd']; subst.
    destruct (String.eqb_spec k k0) as [->|Hk]; simpl.
    + destruct Hin as [->|Hin]; [congruence|exact Hin].
    + destruct Hin as [->|Hin]; [now left|right; now apply IH].
Qed.

(** X1. In both files the loader returns a dict with lower-case keys;
    each frame is the cleaned answer of the source for a ticker of
    that spelling, has at least one row, and none of its rows has a high
    equal to its low. *)
Theorem get_stocks_frames (yf_download : data_source) (symbols : list string)
  (k : symbol) (df : list Bar) :
  In (k, df) (Screener.get_stocks yf_download symbols)
  \/ In (k, df) (Backtest.get_stocks yf_download symbols) ->
  lower k = k
  /\ df <> []
  /\ (forall b, In b df -> ~ (b_High b == b_Low b)%Q)
  /\ exists sym raw, In (sym, raw) (yf_download symbols)
                     /\ k = lower sym /\ df = clean_bars raw.
Proof.
  intro H.
  assert (Hin : In (k, df) (collect_stocks (yf_download symbols) [])).
  { destruct H as [H|H]; [exact H|].
    unfold Backtest.get_stocks in H. eapply in_dict_discard; eauto. }
  apply collect_stocks_frames in Hin.
  destruct Hin as [[]|(sym & raw & Hraw & -> & -> & Hne)].
  split; [apply lower_idem|]. split; [exact Hne|]. split.
  - intros b Hb. apply in_clean_bars in Hb.
    destruct Hb as (r & _ & _ & _ & _ & _ & _ & _ & Hq). exact Hq.
  - exists sym, raw. auto.
Qed.

Lemma get_stocks_frames_witness :
  In ("aaa"%string, clean_bars (rising 1 2)) (Screener.get_stocks mixed_source [])
  /\ lower "aaa" = "aaa"%string
  /\ clean_bars (rising 1 2) <> [].
Proof.
  assert (Hin : In ("aaa"%string, clean_bars (rising 1 2))
                   (Screener.get_stocks mixed_source [])).
  { vm_compute. left. reflexivity. }
  split; [exact Hin|].
  destruct (@get_stocks_frames mixed_source [] "aaa"%string
              (clean_bars (rising 1 2)) (or_introl Hin)) as (Hl & Hne & _).
  split; [exact Hl|exact Hne].
Defined.

(** X2. A lower-case key is in the screener's dict exactly when the source
    answered for a ticker of that spelling with at least one usable row: a
    ticker whose rows are all stale or incomplete is absent.  The
    backtest's dict has the same keys but [googl]. *)
Theorem get_stocks_keys (yf_download : data_source) (symbols : list string)
  (k : symbol) :
  NoDup (keys (Screener.get_stocks yf_download symbols))
  /\ NoDup (keys (Backtest.get_stocks yf_download symbols))
  /\ (In k (keys (Screener.get_stocks yf_download symbols)) <->
      exists sym raw, In (sym, raw) (yf_download symbols)
                      /\ lower sym = k /\ clean_bars raw <> [])
  /\ (In k (keys (Backtest.get_stocks yf_download symbols)) <->
      k <> "googl"%string /\ In k (keys (Screener.get_stocks yf_download symbols))).
Proof.
  assert (Hnd : NoDup (keys (Screener.get_stocks yf_download symbols))).
  { unfold Screener.get_stocks. apply NoDup_keys_collect_stocks. constructor. }
  split; [exact Hnd|]. split; [apply keys_get_stocks_NoDup|]. split.
  - unfold Screener.get_stocks. rewrite in_keys_collect_stocks. simpl. tauto.
  - unfold Backtest.get_stocks. now apply in_keys_dict_discard_iff.
Qed.

Example get_stocks_mixed :
  keys (Screener.get_stocks mixed_source []) = [ "aaa"; "brk-b" ]%string
  /\ dict_get "brk-b"%string (Screener.get_stocks mixed_source [])
     = Some (clean_bars (rising 0 2)).
Proof. vm_compute. split; reflexivity. Qed.


(** ** [add_indicators] *)

Lemma length_pct_change (prev : option Q) (closes : list Q) :
  length (pct_change prev closes) = length closes.
Proof.
  revert prev. induction closes as [|c closes IH]; intro prev; simpl; auto.
Qed.

Lemma nth_error_pct_change (prev : option Q) (closes : list Q) (i : nat) :
  nth_error (pct_change prev closes) i =
  match nth_error closes i with
  | None => None
  | Some c =>
      Some (match (match i with 0 => prev | S j => nth_error closes j end) with
            | None => None
            | Some p => option_map (fun q => (q - 1)%Q) (quot c p)
            end)
  end.
Proof.
  revert prev i. induction closes as [|c closes IH]; intros prev i.
  - destruct i; reflexivity.
  - destruct i as [|i]; simpl; [reflexivity|].
    rewrite IH. destruct (nth_error closes i) as [c'|] eqn:E; [|reflexivity].
    destruct i; simpl in *; [reflexivity|]. reflexivity.
Qed.

Lemma sign_values (x : Q) : sign x = 1%Q \/ sign x = 0%Q \/ sign x = (-1)%Q.
Proof.
  unfold sign. destruct (Qltb 0 x); [now left|].
  destruct (Qltb x 0); [now right; right|now right; left].
Qed.

Lemma nth_error_combine (A B : Type) (l : list A) (l' : list B) (i : nat) :
  nth_error (combine l l') i =
  match nth_error l i, nth_error l' i with
  | Some a, Some b => Some (a, b)
  | _, _ => None
  end.
Proof.
  revert l' i. induction l as [|a l IH]; intros l' i.
  - destruct i; reflexivity.
  - destruct l' as [|b l']; [destruct i; simpl; [reflexivity|now destruct (nth_error l i)]|].
    destruct i; simpl; [reflexivity|apply IH].
Qed.

(** ** Rounding and the direction of a day *)

Lemma sign_spec (z : Q) :
  (sign z = 1%Q <-> (0 < z)%Q)
  /\ (sign z = 0%Q <-> (z == 0)%Q)
  /\ (sign z = (-1)%Q <-> (z < 0)%Q).
Proof.
  unfold sign.
  destruct (Qltb 0 z) eqn:Hp.
  - apply Qltb_spec in Hp. repeat split; intro H; try discriminate; try lra; auto.
  - assert (Hnp : ~ (0 < z)%Q) by (intro H; apply Qltb_spec in H; congruence).
    destruct (Qltb z 0) eqn:Hn.
    + apply Qltb_spec in Hn. repeat split; intro H; try discriminate; try lra; auto.
    + assert (Hnn : ~ (z < 0)%Q) by (intro H; apply Qltb_spec in H; congruence).
      repeat split; intro H; try discriminate; try lra; auto.
Qed.

Lemma Qltb_false (x y : Q) : Qltb x y = false <-> (y <= x)%Q.
Proof.
  split.
  - intro H. apply Qnot_lt_le. intro Hlt. apply Qltb_spec in Hlt. congruence.
  - intro H. apply not_true_iff_false. intro Hlt. apply Qltb_spec in Hlt. lra.
Qed.

Lemma Qfloor_bounds (y : Q) :
  (inject_Z (Qfloor y) <= y)%Q /\ (y < inject_Z (Qfloor y) + 1)%Q.
Proof.
  split; [apply Qfloor_le|].
  pose proof (Qlt_floor y) as H. rewrite inject_Z_plus in H. exact H.
Qed.

Lemma scaled_sign (n : Z) :
  ((n = 0)%Z -> (inject_Z n / inject_Z (10 ^ Z.of_nat 2) == 0)%Q)
  /\ ((1 <= n)%Z -> (0 < inject_Z n / inject_Z (10 ^ Z.of_nat 2))%Q)
  /\ ((n <= -1)%Z -> (inject_Z n / inject_Z (10 ^ Z.of_nat 2) < 0)%Q).
Proof.
  change (inject_Z (10 ^ Z.of_nat 2)) with 100%Q.
  split; [intros ->; reflexivity|]. split; intro H.
  - assert (Hq : (1 <= inject_Z n)%Q) by (change 1%Q with (inject_Z 1); now rewrite <- Zle_Qle).
    apply Qlt_shift_div_l; lra.
  - assert (Hq : (inject_Z n <= -1)%Q) by (change (-1)%Q with (inject_Z (-1)); now rewrite <- Zle_Qle).
    apply Qlt_shift_div_r; lra.
Qed.

Lemma round2_band (x : Q) :
  (- (1 # 200) <= x)%Q -> (x <= 1 # 200)%Q -> (round_half_even 2 x == 0)%Q.
Proof.
  intros Hlo Hhi. unfold round_half_even.
  change (inject_Z (10 ^ Z.of_nat 2)) with 100%Q.
  set (y := (x * 100)%Q).
  assert (Hy1 : (- (1 # 2) <= y)%Q) by (unfold y; lra).
  assert (Hy2 : (y <= 1 # 2)%Q) by (unfold y; lra).
  assert (Hf : (Qfloor y = 0 \/ Qfloor y = -1)%Z).
  { pose proof (Qfloor_resp_le _ _ Hy1) as H1. pose proof (Qfloor_resp_le _ _ Hy2) as H2.
    change (Qfloor (- (1 # 2))) with (-1)%Z in H1. change (Qfloor (1 # 2)) with 0%Z in H2.
    lia. }
  destruct (Qfloor_bounds y) as [Hb1 Hb2].
  destruct Hf as [Hf|Hf]; rewrite Hf in *; cbn [Z.even Z.add] in *.
  - destruct (Qltb (y - inject_Z 0) (1 # 2)) eqn:E1; [reflexivity|].
    destruct (Qltb (1 # 2) (y - inject_Z 0)) eqn:E2; [|reflexivity].
    apply Qltb_spec in E2. change (inject_Z 0) with 0%Q in *. lra.
  - destruct (Qltb (y - inject_Z (-1)) (1 # 2)) eqn:E1.
    + apply Qltb_spec in E1. change (inject_Z (-1)) with (-1)%Q in *. lra.
    + destruct (Qltb (1 # 2) (y - inject_Z (-1))); reflexivity.
Qed.

Lemma round2_above (x : Q) :
  (1 # 200 < x)%Q -> (0 < round_half_even 2 x)%Q.
Proof.
  intro Hx. unfold round_half_even.
  set (y := (x * inject_Z (10 ^ Z.of_nat 2))%Q).
  assert (Hy : (1 # 2 < y)%Q)
    by (unfold y; change (inject_Z (10 ^ Z.of_nat 2)) with 100%Q; lra).
  assert (Hf : (0 <= Qfloor y)%Z).
  { assert (Hle : (1 # 2 <= y)%Q) by lra.
    pose proof (Qfloor_resp_le _ _ Hle) as H. change (Qfloor (1 # 2)) with 0%Z in H.
    exact H. }
  destruct (Qfloor_bounds y) as [Hb1 Hb2].
  assert (Hz : Qfloor y = 0%Z -> (y - inject_Z (Qfloor y) == y)%Q).
  { intros ->. change (inject_Z 0) with 0%Q. lra. }
  apply (proj1 (proj2 (scaled_sign _))).
  destruct (Qltb (y - inject_Z (Qfloor y)) (1 # 2)) eqn:E1.
  - apply Qltb_spec in E1.
    destruct (Z.eq_dec (Qfloor y) 0) as [H0|H0]; [|lia].
    rewrite (Hz H0) in E1. lra.
  - destruct (Qltb (1 # 2) (y - inject_Z (Qfloor y))) eqn:E2; [lia|].
    apply Qltb_false in E1, E2.
    destruct (Z.even (Qfloor y)); [|lia].
    destruct (Z.eq_dec (Qfloor y) 0) as [H0|H0]; [|lia].
    rewrite (Hz H0) in E2. lra.
Qed.

Lemma round2_below (x : Q) :
  (x < - (1 # 200))%Q -> (round_half_even 2 x < 0)%Q.
Proof.
  intro Hx. unfold round_half_even.
  set (y := (x * inject_Z (10 ^ Z.of_nat 2))%Q).
  assert (Hy : (y < - (1 # 2))%Q)
    by (unfold y; change (inject_Z (10 ^ Z.of_nat 2)) with 100%Q; lra).
  assert (Hf : (Qfloor y <= -1)%Z).
  { assert (Hle : (y <= - (1 # 2))%Q) by lra.
    pose proof (Qfloor_resp_le _ _ Hle) as H.
    change (Qfloor (- (1 # 2))) with (-1)%Z in H. exact H. }
  destruct (Qfloor_bounds y) as [Hb1 Hb2].
  assert (Hz : Qfloor y = (-1)%Z -> (y - inject_Z (Qfloor y) == y + 1)%Q).
  { intros ->. change (inject_Z (-1)) with (-1)%Q. lra. }
  apply (proj2 (proj2 (scaled_sign _))).
  destruct (Qltb (y - inject_Z (Qfloor y)) (1 # 2)) eqn:E1; [lia|].
  apply Qltb_false in E1.
  destruct (Z.eq_dec (Qfloor y) (-1)) as [H1|H1].
  - rewrite (Hz H1) in E1. lra.
  - destruct (Qltb (1 # 2) (y - inject_Z (Qfloor y))); [lia|].
    destruct (Z.even (Qfloor y)); lia.
Qed.

Lemma sign_round2_cases (x : Q) :
  ((- (1 # 200) <= x)%Q -> (x <= 1 # 200)%Q -> sign (round_half_even 2 x) = 0%Q)
  /\ ((1 # 200 < x)%Q -> sign (round_half_even 2 x) = 1%Q)
  /\ ((x < - (1 # 200))%Q -> sign (round_half_even 2 x) = (-1)%Q).
Proof.
  destruct (sign_spec (round_half_even 2 x)) as (S1 & S0 & Sm).
  split; [|split].
  - intros H1 H2. apply S0. now apply round2_band.
  - intro H. apply S1. now apply round2_above.
  - intro H. apply Sm. now apply round2_below.
Qed.

Lemma sign_round2_sound (x : Q) :
  (sign (round_half_even 2 x) = 1%Q -> (0 < x)%Q)
  /\ (sign (round_half_even 2 x) = (-1)%Q -> (x < 0)%Q)
  /\ ((x == 0)%Q -> sign (round_half_even 2 x) = 0%Q).
Proof.
  destruct (sign_round2_cases x) as (C0 & C1 & Cm).
  assert (Hcases : ((- (1 # 200) <= x)%Q /\ (x <= 1 # 200)%Q)
                   \/ (1 # 200 < x)%Q \/ (x < - (1 # 200))%Q).
  { destruct (Qlt_le_dec x (- (1 # 200))) as [H|H]; [now right; right|].
    destruct (Qlt_le_dec (1 # 200) x) as [H'|H']; [now right; left|now left]. }
  split; [|split].
  - intro H. destruct Hcases as [[H1 H2]|[Hc|Hc]].
    + rewrite (C0 H1 H2) in H. discriminate.
    + lra.
    + rewrite (Cm Hc) in H. discriminate.
  - intro H. destruct Hcases as [[H1 H2]|[Hc|Hc]].
    + rewrite (C0 H1 H2) in H. discriminate.
    + rewrite (C1 Hc) in H. discriminate.
    + lra.
  - intro H. apply C0; lra.
Qed.

(** ** The rows of [add_indicators] *)

Lemma pct_sign (c p : Q) :
  (0 < p)%Q ->
  ((0 < c / p - 1)%Q <-> (p < c)%Q)
  /\ ((c / p - 1 < 0)%Q <-> (c < p)%Q)
  /\ ((c / p - 1 == 0)%Q <-> (c == p)%Q).
Proof.
  intro Hp.
  assert (Hq : (c / p - 1 == (c - p) / p)%Q) by (field; lra).
  rewrite Hq.
  assert (Hinv : (0 < / p)%Q) by now apply Qinv_lt_0_compat.
  unfold Qdiv. split; [|split]; split; intro H.
  - assert (0 < (c - p))%Q; [|lra].
    destruct (Qlt_le_dec 0 (c - p)) as [Hc|Hc]; [exact Hc|exfalso]. nra.
  - nra.
  - assert ((c - p) < 0)%Q; [|lra].
    destruct (Qlt_le_dec (c - p) 0) as [Hc|Hc]; [exact Hc|exfalso]. nra.
  - nra.
  - assert (c - p == 0)%Q; [|lra].
    destruct (Qmult_integral _ _ H) as [Hz|Hz]; [exact Hz|lra].
  - assert (Hz : (c - p == 0)%Q) by lra. rewrite Hz. lra.
Qed.

Lemma add_indicators_next (rounded : bool) (data : list Bar) (j : nat)
  (p : Bar) (r : IndRow) :
  nth_error data j = Some p -> (0 < b_Close p)%Q ->
  nth_error (add_indicators rounded data) (S j) = Some r ->
  nth_error data (S j) = Some (i_bar r)
  /\ i_pct r = Some (b_Close (i_bar r) / b_Close p - 1)%Q
  /\ i_changes r
     = Some (sign (if rounded
                   then round_half_even 2 (b_Close (i_bar r) / b_Close p - 1)
                   else (b_Close (i_bar r) / b_Close p - 1)%Q)).
Proof.
  intros Hp Hpos Hr. unfold add_indicators in Hr.
  rewrite nth_error_map, nth_error_combine in Hr.
  rewrite nth_error_pct_change, !nth_error_map, Hp in Hr.
  destruct (nth_error data (S j)) as [b|] eqn:Hb; simpl in Hr; [|discriminate].
  unfold quot in Hr.
  assert (Hz : Qeq_bool (b_Close p) 0 = false).
  { apply not_true_iff_false. intro H. apply Qeq_bool_iff in H. lra. }
  rewrite Hz in Hr. simpl in Hr. injection Hr as <-.
  cbn [i_bar i_pct i_changes]. repeat split; reflexivity.
Qed.

(** X3. [add_indicators] keeps the rows and their order.  The first row
    has neither a percent change nor a direction.  After a row with a
    positive close, a row has both: the change is the close over the
    previous close, minus one, and the direction is one of 1, 0 and -1; it
    agrees with the move of the close, in both files: a day counted up
    closed higher than the day before, a day counted down closed lower,
    and a day that closed where the day before did is flat. *)
Theorem add_indicators_rows (rounded : bool) (data : list Bar) :
  length (add_indicators rounded data) = length data
  /\ forall i r,
       nth_error (add_indicators rounded data) i = Some r ->
       nth_error data i = Some (i_bar r)
       /\ (i = 0 -> i_pct r = None /\ i_changes r = None)
       /\ (forall j p, i = S j -> nth_error data j = Some p ->
             (0 < b_Close p)%Q ->
             exists x c,
               i_pct r = Some x
               /\ (x == b_Close (i_bar r) / b_Close p - 1)%Q
               /\ i_changes r = Some c
               /\ (c = 1%Q \/ c = 0%Q \/ c = (-1)%Q)
               /\ (c = 1%Q -> (b_Close p < b_Close (i_bar r))%Q)
               /\ (c = (-1)%Q -> (b_Close (i_bar r) < b_Close p)%Q)
               /\ ((b_Close (i_bar r) == b_Close p)%Q -> c = 0%Q)).
Proof.
  split.
  - unfold add_indicators.
    rewrite length_map, length_combine, length_pct_change, length_map. lia.
  - intros i r Hr. split; [|split].
    + unfold add_indicators in Hr. rewrite nth_error_map, nth_error_combine in Hr.
      rewrite nth_error_pct_change, nth_error_map in Hr.
      destruct (nth_error data i) as [b|] eqn:Hb; simpl in Hr; [|discriminate].
      injection Hr as <-. reflexivity.
    + intros ->. unfold add_indicators in Hr.
      rewrite nth_error_map, nth_error_combine in Hr.
      rewrite nth_error_pct_change, nth_error_map in Hr.
      destruct (nth_error data 0) as [b|] eqn:Hb; simpl in Hr; [|discriminate].
      injection Hr as <-. split; reflexivity.
    + intros j p -> Hp Hpos.
      destruct (add_indicators_next rounded data j Hp Hpos Hr) as (_ & Hpct & Hch).
      set (x := (b_Close (i_bar r) / b_Close p - 1)%Q) in *.
      destruct (pct_sign (b_Close (i_bar r)) Hpos) as (P1 & Pm & P0). fold x in P1, Pm, P0.
      exists x, (sign (if rounded then round_half_even 2 x else x)).
      split; [exact Hpct|]. split; [reflexivity|]. split; [exact Hch|].
      split; [apply sign_values|].
      destruct rounded.
      * destruct (sign_round2_sound x) as (R1 & Rm & R0).
        split; [intro H; apply P1, R1, H|].
        split; [intro H; apply Pm, Rm, H|].
        intro H. apply R0, P0, H.
      * destruct (sign_spec x) as (S1 & S0 & Sm).
        split; [intro H; apply P1, S1, H|].
        split; [intro H; apply Pm, Sm, H|].
        intro H. apply S0, P0, H.
Qed.

Lemma add_indicators_rows_witness :
  exists r,
    nth_error (add_indicators true quiet_days) 2 = Some r
    /\ i_changes r = Some 1%Q
    /\ (1992 # 10 < b_Close (i_bar r))%Q.
Proof.
  destruct (nth_error (add_indicators true quiet_days) 2) as [r|] eqn:Hr;
    [|vm_compute in Hr; discriminate].
  exists r. split; [reflexivity|].
  assert (Hc : i_changes r = Some 1%Q).
  { vm_compute in Hr. injection Hr as <-. reflexivity. }
  split; [exact Hc|].
  destruct (proj2 (add_indicators_rows true quiet_days) 2 r Hr) as (_ & _ & Hnext).
  destruct (Hnext 1 (mkBar (mkDate 2023 1 3) 200 201 199 (1992 # 10) 1000)
              eq_refl eq_refl eq_refl)
    as (x & c & _ & _ & Hch & _ & Hup & _).
  rewrite Hc in Hch. injection Hch as <-. now apply Hup.
Defined.

(** X4. What the two files make of a small move.  After a row with a
    positive close, the backtest, which rounds the change to two decimals
    before it takes the sign, counts the day flat when the close moved by
    at most 0.4999 percent of the previous close, up when it rose by at
    least 0.5001 percent and down when it fell by as much; the screener
    counts the day flat only when the close did not move.  So a move
    that is not zero and below half a percent counts in the screener and
    not in the backtest.  The edge of half a percent itself is left out:
    there the exact change and its floating-point value can round to
    different sides. *)
Theorem direction_small_moves (data : list Bar) (j : nat) (p : Bar)
  (rb rs : IndRow) :
  nth_error data j = Some p -> (0 < b_Close p)%Q ->
  nth_error (add_indicators true data) (S j) = Some rb ->
  nth_error (add_indicators false data) (S j) = Some rs ->
  let prev := b_Close p in
  let move := (b_Close (i_bar rb) - prev)%Q in
  i_bar rs = i_bar rb
  /\ ((- ((4999 # 1000000) * prev) <= move)%Q ->
      (move <= (4999 # 1000000) * prev)%Q -> i_changes rb = Some 0%Q)
  /\ (((5001 # 1000000) * prev <= move)%Q -> i_changes rb = Some 1%Q)
  /\ ((move <= - ((5001 # 1000000) * prev))%Q -> i_changes rb = Some (-1)%Q)
  /\ (i_changes rs = Some 0%Q <-> (move == 0)%Q)
  /\ (i_changes rs = Some 1%Q <-> (0 < move)%Q)
  /\ (i_changes rs = Some (-1)%Q <-> (move < 0)%Q).
Proof.
  intros Hp Hpos Hb Hs prev move.
  destruct (add_indicators_next true data j Hp Hpos Hb) as (Hbb & _ & Hcb).
  destruct (add_indicators_next false data j Hp Hpos Hs) as (Hbs & _ & Hcs).
  assert (Hbar : i_bar rs = i_bar rb) by congruence.
  rewrite Hbar in Hcs. fold prev in Hcb, Hcs, Hpos.
  set (c := b_Close (i_bar rb)) in *.
  set (x := (c / prev - 1)%Q) in *.
  assert (Hx : (x * prev == move)%Q) by (unfold x, move; field; lra).
  destruct (sign_round2_cases x) as (C0 & C1 & Cm).
  destruct (sign_spec x) as (S1 & S0 & Sm).
  destruct (@pct_sign c prev Hpos) as (P1 & Pm & P0). fold x in P1, Pm, P0.
  split; [exact Hbar|].
  split; [|split; [|split; [|split; [|split]]]].
  - intros H1 H2. rewrite Hcb. f_equal. apply C0.
    + destruct (Qlt_le_dec x (- (1 # 200))) as [Hc|Hc]; [exfalso; nra|exact Hc].
    + destruct (Qlt_le_dec (1 # 200) x) as [Hc|Hc]; [exfalso; nra|exact Hc].
  - intro H. rewrite Hcb. f_equal. apply C1.
    destruct (Qlt_le_dec (1 # 200) x) as [Hc|Hc]; [exact Hc|exfalso; nra].
  - intro H. rewrite Hcb. f_equal. apply Cm.
    destruct (Qlt_le_dec x (- (1 # 200))) as [Hc|Hc]; [exact Hc|exfalso; nra].
  - rewrite Hcs. split.
    + intro H. injection H as H. apply S0, P0 in H. unfold move. lra.
    + intro H. f_equal. apply S0, P0. unfold move in H. lra.
  - rewrite Hcs. split.
    + intro H. injection H as H. apply S1, P1 in H. unfold move. lra.
    + intro H. f_equal. apply S1, P1. unfold move in H. lra.
  - rewrite Hcs. split.
    + intro H. injection H as H. apply Sm, Pm in H. unfold move. lra.
    + intro H. f_equal. apply Sm, Pm. unfold move in H. lra.
Qed.

Lemma direction_small_moves_witness :
  exists rb rs,
    nth_error (add_indicators true quiet_days) 1 = Some rb
    /\ nth_error (add_indicators false quiet_days) 1 = Some rs
    /\ i_changes rb = Some 0%Q
    /\ i_changes rs = Some (-1)%Q.
Proof.
  destruct (nth_error (add_indicators true quiet_days) 1) as [rb|] eqn:Hb;
    [|vm_compute in Hb; discriminate].
  destruct (nth_error (add_indicators false quiet_days) 1) as [rs|] eqn:Hs;
    [|vm_compute in Hs; discriminate].
  exists rb, rs. split; [reflexivity|]. split; [reflexivity|].
  assert (Hbar : i_bar rb = mkBar (mkDate 2023 1 3) 200 201 199 (1992 # 10) 1000).
  { vm_compute in Hb. injection Hb as <-. reflexivity. }
  destruct (@direction_small_moves quiet_days 0
              (mkBar (mkDate 2023 1 2) 200 201 199 200 1000) rb rs
              eq_refl eq_refl Hb Hs)
    as (_ & Hflat & _ & _ & _ & _ & Hdown).
  rewrite Hbar in Hflat, Hdown. cbn [b_Close] in Hflat, Hdown.
  split; [apply Hflat; vm_compute; discriminate|].
  apply Hdown. reflexivity.
Defined.


(** ** [max_beta] *)

Lemma Qsum_app (a b : list Q) : (Qsum (a ++ b) == Qsum a + Qsum b)%Q.
Proof.
  induction a as [|x a IH]; simpl; [lra|]. rewrite IH. lra.
Qed.

Lemma Qsum_perm (a b : list Q) : Permutation a b -> (Qsum a == Qsum b)%Q.
Proof.
  induction 1; simpl; try lra.
Qed.

Lemma top_five_avg_nan (pcts : list Q) : top_five_avg pcts = None <-> pcts = [].
Proof.
  unfold top_five_avg. split.
  - destruct (firstn 5 (isort (fun a b => Qle_bool b a) pcts)) as [|x xs] eqn:E;
      [|discriminate].
    intros _. apply (f_equal (@length Q)) in E.
    rewrite length_firstn, length_isort in E. simpl in E.
    destruct pcts; [reflexivity|simpl in E; lia].
  - intros ->. reflexivity.
Qed.

Lemma top_five_avg_few (pcts : list Q) :
  pcts <> [] -> length pcts <= 5 ->
  exists b, top_five_avg pcts = Some b
            /\ (b == Qsum pcts / inject_Z (Z.of_nat (length pcts)))%Q.
Proof.
  intros Hne Hlen. unfold top_five_avg.
  rewrite firstn_all2 by (now rewrite length_isort).
  destruct (isort (fun a b => Qle_bool b a) pcts) as [|x xs] eqn:E.
  - apply (f_equal (@length Q)) in E. rewrite length_isort in E.
    destruct pcts; [congruence|discriminate].
  - eexists. split; [reflexivity|]. rewrite <- E.
    rewrite length_isort. rewrite (Qsum_perm (isort_perm _ pcts)). reflexivity.
Qed.

(** X5. [max_beta] keeps the rows and their columns and adds the column
    [beta]: the value of a row depends on its month only; it is NaN exactly
    when no percent change of the month is defined; and in a month with at
    most five defined changes it is their mean. *)
Theorem max_beta_rows (df : list IndRow) :
  length (max_beta df) = length df
  /\ forall i r,
       nth_error (max_beta df) i = Some r ->
       exists ir,
         nth_error df i = Some ir
         /\ d_Date r = b_Date (i_bar ir) /\ d_Open r = b_Open (i_bar ir)
         /\ d_Close r = b_Close (i_bar ir)
         /\ d_pct r = i_pct ir /\ d_changes r = i_changes ir
         /\ d_beta r = top_five_avg (month_pcts df (strftime_ym (d_Date r)))
         /\ (d_beta r = None <-> month_pcts df (strftime_ym (d_Date r)) = [])
         /\ (month_pcts df (strftime_ym (d_Date r)) <> [] ->
             length (month_pcts df (strftime_ym (d_Date r))) <= 5 ->
             exists b, d_beta r = Some b
               /\ (b == Qsum (month_pcts df (strftime_ym (d_Date r)))
                        / inject_Z (Z.of_nat (length (month_pcts df
                                                        (strftime_ym (d_Date r))))))%Q).
Proof.
  unfold max_beta. split; [apply length_map|].
  intros i r Hr. rewrite nth_error_map in Hr.
  destruct (nth_error df i) as [ir|]; simpl in Hr; [|discriminate].
  injection Hr as <-. exists ir. cbn [d_Date d_Open d_Close d_pct d_changes d_beta].
  fold (month_pcts df (strftime_ym (b_Date (i_bar ir)))).
  repeat split; try reflexivity.
  - apply top_five_avg_nan.
  - apply top_five_avg_nan.
  - apply top_five_avg_few.
Qed.

Lemma max_beta_rows_witness :
  exists r b,
    nth_error (max_beta (add_indicators true (clean_bars (rising 0 3)))) 2 = Some r
    /\ d_beta r = Some b
    /\ (b == Qsum [ (120 / 110 - 1)%Q ] / inject_Z (Z.of_nat 1))%Q.
Proof.
  set (df := add_indicators true (clean_bars (rising 0 3))).
  destruct (nth_error (max_beta df) 2) as [r|] eqn:Hr; [|vm_compute in Hr; discriminate].
  destruct (proj2 (max_beta_rows df) 2 r Hr) as (ir & _ & _ & _ & _ & _ & _ & _ & _ & Hfew).
  assert (Hm : month_pcts df (strftime_ym (d_Date r)) = [ (120 / 110 - 1)%Q ]).
  { vm_compute in Hr. injection Hr as <-. reflexivity. }
  rewrite Hm in Hfew.
  destruct Hfew as (b & Hb & Heq); [discriminate|simpl; lia|].
  exists r, b. split; [reflexivity|]. split; [exact Hb|].
  exact Heq.
Defined.


(** ** [groupby] *)

Lemma NoDup_distinct_labels (ls : list label) : NoDup (distinct_labels ls).
Proof.
  induction ls as [|l ls IH]; simpl; [constructor|].
  destruct (existsb (label_eqb l) ls) eqn:E; [exact IH|].
  constructor; [|exact IH].
  intro H. apply (proj1 (in_distinct_labels _ _)) in H.
  assert (existsb (label_eqb l) ls = true); [|congruence].
  apply existsb_exists. exists l. split; [exact H|].
  now apply label_eqb_spec.
Qed.

Lemma groupby_keys (R : Type) (key : R -> label) (df : list R) :
  map fst (groupby key df) = isort label_leb (distinct_labels (map key df)).
Proof.
  unfold groupby. rewrite map_map. simpl. apply map_id.
Qed.

Lemma NoDup_groupby_keys (R : Type) (key : R -> label) (df : list R) :
  NoDup (map fst (groupby key df)).
Proof.
  rewrite groupby_keys.
  eapply Permutation_NoDup; [symmetry; apply isort_perm|].
  apply NoDup_distinct_labels.
Qed.

Lemma groupby_nonempty (R : Type) (key : R -> label) (df : list R)
  (k : label) (g : list R) :
  In (k, g) (groupby key df) -> g <> [].
Proof.
  intro H. apply in_groupby in H. destruct H as [Hk ->].
  apply in_map_iff in Hk. destruct Hk as (x & Hx & Hin).
  intro He.
  assert (Hf : In x (filter (fun r => label_eqb (key r) k) df)).
  { apply filter_In. split; [exact Hin|]. now apply label_eqb_spec. }
  rewrite He in Hf. exact Hf.
Qed.

Lemma filter_partition (R : Type) (key : R -> label) (df : list R) (ks : list label) :
  NoDup ks -> (forall x, In x df -> In (key x) ks) ->
  Permutation (concat (map (fun k => filter (fun r => label_eqb (key r) k) df) ks)) df.
Proof.
  intros Hnd. induction df as [|x df IH]; intro Hcov.
  - simpl. clear. induction ks as [|k ks IHk]; simpl; [constructor|exact IHk].
  - assert (Hx : In (key x) ks) by (apply Hcov; now left).
    assert (IH' : Permutation
              (concat (map (fun k => filter (fun r => label_eqb (key r) k) df) ks)) df)
      by (apply IH; intros y Hy; apply Hcov; now right).
    clear IH Hcov.
    apply in_split in Hx. destruct Hx as (ks1 & ks2 & ->).
    assert (Hn1 : ~ In (key x) ks1 /\ ~ In (key x) ks2).
    { apply NoDup_remove_2 in Hnd. split; intro H; apply Hnd, in_or_app; auto. }
    destruct Hn1 as [Hn1 Hn2].
    assert (Hsame : forall ks0, ~ In (key x) ks0 ->
              map (fun k => filter (fun r => label_eqb (key r) k) (x :: df)) ks0
              = map (fun k => filter (fun r => label_eqb (key r) k) df) ks0).
    { intros ks0 Hn. apply map_ext_in. intros k Hk. simpl.
      destruct (label_eqb (key x) k) eqn:E; [|reflexivity].
      apply label_eqb_spec in E. subst k. contradiction. }
    rewrite !map_app, !concat_app in *. simpl map in *. simpl concat in *.
    rewrite (Hsame ks1 Hn1), (Hsame ks2 Hn2).
    simpl filter. rewrite (proj2 (label_eqb_spec (key x) (key x)) eq_refl).
    simpl app. rewrite <- Permutation_middle. now constructor.
Qed.

Lemma groupby_partition (R : Type) (key : R -> label) (df : list R) :
  Permutation (concat (map snd (groupby key df))) df.
Proof.
  unfold groupby. rewrite map_map. simpl.
  apply filter_partition.
  - eapply Permutation_NoDup; [symmetry; apply isort_perm|].
    apply NoDup_distinct_labels.
  - intros x Hx. apply (proj2 (isort_In _ _ _)).
    apply (proj2 (in_distinct_labels _ _)). now apply in_map.
Qed.

(** ** Dates *)

Lemma date_leb_spec (a b : date) :
  date_leb a b = true <->
  year a < year b
  \/ (year a = year b /\ (mon a < mon b \/ (mon a = mon b /\ day a <= day b))).
Proof.
  unfold date_leb.
  rewrite orb_true_iff, andb_true_iff, orb_true_iff, andb_true_iff.
  rewrite !Nat.ltb_lt, !Nat.eqb_eq, Nat.leb_le. tauto.
Qed.

Lemma date_leb_total (a b : date) : date_leb a b = true \/ date_leb b a = true.
Proof. rewrite !date_leb_spec. lia. Qed.

Lemma date_leb_trans (a b c : date) :
  date_leb a b = true -> date_leb b c = true -> date_leb a c = true.
Proof. rewrite !date_leb_spec. lia. Qed.

(** ** The monthly rows of [resample_stocks_to_month] *)

Lemma month_rows_labels (gs : list (label * list DayRow)) :
  (forall kg, In kg gs -> snd kg <> []) ->
  map m_month (flat_map (fun kg => agg_month (fst kg) (snd kg)) gs) = map fst gs.
Proof.
  induction gs as [|[k g] gs IH]; simpl; intro H; [reflexivity|].
  destruct g as [|r0 g]; [exfalso; now apply (H (k, []) (or_introl eq_refl))|].
  simpl. f_equal. apply IH. intros kg Hkg. apply H. now right.
Qed.

(** X6. The monthly frame has one row per month of the daily frame, each
    month once; its rows are in ascending order of their date; the date
    of a monthly row is the date of a daily row of that month, so the
    label of a row is the label of its own date. *)
Theorem resample_months (df : list DayRow) :
  NoDup (map m_month (resample_stocks_to_month df))
  /\ (forall m, In m (map m_month (resample_stocks_to_month df))
                <-> In m (map day_label df))
  /\ StronglySorted (fun a b => date_leb (m_Date a) (m_Date b) = true)
                    (resample_stocks_to_month df)
  /\ forall r, In r (resample_stocks_to_month df) ->
       m_month r = strftime_ym (m_Date r)
       /\ exists x, In x df /\ d_Date x = m_Date r.
Proof.
  assert (Hlab : Permutation
            (map m_month (resample_stocks_to_month df))
            (map fst (groupby (fun r => strftime_ym (d_Date r)) df))).
  { unfold resample_stocks_to_month.
    rewrite (Permutation_map m_month (isort_perm month_date_leb _)).
    rewrite month_rows_labels; [reflexivity|].
    intros [k g] Hkg. simpl. eapply groupby_nonempty; eauto. }
  split; [|split; [|split]].
  - eapply Permutation_NoDup; [symmetry; exact Hlab|]. apply NoDup_groupby_keys.
  - intro m. split.
    + intro H. apply (Permutation_in _ Hlab) in H. rewrite groupby_keys in H.
      apply (proj1 (isort_In _ _ _)) in H.
      now apply (proj1 (in_distinct_labels _ _)) in H.
    + intro H. apply (Permutation_in _ (Permutation_sym Hlab)).
      rewrite groupby_keys. apply (proj2 (isort_In _ _ _)).
      now apply (proj2 (in_distinct_labels _ _)).
  - unfold resample_stocks_to_month. apply isort_sorted.
    + intros a b. apply date_leb_total.
    + intros a b c. apply date_leb_trans.
  - intros r Hr. destruct (@in_resample _ _ Hr) as (r0 & g & Hf & _ & _ & Hd).
    pose proof (last_in g r0 r0) as Hl. rewrite <- Hf in Hl.
    apply filter_In in Hl. destruct Hl as [Hin Hm]. apply label_eqb_spec in Hm.
    rewrite Hf in Hin, Hm. unfold day_label in Hm.
    split.
    + rewrite Hd. symmetry. exact Hm.
    + exists (last (r0 :: g) r0). split; [exact Hin|now symmetry].
Qed.

Lemma dropna_app (a b : list cell) : dropna (a ++ b) = dropna a ++ dropna b.
Proof.
  induction a as [|[x|] a IH]; simpl; [reflexivity| |]; now rewrite ?IH.
Qed.

Lemma dropna_perm (a b : list cell) : Permutation a b -> Permutation (dropna a) (dropna b).
Proof.
  induction 1 as [|x a b H IH|x y a|a b c H1 IH1 H2 IH2]; simpl.
  - constructor.
  - destruct x; [now constructor|exact IH].
  - destruct x, y; try reflexivity. apply perm_swap.
  - etransitivity; eauto.
Qed.

Lemma month_rows_changes (gs : list (label * list DayRow)) :
  (Qsum (map m_changes (flat_map (fun kg => agg_month (fst kg) (snd kg)) gs))
   == Qsum (dropna (map d_changes (concat (map snd gs)))))%Q.
Proof.
  induction gs as [|[k g] gs IH]; simpl; [reflexivity|].
  rewrite map_app, Qsum_app, map_app, dropna_app, Qsum_app, IH.
  destruct g as [|r0 g]; simpl; lra.
Qed.

(** X7. Resampling conserves the net direction: the monthly values of
    [changes] add up to the sum of the daily directions that are not NaN. *)
Theorem resample_conserves_direction (df : list DayRow) :
  (Qsum (map m_changes (resample_stocks_to_month df))
   == Qsum (dropna (map d_changes df)))%Q.
Proof.
  unfold resample_stocks_to_month.
  rewrite (Qsum_perm (Permutation_map m_changes (isort_perm month_date_leb _))).
  rewrite month_rows_changes.
  apply Qsum_perm, dropna_perm, Permutation_map, groupby_partition.
Qed.


(** ** The rows of [momentum] *)

Lemma np_where_score_cases (x c : cell) :
  cell_gt (np_where_score x c) (Some 0%Q) = cell_gt c (Some 0%Q)
  /\ (np_where_score x c = None <-> c = None)
  /\ (forall v cv, np_where_score x c = Some v -> c = Some cv -> (cv <= v)%Q).
Proof.
  unfold np_where_score.
  destruct (cell_gt x (Some 0%Q) && cell_gt c (Some 0%Q)) eqn:E.
  - apply andb_true_iff in E. destruct E as [Ex Ec].
    pose proof Ex as Ex'. pose proof Ec as Ec'.
    apply cell_gt_spec in Ex'. destruct Ex' as (xv & z & -> & Hz & Hx).
    apply cell_gt_spec in Ec'. destruct Ec' as (cv & z' & -> & Hz' & Hc).
    injection Hz as <-. injection Hz' as <-.
    assert (Hd : (0 < xv / 1000)%Q) by (apply Qlt_shift_div_l; lra).
    simpl cell_add. split; [|split].
    + rewrite Ec. apply cell_gt_spec. exists (cv + xv / 1000)%Q, 0%Q.
      repeat split. lra.
    + split; discriminate.
    + intros v cv' Hv Hcv. injection Hv as <-. injection Hcv as <-. lra.
  - split; [reflexivity|]. split; [tauto|].
    intros v cv -> Hcv. injection Hcv as ->. lra.
Qed.

(** X8. [momentum] keeps the rows and the columns it is given.  For each
    horizon [h], the score of a row is positive exactly when its trailing
    direction count is, it is NaN exactly when the count is, and it is
    never below the count.  It is NaN exactly in the last row and in the
    first [h - 2] rows, those with fewer than [h - 2] rows before them:
    the count of row [i] is the sum of the [h] rows ending at row [i + 1]. *)
Theorem momentum_rows (roc : list Q -> nat -> list cell) (shift_roc : bool)
  (df : list MonthRow) (i : nat) (r : ScoredRow) :
  nth_error (momentum roc shift_roc df) i = Some r ->
  length (momentum roc shift_roc df) = length df
  /\ (exists m, nth_error df i = Some m
        /\ s_Date r = m_Date m /\ s_month r = m_month m
        /\ s_Open r = m_Open m /\ s_Close r = m_Close m
        /\ s_beta r = m_beta m /\ s_changes r = m_changes m)
  /\ forall h, In h [3; 6; 9; 12] ->
       cell_gt (changes_ h r) (Some 0%Q) = cell_gt (dircount h df i) (Some 0%Q)
       /\ (changes_ h r = None <-> dircount h df i = None)
       /\ (forall v c, changes_ h r = Some v -> dircount h df i = Some c -> (c <= v)%Q)
       /\ (changes_ h r = None <-> i + 2 < h \/ S i = length df).
Proof.
  intro Hr. split; [apply length_momentum|]. split.
  - unfold momentum in Hr. rewrite nth_error_imap in Hr.
    destruct (nth_error df i) as [m|]; simpl in Hr; [|discriminate].
    injection Hr as <-. exists m. simpl. repeat split.
  - intros h Hh.
    destruct (@momentum_nth roc shift_roc df i r h Hh Hr) as [Hi Heq].
    rewrite rolling_col_nth in Heq. rewrite Heq.
    destruct (np_where_score_cases
                (nth i (roc_col roc shift_roc h df) None) (dircount h df i))
      as (H1 & H2 & H3).
    split; [exact H1|]. split; [exact H2|]. split; [exact H3|].
    rewrite H2. unfold dircount.
    destruct (Nat.ltb_spec (i + 1) (length df)) as [Hlt|Hge];
      destruct (Nat.leb_spec h (i + 2)) as [Hle|Hgt]; cbn [andb].
    + split; [discriminate|lia].
    + split; [intros _; left; lia|reflexivity].
    + split; [intros _; right; lia|reflexivity].
    + split; [intros _; left; lia|reflexivity].
Qed.

Lemma momentum_rows_witness :
  exists r,
    nth_error (momentum roc_spec true five_months) 2 = Some r
    /\ cell_gt (changes_ 3 r) (Some 0%Q) = true
    /\ changes_ 6 r = None.
Proof.
  destruct (nth_error (momentum roc_spec true five_months) 2) as [r|] eqn:Hr;
    [|vm_compute in Hr; discriminate].
  exists r. split; [reflexivity|].
  destruct (@momentum_rows roc_spec true five_months 2 r Hr) as (_ & _ & Hh).
  split.
  - destruct (Hh 3) as (H1 & _); [simpl; auto|]. rewrite H1. reflexivity.
  - destruct (Hh 6) as (_ & _ & _ & H4); [simpl; auto|]. apply H4. left. lia.
Defined.

(** ** The quantile and the two rules *)

Lemma in_dropna (col : list cell) (v : Q) : In v (dropna col) <-> In (Some v) col.
Proof.
  induction col as [|[c|] col IH]; simpl; [tauto| |].
  - rewrite IH. split; (intros [H|H]; [left; congruence|now right]).
  - rewrite IH. split; [now right|]. intros [H|H]; [discriminate|exact H].
Qed.

Lemma interpolate_bounds (l : list Q) (x0 q : Q) :
  StronglySorted (fun a b => Qle_bool a b = true) l -> length l >= 1 ->
  (0 <= q)%Q -> (q <= 1)%Q ->
  (nth 0 l x0 <= interpolate l x0 q)%Q
  /\ (interpolate l x0 q <= nth (length l - 1) l x0)%Q.
Proof.
  intros Hs Hlen H0 H1. unfold interpolate.
  set (n := length l) in *.
  destruct (@quantile_position n q H0 H1) as (Hlo & Hi & Hg & Hg').
  set (pos := (inject_Z (Z.of_nat (n - 1)) * q)%Q) in *.
  set (lo := Z.to_nat (Qfloor pos)) in *.
  set (hi := Nat.min (lo + 1) (n - 1)).
  set (g := (pos - inject_Z (Qfloor pos))%Q) in *.
  assert (Ha : (nth 0 l x0 <= nth lo l x0)%Q)
    by (apply sorted_nth_le; [exact Hs|lia|fold n; lia]).
  assert (Hb : (nth lo l x0 <= nth hi l x0)%Q)
    by (apply sorted_nth_le; [exact Hs|unfold hi; lia|unfold hi; fold n; lia]).
  assert (Hc : (nth hi l x0 <= nth (n - 1) l x0)%Q)
    by (apply sorted_nth_le; [exact Hs|unfold hi; lia|fold n; lia]).
  set (a := nth lo l x0) in *. set (b := nth hi l x0) in *.
  split; nra.
Qed.

Lemma quantile_bounds (q : Q) (col : list cell) (t : Q) :
  (0 <= q)%Q -> (q <= 1)%Q -> quantile q col = Some t ->
  (exists v, In (Some v) col /\ (v <= t)%Q)
  /\ (exists v, In (Some v) col /\ (t <= v)%Q).
Proof.
  intros H0 H1. unfold quantile.
  pose proof (@isort_sorted _ Qle_bool Qle_bool_total Qle_bool_trans (dropna col)) as Hs.
  pose proof (isort_In Qle_bool (dropna col)) as Hin.
  destruct (isort Qle_bool (dropna col)) as [|x0 xs] eqn:E; [discriminate|].
  intro Ht. injection Ht as <-.
  assert (Hlen : length (x0 :: xs) >= 1) by (simpl; lia).
  destruct (interpolate_bounds x0 Hs Hlen H0 H1) as [Hlo Hhi].
  split.
  - exists (nth 0 (x0 :: xs) x0). split; [|exact Hlo].
    apply in_dropna, Hin, nth_In. simpl. lia.
  - exists (nth (length (x0 :: xs) - 1) (x0 :: xs) x0). split; [|exact Hhi].
    apply in_dropna, Hin, nth_In. simpl. lia.
Qed.

(** X9. With a level between 0 and 1, the threshold of a rule lies between
    the least and the greatest defined value of the row.  So a ticker with
    the greatest score of the month is never listed by the low-momentum
    rule, and a ticker with the least beta is never listed by the high-beta
    rule: no rule lists every ticker. *)
Theorem extreme_tickers_survive (q : Q) (row : list (symbol * cell))
  (s : symbol) (v : Q) :
  (0 <= q)%Q -> (q <= 1)%Q ->
  NoDup (map fst row) -> In (s, Some v) row ->
  (exists thr lo hi, quantile q (map snd row) = Some thr
     /\ In (Some lo) (map snd row) /\ In (Some hi) (map snd row)
     /\ (lo <= thr)%Q /\ (thr <= hi)%Q)
  /\ ((forall s' v', In (s', Some v') row -> (v' <= v)%Q) ->
      ~ In s (below_quantile q row))
  /\ ((forall s' v', In (s', Some v') row -> (v <= v')%Q) ->
      ~ In s (above_quantile q row)).
Proof.
  intros H0 H1 Hnd Hin.
  assert (Hdef : In (Some v) (map snd row)) by (apply in_map_iff; now exists (s, Some v)).
  destruct (quantile_defined q _ _ Hdef) as (thr & Hthr).
  destruct (quantile_bounds _ H0 H1 Hthr) as ((lo & Hlo & Hlo') & (hi & Hhi & Hhi')).
  split; [exists thr, lo, hi; auto|]. split.
  - intros Hmax Hs. apply in_below_quantile in Hs.
    destruct Hs as (v0 & thr0 & Hin0 & Hq0 & Hlt).
    assert (Some v0 = Some v) by (eapply NoDup_fst_unique; eauto).
    assert (thr0 = thr) by congruence. subst thr0.
    apply in_map_iff in Hhi. destruct Hhi as ([s' c] & Hc & Hrow). simpl in Hc. subst c.
    specialize (Hmax s' hi Hrow). injection H as ->. lra.
  - intros Hmin Hs. apply in_above_quantile in Hs.
    destruct Hs as (v0 & thr0 & Hin0 & Hq0 & Hlt).
    assert (Some v0 = Some v) by (eapply NoDup_fst_unique; eauto).
    assert (thr0 = thr) by congruence. subst thr0.
    apply in_map_iff in Hlo. destruct Hlo as ([s' c] & Hc & Hrow). simpl in Hc. subst c.
    specialize (Hmin s' lo Hrow). injection H as ->. lra.
Qed.

Lemma extreme_tickers_survive_witness :
  (0 <= QUANTILE_LOW_MOMENTUM)%Q /\ (QUANTILE_LOW_MOMENTUM <= 1)%Q
  /\ NoDup (map fst five_scores)
  /\ In ("aaa"%string, Some 4%Q) five_scores
  /\ ~ In "aaa"%string (below_quantile QUANTILE_LOW_MOMENTUM five_scores).
Proof.
  assert (H0 : (0 <= QUANTILE_LOW_MOMENTUM)%Q) by (unfold Qle; simpl; lia).
  assert (H1 : (QUANTILE_LOW_MOMENTUM <= 1)%Q) by (unfold Qle; simpl; lia).
  assert (Hnd : NoDup (map fst five_scores)).
  { simpl. repeat constructor; simpl; intuition discriminate. }
  assert (Hin : In ("aaa"%string, Some 4%Q) five_scores) by (simpl; auto).
  split; [exact H0|]. split; [exact H1|]. split; [exact Hnd|]. split; [exact Hin|].
  apply (proj1 (proj2 (@extreme_tickers_survive QUANTILE_LOW_MOMENTUM five_scores
                         "aaa"%string 4%Q H0 H1 Hnd Hin))).
  intros s' v' Hs'. simpl in Hs'.
  repeat (destruct Hs' as [Hs'|Hs'];
          [first [discriminate Hs'
                 |injection Hs' as _ <-; unfold Qle; simpl; lia]|]).
  destruct Hs'.
Defined.

Lemma above_quantile_anti (q1 q2 : Q) (row : list (symbol * cell)) :
  (0 <= q1)%Q -> (q1 <= q2)%Q -> (q2 <= 1)%Q ->
  incl (above_quantile q2 row) (above_quantile q1 row).
Proof.
  intros H0 H12 H1 s Hs. apply in_above_quantile in Hs.
  destruct Hs as (v & t2 & Hin & Hq2 & Hlt).
  assert (Hdef : In (Some v) (map snd row)) by (apply in_map_iff; now exists (s, Some v)).
  destruct (quantile_defined q1 _ _ Hdef) as (t1 & Hq1).
  apply in_above_quantile. exists v, t1. split; [exact Hin|]. split; [exact Hq1|].
  pose proof (quantile_mono _ H0 H12 H1 Hq1 Hq2). lra.
Qed.

(** X10. On the same row of betas, every ticker that the high-beta rule of
    the screener (level 0.9) lists is listed by the rule of the backtest
    (level 0.85). *)
Theorem screener_beta_rule_weaker (row : list (symbol * cell)) :
  incl (above_quantile Screener.QUANTILE_HIGH_BETA row)
       (above_quantile Backtest.QUANTILE_HIGH_BETA row).
Proof.
  apply above_quantile_anti; unfold Qle; simpl; lia.
Qed.


(** ** The table of [prepare_stocks] *)

(** X11. The table that [prepare_stocks] returns has one row per row of the
    monthly index, in the same order and with the same date, month, close
    and average; its ticker columns are the keys of the dict.  The filter
    only removes: a defined score of the table is the merged 12-month score
    of a ticker that is not in the month's exclusion set, and every such
    score is kept. *)
Theorem filtered_table_rows (q_low q_beta : Q) (stocks : dict (list ScoredRow))
  (index : list IndexRow) :
  map (fun r => (t_Date r, t_month r, t_Close r, t_sma r))
      (filtered_table q_low q_beta stocks index)
  = map (fun ir => (ix_Date ir, ix_month ir, ix_Close ir, ix_sma ir)) index
  /\ forall r, In r (filtered_table q_low q_beta stocks index) ->
       map fst (t_cols r) = keys stocks
       /\ forall s v,
            In (s, Some v) (t_cols r) <->
            In (s, Some v) (cross_section changes_12 stocks (t_month r))
            /\ ~ In s (neg_symbols q_low q_beta stocks (t_month r)).
Proof.
  split.
  - unfold filtered_table. rewrite map_map. reflexivity.
  - intros r Hr. split; [eapply filtered_table_cols; eauto|].
    unfold filtered_table in Hr. apply in_map_iff in Hr.
    destruct Hr as (ir & <- & _). cbn [t_cols t_month].
    intros s v. unfold apply_exclusion. rewrite in_map_iff. split.
    + intros ([s0 c0] & Heq & Hin). cbn [fst] in Heq.
      destruct (existsb (String.eqb s0) (neg_symbols q_low q_beta stocks (ix_month ir)))
        eqn:E; [discriminate|].
      injection Heq as -> ->. split; [exact Hin|].
      intro Hneg. apply (proj2 (existsb_eqb_In _ _)) in Hneg. congruence.
    + intros [Hin Hneg]. exists (s, Some v). split; [|exact Hin]. cbn [fst].
      destruct (existsb (String.eqb s) (neg_symbols q_low q_beta stocks (ix_month ir)))
        eqn:E; [|reflexivity].
      apply (proj1 (existsb_eqb_In _ _)) in E. contradiction.
Qed.

(** ** [get_top_stocks] *)

Lemma NoDup_fst_dropna_cols (cols : list (symbol * cell)) :
  NoDup (map fst cols) -> NoDup (map fst (dropna_cols cols)).
Proof.
  induction cols as [|[s [v|]] cols IH]; simpl; intro H; [constructor| |].
  - inversion H as [|? ? Hnin Hnd]; subst. constructor; [|now apply IH].
    intro Hin. apply Hnin. apply in_map_iff in Hin.
    destruct Hin as ([s' v'] & <- & Hin). apply in_dropna_cols in Hin.
    apply in_map_iff. now exists (s', Some v').
  - inversion H; subst. now apply IH.
Qed.

Lemma NoDup_map_filter (A B : Type) (p : A -> bool) (f : A -> B) (l : list A)
  (Hl : NoDup (map f l)) : NoDup (map f (filter p l)).
Proof.
  induction l as [|x l IH]; simpl in *; [constructor|].
  inversion Hl as [|? ? Hnin Hnd]; subst.
  destruct (p x); simpl; [|now apply IH].
  constructor; [|now apply IH].
  intro Hin. apply Hnin. apply in_map_iff in Hin.
  destruct Hin as (y & Hy & Hin). apply filter_In in Hin.
  apply in_map_iff. exists y. tauto.
Qed.

Lemma NoDup_skipn (A : Type) (n : nat) (l : list A) : NoDup l -> NoDup (skipn n l).
Proof.
  intro H. rewrite <- (firstn_skipn n l) in H.
  now apply NoDup_app_remove_l in H.
Qed.

Lemma StronglySorted_skipn (A : Type) (R : A -> A -> Prop) (n : nat) (l : list A) :
  StronglySorted R l -> StronglySorted R (skipn n l).
Proof.
  revert l. induction n as [|n IH]; intros l H; [exact H|].
  destruct l as [|x l]; [constructor|]. simpl. apply IH. now inversion H.
Qed.

Lemma StronglySorted_impl (A : Type) (R R' : A -> A -> Prop) (l : list A) :
  (forall x y, R x y -> R' x y) -> StronglySorted R l -> StronglySorted R' l.
Proof.
  intros Himp. induction 1 as [|a l Hs IH Hall]; constructor; auto.
  eapply Forall_impl; [|exact Hall]. intros y. apply Himp.
Qed.

(** X12. [get_top_stocks] on a row without NaN raises [KeyError] exactly
    when the close or the average of the index was NaN in the row.
    Otherwise its answer is in ascending order of score, the best ticker
    last, and names no ticker twice. *)
Theorem get_top_stocks_result (r : TableRow) :
  (get_top_stocks (dropna_row r) = Raise KeyError
   <-> t_Close r = None \/ t_sma r = None)
  /\ ((exists l, get_top_stocks (dropna_row r) = Ok l)
      <-> t_Close r <> None /\ t_sma r <> None)
  /\ forall l,
       get_top_stocks (dropna_row r) = Ok l ->
       (exists sel, l = map fst sel
          /\ StronglySorted (fun a b => (snd a <= snd b)%Q) sel
          /\ forall s v, In (s, v) sel -> In (s, Some v) (t_cols r))
       /\ (NoDup (map fst (t_cols r)) -> NoDup l).
Proof.
  unfold get_top_stocks, dropna_row. cbn [f_month f_Close f_sma f_symbols].
  destruct (t_Close r) as [c|], (t_sma r) as [a|];
    (split; [|split]);
    try (split; [intro H; discriminate H|intros [H|H]; discriminate H]);
    try (split; [intros _; tauto|reflexivity]);
    try (split; [intros [l H]; discriminate H|intros [H1 H2]; congruence]);
    try (intros l H; discriminate H).
  - split; [intros _; split; discriminate|intros _; eauto].
  - intros l H. injection H as <-. split.
    + exists (top_rows (dropna_cols (t_cols r))). split; [reflexivity|]. split.
      * unfold top_rows, tail. apply StronglySorted_skipn.
        eapply StronglySorted_impl.
        2: { apply isort_sorted; [apply score_leb_total|apply score_leb_trans]. }
        intros x y Hxy. now apply Qle_bool_iff.
      * intros s v Hin. unfold top_rows, tail in Hin. apply In_skipn in Hin.
        apply (proj1 (isort_In _ _ _)) in Hin. apply filter_In in Hin.
        apply in_dropna_cols. tauto.
    + intro Hnd. unfold top_rows, tail.
      rewrite <- skipn_map. apply NoDup_skipn.
      eapply Permutation_NoDup.
      * apply Permutation_map. symmetry. apply isort_perm.
      * apply NoDup_map_filter. now apply NoDup_fst_dropna_cols.
Qed.


(** ** The execution month *)

Lemma add_days_S (n : nat) (dt : date) : add_days (S n) dt = next_day (add_days n dt).
Proof. reflexivity. Qed.

Lemma add_days_add (a b : nat) (dt : date) :
  add_days (a + b) dt = add_days a (add_days b dt).
Proof.
  induction a as [|a IH]; [reflexivity|].
  change (S a + b) with (S (a + b)). now rewrite !add_days_S, IH.
Qed.

Lemma add_days_within (n : nat) (dt : date) :
  day dt + n <= days_in_month (year dt) (mon dt) ->
  add_days n dt = mkDate (year dt) (mon dt) (day dt + n).
Proof.
  induction n as [|n IH]; intro H.
  - destruct dt as [y m dd]. unfold add_days. simpl. now rewrite Nat.add_0_r.
  - rewrite add_days_S, IH by lia. unfold next_day. cbn [year mon day].
    replace (day dt + n <? days_in_month (year dt) (mon dt)) with true
      by (symmetry; apply Nat.ltb_lt; lia).
    f_equal. lia.
Qed.

Lemma days_in_month_ge_28 (y m : nat) : 28 <= days_in_month y m.
Proof.
  unfold days_in_month.
  do 12 (destruct m as [|m]; [try destruct (is_leap y); lia|]). lia.
Qed.

Lemma add_days_cross (n : nat) (dt : date) :
  day dt <= days_in_month (year dt) (mon dt) ->
  days_in_month (year dt) (mon dt) < day dt + n ->
  day dt + n <= days_in_month (year dt) (mon dt) + 28 ->
  add_days n dt
  = mkDate (fst (next_month dt)) (snd (next_month dt))
           (day dt + n - days_in_month (year dt) (mon dt)).
Proof.
  intros Hd Hcross Hfar.
  set (dim := days_in_month (year dt) (mon dt)) in *.
  set (k := dim - day dt).
  replace n with ((n - S k) + S k) by lia.
  rewrite add_days_add, add_days_S, (add_days_within k) by (fold dim; lia).
  assert (Hfirst : next_day (mkDate (year dt) (mon dt) (day dt + k))
                   = mkDate (fst (next_month dt)) (snd (next_month dt)) 1).
  { unfold next_day, next_month. cbn [year mon day]. fold dim.
    replace (day dt + k <? dim) with false by (symmetry; apply Nat.ltb_ge; lia).
    destruct (mon dt <? 12); reflexivity. }
  rewrite Hfirst, add_days_within; cbn [year mon day].
  - f_equal. lia.
  - pose proof (days_in_month_ge_28 (fst (next_month dt)) (snd (next_month dt))). lia.
Qed.

(** X13. The month written on a pick is the month of the row's date plus
    ten days.  For a date of the calendar that is the month after the
    date's month when fewer than ten days are left in the month, and the
    date's own month otherwise. *)
Theorem execution_month (dt : date) :
  valid_date dt ->
  strftime_Ym (add_days 10 dt)
  = if day dt + 10 <=? days_in_month (year dt) (mon dt)
    then (year dt, mon dt)
    else next_month dt.
Proof.
  intros (_ & _ & _ & Hd).
  destruct (Nat.leb_spec (day dt + 10) (days_in_month (year dt) (mon dt))) as [H|H].
  - now rewrite add_days_within.
  - rewrite add_days_cross by lia. unfold strftime_Ym. cbn [year mon].
    now destruct (next_month dt).
Qed.

Lemma execution_month_witness :
  valid_date (mkDate 2023 12 29)
  /\ strftime_Ym (add_days 10 (mkDate 2023 12 29)) = (2024, 1)
  /\ valid_date (mkDate 2024 2 15)
  /\ strftime_Ym (add_days 10 (mkDate 2024 2 15)) = (2024, 2).
Proof.
  assert (H1 : valid_date (mkDate 2023 12 29)) by (unfold valid_date; simpl; lia).
  assert (H2 : valid_date (mkDate 2024 2 15)) by (unfold valid_date; simpl; lia).
  split; [exact H1|]. split; [exact (execution_month H1)|].
  split; [exact H2|exact (execution_month H2)].
Defined.

(** ** The selection loop *)

Lemma above_average_dec (r : TableRow) :
  cell_gt (t_Close r) (t_sma r) = true <-> above_average r.
Proof. apply cell_gt_spec. Qed.

Lemma select_month_ok (mx : label) (r : TableRow) :
  exists l, Backtest.select_month mx r = Ok l
    /\ length l <= 10
    /\ (l <> [] -> above_average r /\ t_month r <> mx /\ eligible r <> []).
Proof.
  unfold Backtest.select_month.
  destruct (cell_gt (t_Close r) (t_sma r)) eqn:Hg; simpl.
  - pose proof (proj1 (above_average_dec r) Hg) as Ha.
    destruct (label_eqb (t_month r) mx) eqn:Hm; simpl.
    + exists []. split; [reflexivity|]. split; [simpl; lia|]. congruence.
    + destruct Ha as (c & a & Hc & Hs & Hlt).
      unfold get_top_stocks, dropna_row. cbn [f_month f_Close f_sma f_symbols].
      rewrite Hc, Hs. eexists. split; [reflexivity|].
      destruct (top_rows_split (dropna_cols (t_cols r))) as (Hperm & Hlen & _).
      rewrite length_map. split; [rewrite Hlen; unfold MAX_STOCKS; lia|].
      intro Hne. split; [now exists c, a|]. split.
      * intro He. apply label_eqb_spec in He. congruence.
      * unfold eligible. intro He. apply Hne.
        assert (Hz : length (top_rows (dropna_cols (t_cols r))) = 0)
          by (rewrite Hlen, He; reflexivity).
        destruct (top_rows (dropna_cols (t_cols r))); [reflexivity|discriminate].
  - exists []. split; [reflexivity|]. split; [simpl; lia|]. congruence.
Qed.

Lemma for_each_select (mx : label) (tbl : list TableRow) (acc : list Backtest.Pick) :
  exists res,
    for_each tbl
      (fun r acc0 =>
         top <- Backtest.select_month mx r ;;
         Ok (acc0 ++ map (Backtest.mkPick (strftime_Ym (add_days 10 (t_Date r)))) top))
      acc = Ok (acc ++ res)
    /\ length res <= 10 * length tbl
    /\ forall p, In p res ->
         exists r, In r tbl /\ above_average r /\ t_month r <> mx
                   /\ Backtest.pk_month p = strftime_Ym (add_days 10 (t_Date r)).
Proof.
  revert acc. induction tbl as [|r tbl IH]; intro acc.
  - exists []. split; [simpl; now rewrite app_nil_r|]. split; [simpl; lia|intros p []].
  - destruct (select_month_ok mx r) as (top & Hsel & Hlen & Hgate).
    cbn [for_each]. rewrite Hsel. cbn [bind].
    destruct (IH (acc ++ map (Backtest.mkPick (strftime_Ym (add_days 10 (t_Date r)))) top))
      as (res & Hrun & Hl & Hp).
    exists (map (Backtest.mkPick (strftime_Ym (add_days 10 (t_Date r)))) top ++ res).
    split; [now rewrite Hrun, app_assoc|]. split.
    + rewrite length_app, length_map. simpl. lia.
    + intros p Hin. apply in_app_or in Hin. destruct Hin as [Hin|Hin].
      * apply in_map_iff in Hin. destruct Hin as (s & <- & Hs).
        destruct Hgate as (Ha & Hm & _); [intro He; rewrite He in Hs; exact Hs|].
        exists r. cbn [Backtest.pk_month]. split; [now left|]. auto.
      * destruct (Hp p Hin) as (r' & Hr' & H'). exists r'. split; [now right|exact H'].
Qed.

(** X14. The selection loop of the backtest never raises, whatever the
    table: the gate on the index keeps [get_top_stocks] away from the rows
    on which it would raise.  It returns at most ten picks per row, and
    every pick comes from a row whose index close is above its average and
    whose month is not the greatest month of the table. *)
Theorem build_portfolio_total (tbl : list TableRow) :
  exists portfolio,
    Backtest.build_portfolio tbl = Ok portfolio
    /\ length portfolio <= 10 * length tbl
    /\ forall p, In p portfolio ->
         exists r, In r tbl /\ above_average r
                   /\ t_month r <> Backtest.month_max tbl
                   /\ Backtest.pk_month p = strftime_Ym (add_days 10 (t_Date r)).
Proof.
  unfold Backtest.build_portfolio.
  destruct (for_each_select (Backtest.month_max tbl) tbl []) as (res & Hrun & H).
  exists res. split; [exact Hrun|exact H].
Qed.

(** X15. When no row of the table has its index close above its average
    outside the greatest month, nothing is selected, and the main then
    raises [AttributeError] on [portfolio.symbol]: the frame built from an
    empty list has no column. *)
Theorem backtest_without_selection (roc : list Q -> nat -> list cell)
  (yf_download : data_source) (sp : SP_500_stocks) (sp_500 : list IndexDay)
  (tbl : list TableRow) :
  Backtest.prepare_stocks roc yf_download sp (get_monthly_index sp_500) = Ok tbl ->
  (forall r, In r (Backtest.slice_from (mkDate 2016 12 1) tbl) ->
     ~ above_average r
     \/ t_month r = Backtest.month_max (Backtest.slice_from (mkDate 2016 12 1) tbl)) ->
  Backtest.build_portfolio (Backtest.slice_from (mkDate 2016 12 1) tbl) = Ok []
  /\ Backtest.main roc yf_download sp sp_500 = Raise AttributeError.
Proof.
  intros Hprep Hclosed.
  destruct (for_each_select
              (Backtest.month_max (Backtest.slice_from (mkDate 2016 12 1) tbl))
              (Backtest.slice_from (mkDate 2016 12 1) tbl) [])
    as (portfolio & Hrun & _ & Hpicks).
  fold (Backtest.build_portfolio (Backtest.slice_from (mkDate 2016 12 1) tbl)) in Hrun.
  cbn [app] in Hrun.
  assert (portfolio = []).
  { destruct portfolio as [|p rest]; [reflexivity|exfalso].
    destruct (Hpicks p (or_introl eq_refl)) as (r & Hr & Ha & Hm & _).
    destruct (Hclosed r Hr); contradiction. }
  subst portfolio. split; [exact Hrun|].
  unfold Backtest.main. rewrite Hprep. cbn [bind]. rewrite Hrun. reflexivity.
Qed.

Lemma backtest_without_selection_witness :
  exists tbl,
    Backtest.prepare_stocks roc_spec googl_source googl_members
      (get_monthly_index (bear_days 3)) = Ok tbl
    /\ Backtest.main roc_spec googl_source googl_members (bear_days 3)
       = Raise AttributeError.
Proof.
  destruct (Backtest.prepare_stocks roc_spec googl_source googl_members
              (get_monthly_index (bear_days 3))) as [tbl|e] eqn:Hprep;
    [|vm_compute in Hprep; discriminate].
  exists tbl. split; [reflexivity|].
  apply (@backtest_without_selection roc_spec googl_source googl_members
           (bear_days 3) tbl Hprep).
  intros r Hr. left. intro Ha. apply above_average_dec in Ha.
  vm_compute in Hprep. injection Hprep as <-.
  apply filter_In in Hr. destruct Hr as [Hr _]. simpl in Hr.
  destruct Hr as [<-|[<-|[<-|[]]]]; vm_compute in Ha; discriminate.
Defined.


(** ** The size of a position *)

Lemma Qtrunc_floor (x : Q) : (0 <= x)%Q -> Qtrunc x = Qfloor x.
Proof.
  destruct x as [n dn]. unfold Qle, Qtrunc, Qfloor. simpl. intro H.
  apply Z.quot_div_nonneg; lia.
Qed.

(** X16. A position bought at a positive price holds the whole number of
    shares that 10000 buys at that price: its cost does not exceed 10000,
    and one share more would. *)
Theorem position_sizing (p : Backtest.Position) (t : Backtest.Trade) :
  Backtest.size_position p = Ok t ->
  (0 < Backtest.tr_buy t)%Q ->
  Backtest.tr_shares t = Qfloor (10000 / Backtest.tr_buy t)
  /\ (0 <= Backtest.tr_shares t)%Z
  /\ (Backtest.tr_invest t <= 10000)%Q
  /\ (10000 < Backtest.tr_invest t + Backtest.tr_buy t)%Q.
Proof.
  intros Hs Hb. apply size_position_ok in Hs.
  destruct Hs as (_ & _ & _ & _ & _ & Hsh & Hinv & _).
  set (b := Backtest.tr_buy t) in *. set (x := (10000 / b)%Q) in *.
  assert (Hx : (0 <= x)%Q) by (unfold x; apply Qle_shift_div_l; lra).
  assert (Hxb : (x * b == 10000)%Q) by (unfold x; field; lra).
  rewrite (Qtrunc_floor Hx) in Hsh.
  destruct (Qfloor_bounds x) as [Hf1 Hf2]. rewrite <- Hsh in Hf1, Hf2.
  split; [exact Hsh|]. split.
  - rewrite Hsh. change 0%Z with (Qfloor 0). now apply Qfloor_resp_le.
  - rewrite Hinv. set (n := inject_Z (Backtest.tr_shares t)) in *. split; nra.
Qed.

Lemma position_sizing_witness :
  exists t,
    Backtest.size_position
      (Backtest.mkPosition (2024, 1) "aaa"%string None None (Some 220%Q) (Some 231%Q) None)
    = Ok t
    /\ Backtest.tr_shares t = 45%Z
    /\ (Backtest.tr_invest t <= 10000)%Q.
Proof.
  set (p := Backtest.mkPosition (2024, 1) "aaa"%string None None (Some 220%Q) (Some 231%Q) None).
  destruct (Backtest.size_position p) as [t|e] eqn:Hs; [|vm_compute in Hs; discriminate].
  exists t. split; [reflexivity|].
  assert (Hb : (0 < Backtest.tr_buy t)%Q).
  { vm_compute in Hs. injection Hs as <-. reflexivity. }
  destruct (position_sizing p Hs Hb) as (_ & _ & Hle & _).
  split; [|exact Hle].
  vm_compute in Hs. injection Hs as <-. reflexivity.
Defined.

(** ** The monthly aggregation *)

Lemma label_leb_total (a b : label) : label_leb a b = true \/ label_leb b a = true.
Proof.
  unfold label_leb. rewrite !orb_true_iff, !andb_true_iff, !Nat.ltb_lt, !Nat.eqb_eq,
    !Nat.leb_le. lia.
Qed.

Lemma label_leb_trans (a b c : label) :
  label_leb a b = true -> label_leb b c = true -> label_leb a c = true.
Proof.
  unfold label_leb. rewrite !orb_true_iff, !andb_true_iff, !Nat.ltb_lt, !Nat.eqb_eq,
    !Nat.leb_le. lia.
Qed.

Lemma list_sum_concat_length (A : Type) (gs : list (list A)) :
  list_sum (map (@length A) gs) = length (concat gs).
Proof.
  induction gs as [|g gs IH]; simpl; [reflexivity|].
  now rewrite length_app, IH.
Qed.

Lemma Qsum_concat (A : Type) (f : A -> Q) (gs : list (list A)) :
  (Qsum (map (fun g => Qsum (map f g)) gs) == Qsum (map f (concat gs)))%Q.
Proof.
  induction gs as [|g gs IH]; simpl; [reflexivity|].
  rewrite map_app, Qsum_app, IH. reflexivity.
Qed.

(** X17. The frame [monthly] has one row per execution month of the
    trades, each month once, in ascending order.  It loses nothing: its
    position counts add up to the number of trades, and its invested and
    resulting amounts add up to those of the trades. *)
Theorem monthly_totals (trades : list Backtest.Trade) :
  NoDup (map Backtest.mo_month (Backtest.monthly trades))
  /\ StronglySorted (fun a b => label_leb a b = true)
                    (map Backtest.mo_month (Backtest.monthly trades))
  /\ (forall m, In m (map Backtest.mo_month (Backtest.monthly trades))
                <-> In m (map Backtest.tr_month trades))
  /\ list_sum (map Backtest.mo_Positions (Backtest.monthly trades)) = length trades
  /\ (Qsum (map Backtest.mo_Invest (Backtest.monthly trades))
      == Qsum (map Backtest.tr_invest trades))%Q
  /\ (Qsum (map Backtest.mo_Profit (Backtest.monthly trades))
      == Qsum (map Backtest.tr_profit trades))%Q.
Proof.
  assert (Hm : map Backtest.mo_month (Backtest.monthly trades)
               = map fst (groupby Backtest.tr_month trades)).
  { unfold Backtest.monthly. rewrite map_map. reflexivity. }
  pose proof (groupby_partition Backtest.tr_month trades) as Hpart.
  split; [rewrite Hm; apply NoDup_groupby_keys|]. split.
  { rewrite Hm, groupby_keys. apply isort_sorted.
    - apply label_leb_total.
    - apply label_leb_trans. }
  split.
  { intro m. rewrite Hm, groupby_keys. split; intro H.
    - apply (proj1 (isort_In _ _ _)) in H.
      now apply (proj1 (in_distinct_labels _ _)) in H.
    - apply (proj2 (isort_In _ _ _)). now apply (proj2 (in_distinct_labels _ _)). }
  unfold Backtest.monthly. rewrite !map_map. cbn [Backtest.agg_trades
    Backtest.mo_Positions Backtest.mo_Invest Backtest.mo_Profit].
  split; [|split].
  - rewrite <- (map_map snd (@length Backtest.Trade)), list_sum_concat_length.
    now apply Permutation_length.
  - rewrite <- (map_map snd (fun g => Qsum (map Backtest.tr_invest g))), Qsum_concat.
    now apply Qsum_perm, Permutation_map.
  - rewrite <- (map_map snd (fun g => Qsum (map Backtest.tr_profit g))), Qsum_concat.
    now apply Qsum_perm, Permutation_map.
Qed.


(** ** The membership file *)






(** X19. [all_symbols] on a loaded file returns each ticker of the file
    once: a name is in the answer exactly when a snapshot holds it. *)
Theorem all_symbols_members (df : list Snapshot) :
  exists l, all_symbols (Some df) = Ok l
    /\ NoDup l
    /\ forall x, In x l <-> exists s, In s df /\ In x (tickers s).
Proof.
  unfold all_symbols. eexists. split; [reflexivity|]. split.
  - eapply Permutation_NoDup; [symmetry; apply isort_perm|apply NoDup_dedup].
  - intro x. rewrite isort_In, in_dedup, in_concat. split.
    + intros (l & Hl & Hx). apply in_map_iff in Hl. destruct Hl as (s & <- & Hs).
      exists s. auto.
    + intros (s & Hs & Hx). exists (tickers s). split; [now apply in_map|exact Hx].
Qed.


(** ** The changes of the screener *)

Lemma in_set_inter (a b : list symbol) (s : symbol) :
  In s (set_inter a b) <-> In s a /\ In s b.
Proof. unfold set_inter. now rewrite filter_In, existsb_eqb_In. Qed.

Lemma in_set_diff (a b : list symbol) (s : symbol) :
  In s (set_diff a b) <-> In s a /\ ~ In s b.
Proof.
  unfold set_diff. rewrite filter_In, negb_true_iff.
  rewrite <- not_true_iff_false, existsb_eqb_In. tauto.
Qed.

Lemma NoDup_filter (A : Type) (p : A -> bool) (l : list A) : NoDup l -> NoDup (filter p l).
Proof.
  intro H. rewrite <- (map_id (filter p l)). apply NoDup_map_filter.
  now rewrite map_id.
Qed.

(** X20. When the screener reports changes, they are those of the
    selections of the last two rows of the table: a ticker is unchanged
    when it is in both, removed when it is in the current one only, added
    when it is in the next one only; no list names a ticker twice. *)
Theorem screener_changes (roc : list Q -> nat -> list cell)
  (yf_download : data_source) (sp_500_list : list string)
  (sp_500_daily : list IndexDay) (ch : Screener.Changes) :
  Screener.main roc yf_download sp_500_list sp_500_daily = Ok (Some ch) ->
  let tbl := Screener.prepare_stocks roc yf_download sp_500_list
               (get_monthly_index sp_500_daily) in
  exists r2 r1 current next,
    iloc_neg 2 tbl = Ok r2 /\ iloc_neg 1 tbl = Ok r1
    /\ get_top_stocks (dropna_row r2) = Ok current
    /\ get_top_stocks (dropna_row r1) = Ok next
    /\ (forall s, In s (Screener.unchanged_stocks ch) <-> In s current /\ In s next)
    /\ (forall s, In s (Screener.removed_stocks ch) <-> In s current /\ ~ In s next)
    /\ (forall s, In s (Screener.added_stocks ch) <-> In s next /\ ~ In s current)
    /\ NoDup (Screener.unchanged_stocks ch)
    /\ NoDup (Screener.removed_stocks ch)
    /\ NoDup (Screener.added_stocks ch).
Proof.
  intros Hmain tbl. unfold Screener.main in Hmain. fold tbl in Hmain.
  destruct (iloc_neg 1 (get_monthly_index sp_500_daily)) as [last_row|e];
    cbn [bind] in Hmain; [|discriminate].
  destruct (cell_gt (ix_Close last_row) (ix_sma last_row)); [|discriminate].
  destruct (iloc_neg 2 tbl) as [r2|e] eqn:H2; cbn [bind] in Hmain; [|discriminate].
  destruct (get_top_stocks (dropna_row r2)) as [current|e] eqn:Hc;
    cbn [bind] in Hmain; [|discriminate].
  destruct (iloc_neg 1 tbl) as [r1|e] eqn:H1; cbn [bind] in Hmain; [|discriminate].
  destruct (get_top_stocks (dropna_row r1)) as [next|e] eqn:Hn;
    cbn [bind] in Hmain; [|discriminate].
  injection Hmain as <-.
  cbn [Screener.unchanged_stocks Screener.removed_stocks Screener.added_stocks].
  exists r2, r1, current, next. unfold set_of.
  split; [reflexivity|]. split; [reflexivity|].
  split; [exact Hc|]. split; [exact Hn|].
  split; [intro s; now rewrite in_set_inter, in_dedup|].
  split; [intro s; now rewrite in_set_diff, !in_dedup|].
  split; [intro s; now rewrite in_set_diff, !in_dedup|].
  split; [apply NoDup_filter, NoDup_dedup|].
  split; apply NoDup_filter, NoDup_dedup.
Qed.

Lemma screener_changes_witness :
  exists ch,
    Screener.main roc_spec aaa_source [] (index_days 14) = Ok (Some ch)
    /\ forall s, In s (Screener.removed_stocks ch)
                 -> exists r2 current,
                      iloc_neg 2 (Screener.prepare_stocks roc_spec aaa_source []
                                    (get_monthly_index (index_days 14))) = Ok r2
                      /\ get_top_stocks (dropna_row r2) = Ok current
                      /\ In s current.
Proof.
  destruct (Screener.main roc_spec aaa_source [] (index_days 14)) as [[ch|]|e] eqn:Hmain;
    [|vm_compute in Hmain; discriminate|vm_compute in Hmain; discriminate].
  exists ch. split; [reflexivity|].
  destruct (@screener_changes roc_spec aaa_source [] (index_days 14) ch Hmain)
    as (r2 & r1 & current & next & H2 & _ & Hc & _ & _ & Hrem & _).
  intros s Hs. exists r2, current. split; [exact H2|]. split; [exact Hc|].
  exact (proj1 (proj1 (Hrem s) Hs)).
Defined.

(** X21. The edges of the screener's main.  When the close of the last
    month of the index is not above its average (a NaN included) it
    reports nothing and raises nothing.  When it is above and the index has
    that one month only, the main raises [IndexError]: the table has no row
    before the last to take the current selection from. *)
Theorem screener_main_edges (roc : list Q -> nat -> list cell)
  (yf_download : data_source) (sp_500_list : list string)
  (sp_500_daily : list IndexDay) (ir : IndexRow) :
  iloc_neg 1 (get_monthly_index sp_500_daily) = Ok ir ->
  (cell_gt (ix_Close ir) (ix_sma ir) = false ->
   Screener.main roc yf_download sp_500_list sp_500_daily = Ok None)
  /\ (cell_gt (ix_Close ir) (ix_sma ir) = true ->
      length (get_monthly_index sp_500_daily) = 1 ->
      Screener.main roc yf_download sp_500_list sp_500_daily = Raise IndexError).
Proof.
  intro Hlast. unfold Screener.main. rewrite Hlast. cbn [bind]. split.
  - intros ->. reflexivity.
  - intros -> Hlen.
    assert (Ht : length (Screener.prepare_stocks roc yf_download sp_500_list
                           (get_monthly_index sp_500_daily)) = 1).
    { rewrite <- Hlen. unfold Screener.prepare_stocks, filtered_table.
      apply length_map. }
    destruct (Screener.prepare_stocks roc yf_download sp_500_list
                (get_monthly_index sp_500_daily)) as [|r [|r' t]];
      try discriminate Ht.
    reflexivity.
Qed.

Lemma screener_main_edges_witness :
  Screener.main roc_spec aaa_source [] (bear_days 3) = Ok None
  /\ Screener.main roc_spec aaa_source [] (index_days 1) = Raise IndexError.
Proof.
  split.
  - apply (@screener_main_edges roc_spec aaa_source [] (bear_days 3)
             (mkIndexRow (mkDate 2023 3 28) (23, 3) (Some 3000%Q) (Some 3100%Q)));
      reflexivity.
  - apply (@screener_main_edges roc_spec aaa_source [] (index_days 1)
             (mkIndexRow (mkDate 2023 1 28) (23, 1) (Some 4000%Q) (Some 3900%Q)));
      reflexivity.
Defined.

(** ** The greatest month *)

Lemma label_leb_refl (a : label) : label_leb a a = true.
Proof. destruct (label_leb_total a a); assumption. Qed.

Lemma month_max_upper (tbl : list TableRow) (r : TableRow) :
  In r tbl -> label_leb (t_month r) (Backtest.month_max tbl) = true.
Proof.
  induction tbl as [|x tbl IH]; simpl; [tauto|].
  intros [<-|Hin].
  - destruct (label_leb (Backtest.month_max tbl) (t_month x)) eqn:E.
    + apply label_leb_refl.
    + destruct (label_leb_total (Backtest.month_max tbl) (t_month x)); congruence.
  - specialize (IH Hin).
    destruct (label_leb (Backtest.month_max tbl) (t_month x)) eqn:E; [|exact IH].
    eapply label_leb_trans; eauto.
Qed.

Lemma month_max_attained (tbl : list TableRow) :
  tbl <> [] -> exists r, In r tbl /\ t_month r = Backtest.month_max tbl.
Proof.
  induction tbl as [|x tbl IH]; [congruence|]. intros _. simpl.
  destruct (label_leb (Backtest.month_max tbl) (t_month x)) eqn:E.
  - exists x. auto.
  - destruct tbl as [|y tbl].
    + simpl in E. unfold label_leb in E. simpl in E.
      destruct (fst (t_month x)); simpl in E; discriminate.
    + destruct IH as (r & Hr & Hm); [discriminate|]. exists r. auto.
Qed.

(** X22. [month.max()] compares the two-digit labels.  It is the label of
    a row of the table and no row has a greater label.  When the dates of
    the table lie in the years 2000 to 2099 and each row is labelled by its
    date, a row with the greatest label is in the latest month of the
    table: the month that the loop leaves out is the running one. *)
Theorem month_max_latest (tbl : list TableRow) :
  tbl <> [] ->
  (exists r, In r tbl /\ t_month r = Backtest.month_max tbl)
  /\ (forall r, In r tbl -> label_leb (t_month r) (Backtest.month_max tbl) = true)
  /\ ((forall r, In r tbl ->
         2000 <= year (t_Date r) /\ year (t_Date r) < 2100
         /\ t_month r = strftime_ym (t_Date r)) ->
      forall r r', In r tbl -> In r' tbl ->
        t_month r = Backtest.month_max tbl ->
        label_leb (strftime_Ym (t_Date r')) (strftime_Ym (t_Date r)) = true).
Proof.
  intro Hne. split; [now apply month_max_attained|].
  split; [intros r Hr; now apply month_max_upper|].
  intros Hcent r r' Hr Hr' Hmax.
  pose proof (month_max_upper _ _ Hr') as Hle. rewrite <- Hmax in Hle.
  destruct (Hcent r Hr) as (Hy1 & Hy2 & Hl). destruct (Hcent r' Hr') as (Hy1' & Hy2' & Hl').
  rewrite Hl, Hl' in Hle. unfold label_leb, strftime_ym, strftime_Ym in *.
  cbn [fst snd] in *.
  rewrite orb_true_iff, andb_true_iff, Nat.ltb_lt, Nat.eqb_eq, Nat.leb_le in *.
  assert (Hm : forall n, 2000 <= n < 2100 -> n mod 100 = n - 2000).
  { intros n Hn. symmetry. apply (Nat.mod_unique n 100 20 (n - 2000)); lia. }
  rewrite (Hm (year (t_Date r))), (Hm (year (t_Date r'))) in Hle by lia.
  lia.
Qed.

Lemma month_max_latest_witness :
  turn_of_year <> []
  /\ Backtest.month_max turn_of_year = (24, 1)
  /\ forall r', In r' turn_of_year ->
       label_leb (strftime_Ym (t_Date r')) (2024, 1) = true.
Proof.
  assert (Hne : turn_of_year <> []) by discriminate.
  destruct (month_max_latest Hne) as (_ & _ & Hlate).
  split; [exact Hne|]. split; [reflexivity|].
  intros r' Hr'.
  apply (Hlate) with (r := trow 2024 1 (Some 4000%Q) (Some 3900%Q) []).
  - intros r [<-|[<-|[<-|[]]]]; cbn; repeat split; lia.
  - right. left. reflexivity.
  - exact Hr'.
  - reflexivity.
Defined.

(** ** The monthly index *)

Lemma last_valid_none (col : list cell) :
  last_valid col = None <-> forall c, In c col -> c = None.
Proof.
  unfold last_valid. split.
  - intros H c Hc. destruct c as [x|]; [exfalso|reflexivity].
    assert (Hin : In x (rev (dropna col))) by (apply -> in_rev; now apply in_dropna).
    destruct (rev (dropna col)); [contradiction|discriminate].
  - intro H. destruct (rev (dropna col)) as [|x t] eqn:E; [reflexivity|exfalso].
    assert (Hin : In x (dropna col)) by (apply in_rev; rewrite E; now left).
    apply in_dropna in Hin. apply H in Hin. discriminate.
Qed.

Lemma index_rows_labels (gs : list (label * list IndexDay)) :
  (forall kg, In kg gs -> snd kg <> []) ->
  map ix_month (flat_map (fun kg => agg_index (fst kg) (snd kg)) gs) = map fst gs.
Proof.
  induction gs as [|[k g] gs IH]; simpl; intro H; [reflexivity|].
  destruct g as [|r0 g]; [exfalso; now apply (H (k, []) (or_introl eq_refl))|].
  simpl. f_equal. apply IH. intros kg Hkg. apply H. now right.
Qed.

Lemma in_monthly_index (sp_500 : list IndexDay) (r : IndexRow) :
  In r (get_monthly_index sp_500) ->
  exists r0 g,
    filter (fun x => label_eqb (strftime_ym (x_Date x)) (ix_month r)) sp_500 = r0 :: g
    /\ ix_Date r = x_Date (last (r0 :: g) r0)
    /\ ix_Close r = last_valid (map x_Close (r0 :: g))
    /\ ix_sma r = last_valid (map x_sma (r0 :: g)).
Proof.
  unfold get_monthly_index. intro H. apply (proj1 (isort_In _ _ _)) in H.
  apply in_flat_map in H. destruct H as ([k g] & Hkg & Hr).
  apply in_groupby in Hkg. destruct Hkg as [_ Hg]. cbn [fst snd] in Hr.
  destruct g as [|r0 g]; [contradiction|].
  destruct Hr as [<-|[]]. cbn [ix_month ix_Date ix_Close ix_sma].
  exists r0, g. rewrite <- Hg. repeat split; reflexivity.
Qed.

(** X23. The monthly index has one row per month of the daily frame, each
    month once, in ascending order of date; the label of a row is the
    label of its own date, which is the date of a day of the frame.  The
    average of a month is NaN exactly when it is NaN on every day of the
    month, and likewise the close: as in the first months of the frame,
    for which the gate on the index is then closed. *)
Theorem monthly_index_rows (sp_500 : list IndexDay) :
  NoDup (map ix_month (get_monthly_index sp_500))
  /\ (forall m, In m (map ix_month (get_monthly_index sp_500))
                <-> In m (map (fun x => strftime_ym (x_Date x)) sp_500))
  /\ StronglySorted (fun a b => date_leb (ix_Date a) (ix_Date b) = true)
                    (get_monthly_index sp_500)
  /\ forall r, In r (get_monthly_index sp_500) ->
       ix_month r = strftime_ym (ix_Date r)
       /\ (exists x, In x sp_500 /\ x_Date x = ix_Date r)
       /\ (ix_sma r = None <->
           forall x, In x sp_500 -> strftime_ym (x_Date x) = ix_month r ->
                     x_sma x = None)
       /\ (ix_Close r = None <->
           forall x, In x sp_500 -> strftime_ym (x_Date x) = ix_month r ->
                     x_Close x = None)
       /\ (ix_sma r = None -> cell_gt (ix_Close r) (ix_sma r) = false).
Proof.
  assert (Hlab : Permutation
            (map ix_month (get_monthly_index sp_500))
            (map fst (groupby (fun r => strftime_ym (x_Date r)) sp_500))).
  { unfold get_monthly_index.
    rewrite (Permutation_map ix_month (isort_perm index_date_leb _)).
    rewrite index_rows_labels; [reflexivity|].
    intros [k g] Hkg. simpl. eapply groupby_nonempty; eauto. }
  split; [|split; [|split]].
  - eapply Permutation_NoDup; [symmetry; exact Hlab|]. apply NoDup_groupby_keys.
  - intro m. split.
    + intro H. apply (Permutation_in _ Hlab) in H. rewrite groupby_keys in H.
      apply (proj1 (isort_In _ _ _)) in H.
      now apply (proj1 (in_distinct_labels _ _)) in H.
    + intro H. apply (Permutation_in _ (Permutation_sym Hlab)).
      rewrite groupby_keys. apply (proj2 (isort_In _ _ _)).
      now apply (proj2 (in_distinct_labels _ _)).
  - unfold get_monthly_index. apply isort_sorted.
    + intros a b. apply date_leb_total.
    + intros a b c. apply date_leb_trans.
  - intros r Hr. destruct (in_monthly_index _ _ Hr) as (r0 & g & Hf & Hd & Hc & Hs).
    assert (Hmem : forall x, In x (r0 :: g) <->
                     In x sp_500 /\ strftime_ym (x_Date x) = ix_month r).
    { intro x. rewrite <- Hf, filter_In. now rewrite label_eqb_spec. }
    pose proof (last_in g r0 r0) as Hl. apply Hmem in Hl. destruct Hl as [Hin Hm].
    assert (Hcol : forall (f : IndexDay -> cell),
               last_valid (map f (r0 :: g)) = None <->
               forall x, In x sp_500 -> strftime_ym (x_Date x) = ix_month r -> f x = None).
    { intro f. rewrite last_valid_none. split.
      - intros H x Hx Hxm. apply H. apply in_map. apply Hmem. now split.
      - intros H c Hc'. apply in_map_iff in Hc'. destruct Hc' as (x & <- & Hx).
        apply Hmem in Hx. destruct Hx. now apply H. }
    split; [rewrite Hd; symmetry; exact Hm|].
    split; [exists (last (r0 :: g) r0); split; [exact Hin|now symmetry]|].
    split; [rewrite Hs; apply Hcol|].
    split; [rewrite Hc; apply Hcol|].
    intros ->. unfold cell_gt. now destruct (ix_Close r).
Qed.
